(** * Maze solver visualizer: grid model and stepwise search strategies

    A shallow embedding of [src/main.ts]: the [Maze] class (cell matrix,
    neighbour enumeration, generation, reload), the three search strategies
    [BFS], [GBFS] and [ASTAR] with their [step] methods, the distance
    functions, and the mouse handlers that edit the maze.

    Conventions of the embedding.
    - A JavaScript [number] that holds a grid index or a path length is an
      integer far below 2^53; it is a [Z] here.  The only non-integral numbers
      of the engine are the priorities produced by [Math.sqrt]; they are
      IEEE 754 binary64 values, modelled with the Standard Library's
      executable specification [spec_float] (precision 53, [emax] 1024).
      [Math.sqrt] is the correctly rounded square root [SFsqrt].
    - [undefined] is [None].
    - Canvas drawing, console output, sound and timers are observers of the
      state and are left out; the two guards that [step] reads from the
      driver ([interval_code] and [config.is_paused]) are kept as fields. *)

From Stdlib Require Import ZArith QArith Qround Lia.
From Stdlib Require Import SpecFloat.
From stdpp Require Import base list sorting.

Local Open Scope Z_scope.

(** ** Cells and coordinates *)

Inductive MazeCell := FLOOR | WALL | ACTIVE | EXPLORED.

#[global] Instance MazeCell_eq_dec : EqDecision MazeCell.
Proof. solve_decision. Defined.

Record Coordinate := { x : Z; y : Z }.

#[global] Instance Coordinate_eq_dec : EqDecision Coordinate.
Proof. solve_decision. Defined.

(** [coord1?.x === coord2?.x && coord1?.y === coord2?.y] *)
Definition coordinate_equals (coord1 coord2 : option Coordinate) : bool :=
  bool_decide (x <$> coord1 = x <$> coord2) && bool_decide (y <$> coord1 = y <$> coord2).

(** ** Numbers that are not integers *)

Definition prec : Z := 53.
Definition emax : Z := 1024.
Abbreviation number := spec_float.

(** The double nearest to an integer (exact below 2^53). *)
Definition of_Z (z : Z) : number := binary_normalize prec emax z 0 false.

(** [Math.sqrt((x1-x2)*(x1-x2) + (y1-y2)*(y1-y2))]; the radicand is an integer
    computed exactly, only the square root rounds. *)
Definition euclidean_distance (coord1 coord2 : Coordinate) : number :=
  SFsqrt prec emax
    (of_Z ((x coord1 - x coord2) * (x coord1 - x coord2)
           + (y coord1 - y coord2) * (y coord1 - y coord2))).

(** [a > b] on numbers. *)
Definition number_gt (a b : number) : bool := SFltb b a.
(** [a <= b] on numbers. *)
Definition number_le (a b : number) : bool := SFleb a b.

(** ** Search nodes *)

(** [type searched_cell = { coord; prev_cell: searched_cell | undefined }] *)
#[local] Unset Elimination Schemes.
Inductive searched_cell :=
  Build_searched_cell (coord : Coordinate) (prev_cell : option searched_cell).
#[local] Set Elimination Schemes.

Definition coord (c : searched_cell) : Coordinate :=
  let 'Build_searched_cell co _ := c in co.
Definition prev_cell (c : searched_cell) : option searched_cell :=
  let 'Build_searched_cell _ p := c in p.

(** The cells met when following [prev_cell] links, the node itself first;
    this is the walk [canvas_draw_path] performs. *)
Fixpoint trail (c : searched_cell) : list Coordinate :=
  match c with
  | Build_searched_cell co None => [co]
  | Build_searched_cell co (Some p) => co :: trail p
  end.

(** Number of [prev_cell] links below a node: the edge length of its path. *)
Fixpoint depth (c : searched_cell) : nat :=
  match c with
  | Build_searched_cell _ None => O
  | Build_searched_cell _ (Some p) => S (depth p)
  end.

(** Modelled from the spec: PathBuilder's [reconstruct], which the source has
    only inlined in [canvas_draw_path]: the chain of a found node read from
    the root to the node. *)
Definition reconstruct (c : searched_cell) : list Coordinate := rev (trail c).

(** The cells [canvas_draw_path] paints: it first moves to the predecessor
    of the found node, then paints every node that still has a predecessor. *)
Fixpoint painted_from (c : searched_cell) : list Coordinate :=
  match c with
  | Build_searched_cell _ None => []
  | Build_searched_cell co (Some p) => co :: painted_from p
  end.
Definition canvas_draw_path (path_cell : searched_cell) : list Coordinate :=
  match prev_cell path_cell with
  | Some p => painted_from p
  | None => painted_from path_cell
  end.

(** ** The maze *)

Record Maze := {
  height : Z;
  width : Z;
  maze : list (list MazeCell);      (* [maze[x][y]]: a list of columns *)
  start : option Coordinate;
  end_ : option Coordinate          (* the field [end] *)
}.

(** [a[i]] for an integer index: [undefined] outside the array. *)
Definition js_get {A} (a : list A) (i : Z) : option A :=
  if i <? 0 then None else a !! Z.to_nat i.

(** [a[i] = v] for an index inside the array.  (Outside, JavaScript would grow
    the array; the strategies never write there: they write the cell of a
    queued node, which lies inside the grid by [expand_inv], and cells they
    have just read as FLOOR or ACTIVE.) *)
Definition js_set {A} (a : list A) (i : Z) (v : A) : list A :=
  if i <? 0 then a else <[Z.to_nat i := v]> a.

(** [this.maze[coordinate.x][coordinate.y]].  For a column index outside the
    grid the source raises a TypeError; that case is [None] here and is never
    reached from a coordinate produced by [get_neighboring_coordinates]
    (lemma [neighbor_x_in_range]). *)
Definition get_cell_type (m : Maze) (coordinate : Coordinate) : option MazeCell :=
  match js_get (maze m) (x coordinate) with
  | Some column => js_get column (y coordinate)
  | None => None
  end.

(** [this.maze[coordinate.x][coordinate.y] = cell_type] *)
Definition set_cell_type (m : Maze) (coordinate : Coordinate) (cell_type : MazeCell) : Maze :=
  match js_get (maze m) (x coordinate) with
  | Some column =>
      {| height := height m; width := width m;
         maze := js_set (maze m) (x coordinate) (js_set column (y coordinate) cell_type);
         start := start m; end_ := end_ m |}
  | None => m
  end.

Definition get_neighboring_coordinates (m : Maze) (coordinate : Coordinate) : list Coordinate :=
  (if x coordinate + 1 <=? width m - 1
   then [{| x := x coordinate + 1; y := y coordinate |}] else []) ++
  (if y coordinate + 1 <=? width m - 1
   then [{| x := x coordinate; y := y coordinate + 1 |}] else []) ++
  (if x coordinate - 1 >=? 0
   then [{| x := x coordinate - 1; y := y coordinate |}] else []) ++
  (if y coordinate - 1 >=? 0
   then [{| x := x coordinate; y := y coordinate - 1 |}] else []).

(** The neighbour enumeration the specification describes: the y-bound is the
    grid's height. *)
Definition neighbors_of_spec (m : Maze) (coordinate : Coordinate) : list Coordinate :=
  (if x coordinate + 1 <? width m
   then [{| x := x coordinate + 1; y := y coordinate |}] else []) ++
  (if y coordinate + 1 <? height m
   then [{| x := x coordinate; y := y coordinate + 1 |}] else []) ++
  (if 0 <=? x coordinate - 1
   then [{| x := x coordinate - 1; y := y coordinate |}] else []) ++
  (if 0 <=? y coordinate - 1
   then [{| x := x coordinate; y := y coordinate - 1 |}] else []).

(** ** Generation *)

(** [Math.random()] reads the next draw of a stream of numbers of [0, 1). *)
Record Random := { draws : nat -> Q; drawn : nat }.

Definition Math_random (r : Random) : Q * Random :=
  (draws r (drawn r), {| draws := draws r; drawn := S (drawn r) |}).

Definition coordinate_random (x_bound y_bound : Z) (r : Random) : Coordinate * Random :=
  let '(r1, g1) := Math_random r in
  let '(r2, g2) := Math_random g1 in
  ({| x := Qfloor (r1 * inject_Z x_bound); y := Qfloor (r2 * inject_Z y_bound) |}, g2).

Definition floor_likelihood : Q := 6 # 10.

(** The inner loop [for (let j = 0; j < this.height; j++)]. *)
Fixpoint generate_column (rows : nat) (r : Random) : list MazeCell * Random :=
  match rows with
  | O => ([], r)
  | S rows' =>
      let '(d, r1) := Math_random r in
      let cell := if Qlt_le_dec d floor_likelihood then FLOOR else WALL in
      let '(column, r2) := generate_column rows' r1 in
      (cell :: column, r2)
  end.

(** The outer loop [for (let i = 0; i < this.width; i++)]. *)
Fixpoint generate_columns (columns rows : nat) (r : Random) : list (list MazeCell) * Random :=
  match columns with
  | O => ([], r)
  | S columns' =>
      let '(column, r1) := generate_column rows r in
      let '(others, r2) := generate_columns columns' rows r1 in
      (column :: others, r2)
  end.

Definition regenerate (m : Maze) (r : Random) : Maze * Random :=
  let '(s, r1) := coordinate_random (width m) (height m) r in
  let '(e, r2) := coordinate_random (width m) (height m) r1 in
  let '(columns, r3) := generate_columns (Z.to_nat (width m)) (Z.to_nat (height m)) r2 in
  let m1 := {| height := height m; width := width m; maze := columns;
               start := Some s; end_ := Some e |} in
  (set_cell_type (set_cell_type m1 s EXPLORED) e FLOOR, r3).

Record MazeConfig := { grid_width : Z; grid_height : Z }.

(** [new Maze(config)] *)
Definition new_Maze (config : MazeConfig) (r : Random) : Maze * Random :=
  regenerate {| height := grid_height config; width := grid_width config;
                maze := []; start := None; end_ := None |} r.

(** ** The part of a step that the three strategies share *)

(** Fields of the abstract class [MazeSolvingAlgorithm], with the two globals
    its [step] methods read: the maze and [config.is_paused]. *)
Record MazeSolvingAlgorithm := {
  the_maze : Maze;
  is_paused : bool;
  search_ended : bool;
  final_searched_cell : option searched_cell;
  interval_code : option Z
}.

Definition new_algorithm (paused : bool) (m : Maze) : MazeSolvingAlgorithm :=
  {| the_maze := m; is_paused := paused; search_ended := false;
     final_searched_cell := None; interval_code := None |}.

(** [visualize()]: unpause and install the timer whose handle is [code]. *)
Definition visualize_algorithm (a : MazeSolvingAlgorithm) (code : Z) : MazeSolvingAlgorithm :=
  {| the_maze := the_maze a; is_paused := false; search_ended := search_ended a;
     final_searched_cell := final_searched_cell a; interval_code := Some code |}.

Section Expansion.
Context {F : Type}.
(** What a strategy does with a FLOOR neighbour once it is marked ACTIVE:
    BFS pushes, GBFS and A* insert by priority. *)
Variable enqueue : F -> Coordinate -> searched_cell -> F.

(** [for (const adjacent_position of maze.get_neighboring_coordinates(position.coord))]
    with its [break] on the end cell.  The third component is
    [this.final_searched_cell]. *)
Fixpoint visit (m : Maze) (frontier : F) (final : option searched_cell)
    (position : searched_cell) (adjacent : list Coordinate)
    : Maze * F * option searched_cell :=
  match adjacent with
  | [] => (m, frontier, final)
  | adjacent_position :: rest =>
      if coordinate_equals (end_ m) (Some adjacent_position) then
        (m, frontier, Some (Build_searched_cell adjacent_position (Some position)))
      else if bool_decide (get_cell_type m adjacent_position = Some FLOOR) then
        visit (set_cell_type m adjacent_position ACTIVE)
              (enqueue frontier adjacent_position position) final position rest
      else visit m frontier final position rest
  end.

(** The second loop, run when [final_searched_cell] is defined: ACTIVE
    neighbours of the expanded cell go back to FLOOR. *)
Definition revert_active (m : Maze) (adjacent : list Coordinate) : Maze :=
  fold_left (fun m adjacent_position =>
               if bool_decide (get_cell_type m adjacent_position = Some ACTIVE)
               then set_cell_type m adjacent_position FLOOR else m)
            adjacent m.

(** Mark [position] EXPLORED, visit its neighbours, revert on success. *)
Definition expand (m : Maze) (frontier : F) (final : option searched_cell)
    (position : searched_cell) : Maze * F * option searched_cell :=
  let m1 := set_cell_type m (coord position) EXPLORED in
  let '(m2, frontier2, final2) :=
    visit m1 frontier final position (get_neighboring_coordinates m1 (coord position)) in
  let m3 := match final2 with
            | Some _ => revert_active m2 (get_neighboring_coordinates m2 (coord position))
            | None => m2
            end in
  (m3, frontier2, final2).
End Expansion.

(** The insertion loop of GBFS and A*: count the leading elements whose
    priority is not greater than the new one. *)
Fixpoint index_to_insert {E} (prio : E -> number) (frontier : list E) (p : number) : nat :=
  match frontier with
  | [] => O
  | element :: rest => if number_gt (prio element) p then O else S (index_to_insert prio rest p)
  end.

(** [a.splice(i, 0, v)] *)
Definition splice {E} (a : list E) (i : nat) (v : E) : list E := take i a ++ v :: drop i a.

(** ** Breadth-first search *)
Module BFS.
Record t := {
  alg : MazeSolvingAlgorithm;
  next_search_frontier : list searched_cell;
  iterator : list searched_cell    (* what is left of the array being iterated *)
}.

(** The field initialisers run first, so [iterator] ranges over the initial
    empty array; the constructor body then replaces [next_search_frontier]. *)
Definition new (paused : bool) (m : Maze) : t :=
  {| alg := new_algorithm paused m;
     next_search_frontier :=
       match start m with
       | Some s => [Build_searched_cell s None]
       | None => []
       end;
     iterator := [] |}.

Definition visualize (b : t) (code : Z) : t :=
  {| alg := visualize_algorithm (alg b) code;
     next_search_frontier := next_search_frontier b; iterator := iterator b |}.

(** The state the start button leaves behind: a strategy constructed on [m]
    (with [config.is_paused] still true) and then visualized. *)
Definition started (m : Maze) : t := visualize (new true m) 1.

Definition push (frontier : list searched_cell) (adjacent_position : Coordinate)
    (position : searched_cell) : list searched_cell :=
  frontier ++ [Build_searched_cell adjacent_position (Some position)].

Definition step (b : t) : t :=
  let a := alg b in
  if bool_decide (interval_code a = None) then b else
  if is_paused a then b else
  let '(position, iterator1, frontier1, ended1) :=
    match iterator b with
    | value :: rest => (Some value, rest, next_search_frontier b, search_ended a)
    | [] =>
        (head (next_search_frontier b), tail (next_search_frontier b), [],
         if Nat.eqb (length (next_search_frontier b)) 0 then true else search_ended a)
    end in
  if negb ended1 then
    match position with
    | Some position =>
        let '(m, frontier2, final) :=
          expand push (the_maze a) frontier1 (final_searched_cell a) position in
        {| alg := {| the_maze := m; is_paused := is_paused a;
                     search_ended := match final with Some _ => true | None => ended1 end;
                     final_searched_cell := final;
                     interval_code := interval_code a |};
           next_search_frontier := frontier2; iterator := iterator1 |}
    | None => b  (* not reached: an exhausted iterator with an empty next
                    frontier sets [search_ended] just above *)
    end
  else
    {| alg := {| the_maze := the_maze a; is_paused := is_paused a;
                 search_ended := ended1;
                 final_searched_cell := final_searched_cell a;
                 interval_code := interval_code a |};
       next_search_frontier := frontier1; iterator := iterator1 |}.

(** The cell a call of [step] expands, if it expands one. *)
Definition expanding (b : t) : option Coordinate :=
  let a := alg b in
  if bool_decide (interval_code a = None) then None else
  if is_paused a then None else
  match iterator b with
  | value :: _ => if search_ended a then None else Some (coord value)
  | [] =>
      match next_search_frontier b with
      | value :: _ => if search_ended a then None else Some (coord value)
      | [] => None
      end
  end.
End BFS.

(** ** Greedy best-first search *)
Module GBFS.
Record priority_queue_element := { priority : number; cell : searched_cell }.

Record t := {
  alg : MazeSolvingAlgorithm;
  search_frontier : list priority_queue_element
}.

Definition new (paused : bool) (m : Maze) : t :=
  {| alg := new_algorithm paused m;
     search_frontier :=
       match start m, end_ m with
       | Some s, Some e =>
           [{| priority := euclidean_distance s e; cell := Build_searched_cell s None |}]
       | _, _ => []
       end |}.

Definition visualize (g : t) (code : Z) : t :=
  {| alg := visualize_algorithm (alg g) code; search_frontier := search_frontier g |}.

Definition started (m : Maze) : t := visualize (new true m) 1.

(** The body of the [FLOOR] branch after the cell is marked. *)
Definition enqueue (maze_end : Coordinate) (frontier : list priority_queue_element)
    (adjacent_position : Coordinate) (position : searched_cell)
    : list priority_queue_element :=
  let p := euclidean_distance adjacent_position maze_end in
  splice frontier (index_to_insert priority frontier p)
    {| priority := p; cell := Build_searched_cell adjacent_position (Some position) |}.

Definition step (g : t) : t :=
  let a := alg g in
  match end_ (the_maze a), interval_code a with
  | Some maze_end, Some _ =>
      if is_paused a then g else
      match search_frontier g with
      | [] => g
      | frontier_element :: rest =>
          let position := cell frontier_element in
          let '(m, frontier, final) :=
            expand (enqueue maze_end) (the_maze a) rest (final_searched_cell a) position in
          let ended1 := match final with Some _ => true | None => search_ended a end in
          let ended2 := if Nat.eqb (length frontier) 0 then true else ended1 in
          {| alg := {| the_maze := m; is_paused := is_paused a; search_ended := ended2;
                       final_searched_cell := final; interval_code := interval_code a |};
             search_frontier := frontier |}
      end
  | _, _ => g
  end.

Definition expanding (g : t) : option Coordinate :=
  let a := alg g in
  match end_ (the_maze a), interval_code a with
  | Some _, Some _ =>
      if is_paused a then None else
      match search_frontier g with
      | [] => None
      | frontier_element :: _ => Some (coord (cell frontier_element))
      end
  | _, _ => None
  end.
End GBFS.

(** ** A* *)
Module ASTAR.
Record priority_queue_length_element := {
  priority : number;
  cell : searched_cell;
  length : Z
}.

Record t := {
  alg : MazeSolvingAlgorithm;
  search_frontier : list priority_queue_length_element
}.

Definition new (paused : bool) (m : Maze) : t :=
  {| alg := new_algorithm paused m;
     search_frontier :=
       match start m, end_ m with
       | Some s, Some e =>
           [{| priority := euclidean_distance s e; cell := Build_searched_cell s None;
               length := 0 |}]
       | _, _ => []
       end |}.

Definition visualize (g : t) (code : Z) : t :=
  {| alg := visualize_algorithm (alg g) code; search_frontier := search_frontier g |}.

Definition started (m : Maze) : t := visualize (new true m) 1.

Definition astar_dist (m : Maze) (current_cell : priority_queue_length_element)
    (next_coord : Coordinate) : number :=
  match end_ m with
  | None => of_Z 0
  | Some maze_end =>
      SFadd prec emax (of_Z (length current_cell)) (euclidean_distance maze_end next_coord)
  end.

(** The body of the [FLOOR] branch after the cell is marked; [m] is only
    read for its [end] field, which no step changes. *)
Definition enqueue (m : Maze) (frontier_element : priority_queue_length_element)
    (frontier : list priority_queue_length_element)
    (adjacent_position : Coordinate) (position : searched_cell)
    : list priority_queue_length_element :=
  let p := astar_dist m frontier_element adjacent_position in
  splice frontier (index_to_insert priority frontier p)
    {| priority := p; cell := Build_searched_cell adjacent_position (Some position);
       length := length frontier_element + 1 |}.

Definition step (g : t) : t :=
  let a := alg g in
  match end_ (the_maze a), interval_code a with
  | Some _, Some _ =>
      if is_paused a then g else
      match search_frontier g with
      | [] => g
      | frontier_element :: rest =>
          let position := cell frontier_element in
          let '(m, frontier, final) :=
            expand (enqueue (the_maze a) frontier_element) (the_maze a) rest
                   (final_searched_cell a) position in
          let ended1 := match final with Some _ => true | None => search_ended a end in
          let ended2 := if Nat.eqb (List.length frontier) 0 then true else ended1 in
          {| alg := {| the_maze := m; is_paused := is_paused a; search_ended := ended2;
                       final_searched_cell := final; interval_code := interval_code a |};
             search_frontier := frontier |}
      end
  | _, _ => g
  end.

Definition expanding (g : t) : option Coordinate :=
  let a := alg g in
  match end_ (the_maze a), interval_code a with
  | Some _, Some _ =>
      if is_paused a then None else
      match search_frontier g with
      | [] => None
      | frontier_element :: _ => Some (coord (cell frontier_element))
      end
  | _, _ => None
  end.
End ASTAR.

(** ** Running a strategy *)

(** [n] timer ticks. *)
Definition iterate {A} (f : A -> A) (n : nat) (a : A) : A := Nat.iter n f a.

(** ** Predicates used in the statements *)

(** The cell matrix has [width] columns of [height] cells. *)
Definition well_formed (m : Maze) : Prop :=
  Z.of_nat (length (maze m)) = width m /\
  Forall (fun column => Z.of_nat (length column) = height m) (maze m).

Definition in_grid (m : Maze) (c : Coordinate) : Prop :=
  0 <= x c < width m /\ 0 <= y c < height m.

(** Two cells one step apart, horizontally or vertically. *)
Definition adjacent4 (a b : Coordinate) : Prop :=
  (x b = x a + 1 /\ y b = y a) \/ (x b = x a /\ y b = y a + 1) \/
  (x b = x a - 1 /\ y b = y a) \/ (x b = x a /\ y b = y a - 1).


(** Paths of FLOOR cells: consecutive cells are 4-adjacent and every cell
    after the first one is FLOOR.  (The first cell is where the search
    starts; [regenerate] leaves it EXPLORED.) *)
Fixpoint floor_path (m : Maze) (p : list Coordinate) : Prop :=
  match p with
  | a :: q =>
      match q with
      | b :: _ => adjacent4 a b /\ get_cell_type m b = Some FLOOR /\ floor_path m q
      | [] => True
      end
  | [] => True
  end.

Definition path_between (m : Maze) (s e : Coordinate) (p : list Coordinate) : Prop :=
  head p = Some s /\ last p = Some e /\ floor_path m p.

(** Number of edges of a path given by its cells. *)
Definition edges (p : list Coordinate) : nat := (length p - 1)%nat.

(** [d] is the true shortest-path edge length from [s] to [e]. *)
Definition shortest (m : Maze) (s e : Coordinate) (d : nat) : Prop :=
  (exists p, path_between m s e p /\ edges p = d) /\
  (forall p, path_between m s e p -> (d <= edges p)%nat).

(** [reach m s k c]: some path of [k] edges leads from [s] to [c], every
    cell after [s] being FLOOR in [m]. *)
Inductive reach (m : Maze) (s : Coordinate) : nat -> Coordinate -> Prop :=
  | reach_start : reach m s O s
  | reach_step k u v :
      reach m s k u -> adjacent4 u v -> get_cell_type m v = Some FLOOR ->
      reach m s (S k) v.

(** The chain below a search node walks back to [s] through cells that were
    FLOOR in the maze [m0] the search began with. *)
Fixpoint chain_ok (m0 : Maze) (s : Coordinate) (n : searched_cell) : Prop :=
  match n with
  | Build_searched_cell c None => c = s
  | Build_searched_cell c (Some p) =>
      adjacent4 (coord p) c /\ get_cell_type m0 c = Some FLOOR /\ chain_ok m0 s p
  end.

(** Chronological list of the cells expanded by the first [n] steps. *)
Fixpoint expansions {A} (step : A -> A) (expanding : A -> option Coordinate)
    (n : nat) (a : A) : list Coordinate :=
  match n with
  | O => []
  | S n' =>
      expansions step expanding n' a ++
      match expanding (iterate step n' a) with
      | Some c => [c]
      | None => []
      end
  end.

(** The invariant of a running search: [m0] is the maze it began with, [s]
    the start, [m] the current maze, [queue] the nodes waiting in the
    frontier and [expanded] the cells expanded so far. *)
Record search_inv (m0 : Maze) (s : Coordinate) (m : Maze)
    (queue : list searched_cell) (expanded : list Coordinate) : Prop := {
  inv_well_formed : well_formed m;
  inv_width : width m = width m0;
  inv_height : height m = height m0;
  inv_start : start m = Some s;
  inv_end : end_ m = end_ m0;
  inv_start_in_grid : in_grid m s;
  inv_queue_nodup : NoDup (coord <$> queue);
  inv_expanded_nodup : NoDup expanded;
  inv_expanded : forall c, c ∈ expanded ->
    get_cell_type m c = Some EXPLORED /\
    (c ∉ coord <$> queue) /\
    (c = s \/ get_cell_type m0 c = Some FLOOR) /\
    forall a, a ∈ get_neighboring_coordinates m c ->
      end_ m <> Some a /\ get_cell_type m a <> Some FLOOR;
  inv_queue :
    (queue = [Build_searched_cell s None] /\ expanded = [] /\
     forall c, get_cell_type m c = get_cell_type m0 c)
    \/ (s ∈ expanded /\
        forall n, n ∈ queue ->
          get_cell_type m (coord n) = Some ACTIVE /\
          get_cell_type m0 (coord n) = Some FLOOR);
  inv_untouched : forall c, c ∉ expanded -> (c ∉ coord <$> queue) ->
    get_cell_type m c = get_cell_type m0 c;
  inv_chains : forall n, n ∈ queue -> chain_ok m0 s n
}.

(** How the state of one cell may change in one step that expands the node
    at [u] and leaves [final]: unchanged, FLOOR to ACTIVE, anything to
    EXPLORED for the expanded cell itself, or, when the end was found,
    ACTIVE back to FLOOR for a neighbour of the expanded cell. *)
Definition cell_change (nbrs : list Coordinate) (u : Coordinate)
    (final : option searched_cell) (c : Coordinate)
    (before after : option MazeCell) : Prop :=
  after = before \/
  (before = Some FLOOR /\ after = Some ACTIVE) \/
  (c = u /\ after = Some EXPLORED) \/
  (final <> None /\ before = Some ACTIVE /\ after = Some FLOOR /\ c ∈ nbrs).

(** ** The three strategies behind one interface *)

(** What the subclasses of [MazeSolvingAlgorithm] have in common, seen from
    outside: the shared fields, the nodes waiting in the frontier, [step],
    the cell the next [step] expands, the freshly started strategy, and the
    guards under which [step] does any work. *)
Class Strategy (A : Type) := {
  alg_of : A -> MazeSolvingAlgorithm;
  queue_of : A -> list searched_cell;
  step_of : A -> A;
  expanding_of : A -> option Coordinate;
  started_of : Maze -> A;
  ready : A -> Prop
}.

#[global] Instance BFS_strategy : Strategy BFS.t := {|
  alg_of := BFS.alg;
  queue_of b := BFS.iterator b ++ BFS.next_search_frontier b;
  step_of := BFS.step;
  expanding_of := BFS.expanding;
  started_of := BFS.started;
  ready b := interval_code (BFS.alg b) <> None /\ is_paused (BFS.alg b) = false
|}.

#[global] Instance GBFS_strategy : Strategy GBFS.t := {|
  alg_of := GBFS.alg;
  queue_of g := GBFS.cell <$> GBFS.search_frontier g;
  step_of := GBFS.step;
  expanding_of := GBFS.expanding;
  started_of := GBFS.started;
  ready g := interval_code (GBFS.alg g) <> None /\ is_paused (GBFS.alg g) = false /\
             end_ (the_maze (GBFS.alg g)) <> None /\ GBFS.search_frontier g <> []
|}.

#[global] Instance ASTAR_strategy : Strategy ASTAR.t := {|
  alg_of := ASTAR.alg;
  queue_of g := ASTAR.cell <$> ASTAR.search_frontier g;
  step_of := ASTAR.step;
  expanding_of := ASTAR.expanding;
  started_of := ASTAR.started;
  ready g := interval_code (ASTAR.alg g) <> None /\ is_paused (ASTAR.alg g) = false /\
             end_ (the_maze (ASTAR.alg g)) <> None /\ ASTAR.search_frontier g <> []
|}.

Section Runs.
Context {A : Type} `{Strategy A}.

Definition maze_of (st : A) : Maze := the_maze (alg_of st).
Definition ended (st : A) : bool := search_ended (alg_of st).
Definition found (st : A) : option searched_cell := final_searched_cell (alg_of st).

(** The state after [n] steps of the strategy started on [m0]. *)
Definition state_at (m0 : Maze) (n : nat) : A := iterate step_of n (started_of m0).
(** The cells expanded by those [n] steps, in order. *)
Definition expanded_by (m0 : Maze) (n : nat) : list Coordinate :=
  expansions step_of expanding_of n (started_of m0).

(** A search that has not ended. *)
Definition run_inv (m0 : Maze) (s : Coordinate) (st : A) (expanded : list Coordinate) : Prop :=
  ended st = false /\ found st = None /\ ready st /\
  search_inv m0 s (maze_of st) (queue_of st) expanded.

(** What one step does to a search that has not ended. *)
Definition step_outcome (m0 : Maze) (s : Coordinate) (st : A) (expanded : list Coordinate) : Prop :=
  let st' := step_of st in
  let expanded' :=
    expanded ++ match expanding_of st with Some u => [u] | None => [] end in
  NoDup expanded' /\
  (forall c, c ∈ expanded' -> in_grid m0 c) /\
  match expanding_of st with
  | Some u =>
      ((u = s /\ get_cell_type (maze_of st) u = get_cell_type m0 u) \/
       get_cell_type (maze_of st) u = Some ACTIVE) /\
      get_cell_type (maze_of st') u = Some EXPLORED /\
      forall c, cell_change (get_neighboring_coordinates m0 u) u (found st') c
                  (get_cell_type (maze_of st) c) (get_cell_type (maze_of st') c)
  | None => forall c, get_cell_type (maze_of st') c = get_cell_type (maze_of st) c
  end /\
  ((is_Some (expanding_of st) /\ run_inv m0 s st' expanded')
   \/ (ended st' = true /\ found st' = None /\
       search_inv m0 s (maze_of st') [] expanded')
   \/ (ended st' = true /\
       exists position e,
         expanding_of st = Some (coord position) /\
         found st' = Some (Build_searched_cell e (Some position)) /\
         chain_ok m0 s position /\ end_ m0 = Some e /\
         e ∈ get_neighboring_coordinates m0 (coord position))).
End Runs.

(** The facts about a strategy from which the run theorems follow. *)
Class StrategyLaws (A : Type) `{Strategy A} := {
  started_inv : forall m0 s e,
    well_formed m0 -> start m0 = Some s -> end_ m0 = Some e -> in_grid m0 s ->
    run_inv m0 s (started_of m0) [];
  step_inv : forall m0 s st expanded,
    run_inv m0 s st expanded -> step_outcome m0 s st expanded;
  ended_stays : forall st, ended st = true -> ended (step_of st) = true
}.


(** All the cells of the grid, column by column. *)
Definition grid_cells (m : Maze) : list Coordinate :=
  (fun ij : nat * nat => {| x := Z.of_nat ij.1; y := Z.of_nat ij.2 |}) <$>
  list_prod (seq 0 (Z.to_nat (width m))) (seq 0 (Z.to_nat (height m))).

Section RunStatements.
Context {A : Type} `{Strategy A}.

(** The run on [m0] ends at step [n] and not before. *)
Definition ends_at (m0 : Maze) (n : nat) : Prop :=
  ended (state_at m0 n) = true /\
  forall k, (k < n)%nat -> ended (state_at m0 k) = false.

(** C8 for one strategy: the run ends, and until then no cell is expanded
    twice and at most [width * height] cells are expanded; an expansion
    marks its cell EXPLORED. *)
Definition terminates (m0 : Maze) : Prop :=
  exists n,
    ends_at m0 n /\
    (n <= Z.to_nat (width m0 * height m0) + 1)%nat /\
    NoDup (expanded_by m0 n) /\
    (length (expanded_by m0 n) <= Z.to_nat (width m0 * height m0))%nat /\
    (forall k u, (k < n)%nat -> expanding_of (state_at m0 k) = Some u ->
       get_cell_type (maze_of (state_at m0 (S k))) u = Some EXPLORED).


(** The run ends with a found node whose chain is a path of FLOOR cells
    from [s] to [e]. *)
Definition finds_path (m0 : Maze) (s e : Coordinate) : Prop :=
  exists n node,
    ends_at m0 n /\ found (state_at m0 n) = Some node /\
    path_between m0 s e (reconstruct node) /\
    edges (reconstruct node) = depth node /\
    forall d, shortest m0 s e d -> (d <= edges (reconstruct node))%nat.

(** The run ends with a found node whose chain is a shortest path. *)
Definition finds_shortest_path (m0 : Maze) (s e : Coordinate) : Prop :=
  exists n node,
    ends_at m0 n /\ found (state_at m0 n) = Some node /\
    path_between m0 s e (reconstruct node) /\
    shortest m0 s e (edges (reconstruct node)).
End RunStatements.

(** ** Priorities *)

(** A number that is neither NaN nor negative; every priority is one. *)
Definition nonneg_number (a : number) : Prop :=
  match a with
  | S754_zero _ | S754_infinity false | S754_finite false _ _ => True
  | _ => False
  end.








(** ** Breadth-first levels *)

(** The level structure of a BFS state: the nodes still to be read from the
    iterator are [D - 1] deep, those of the next frontier [D] deep, no node
    is deeper than its cell is far from the start, every cell less than
    [D - 1] away from the start has been expanded, and every cell [D - 1]
    away has been expanded or waits in the iterator. *)
Record bfs_levels (m0 : Maze) (s : Coordinate)
    (iterator next_search_frontier : list searched_cell)
    (expanded : list Coordinate) (D : nat) : Prop := {
  lv_iterator : forall n, n ∈ iterator -> S (depth n) = D;
  lv_next : forall n, n ∈ next_search_frontier -> depth n = D;
  lv_minimal : forall n, n ∈ iterator ++ next_search_frontier ->
    forall k, reach m0 s k (coord n) -> (depth n <= k)%nat;
  lv_done : forall k c, reach m0 s k c -> (S (S k) <= D)%nat -> c ∈ expanded;
  lv_current : forall k c, reach m0 s k c -> (S k <= D)%nat ->
    c ∈ expanded \/ c ∈ coord <$> iterator
}.

(** BFS expands cells in non-decreasing edge-distance from the start: every
    expanded cell has a shortest-path length, and of two expansions the
    earlier one is of a cell that is not farther. *)
Definition breadth_first_order (m0 : Maze) (s : Coordinate) : Prop :=
  (forall i ci,
     ended (state_at (A := BFS.t) m0 i) = false ->
     BFS.expanding (state_at (A := BFS.t) m0 i) = Some ci ->
     exists di, shortest m0 s ci di) /\
  (forall i j ci cj di dj,
     (i <= j)%nat ->
     ended (state_at (A := BFS.t) m0 j) = false ->
     BFS.expanding (state_at (A := BFS.t) m0 i) = Some ci ->
     BFS.expanding (state_at (A := BFS.t) m0 j) = Some cj ->
     shortest m0 s ci di -> shortest m0 s cj dj -> (di <= dj)%nat).

(** ** Concrete grids used below *)

Definition at_ (a b : Z) : Coordinate := {| x := a; y := b |}.

Definition grid (w h : Z) (columns : list (list MazeCell)) (s e : Coordinate) : Maze :=
  {| height := h; width := w; maze := columns; start := Some s; end_ := Some e |}.

(** A grid two cells wide and three cells high, all FLOOR. *)
Definition tall_grid : Maze :=
  grid 2 3 [[FLOOR; FLOOR; FLOOR]; [FLOOR; FLOOR; FLOOR]] (at_ 0 0) (at_ 0 2).


Definition blank_2x2 : Maze :=
  {| height := 2; width := 2; maze := []; start := None; end_ := None |}.

(** The single-cell grid whose only cell has state [c]. *)
Definition single_cell (c : MazeCell) : Maze := grid 1 1 [[c]] (at_ 0 0) (at_ 0 0).

(** 2 x 2, all FLOOR, start and end on the same cell. *)
Definition same_cell_2x2 : Maze :=
  grid 2 2 [[FLOOR; FLOOR]; [FLOOR; FLOOR]] (at_ 0 0) (at_ 0 0).

(** 3 x 3, all FLOOR, the end right above the start in the middle. *)
Definition open_3x3 : Maze :=
  grid 3 3 [[FLOOR; FLOOR; FLOOR]; [FLOOR; FLOOR; FLOOR]; [FLOOR; FLOOR; FLOOR]]
       (at_ 1 1) (at_ 1 0).

(** 3 x 3, all FLOOR, start and end in opposite corners. *)
Definition corners_3x3 : Maze :=
  grid 3 3 [[FLOOR; FLOOR; FLOOR]; [FLOOR; FLOOR; FLOOR]; [FLOOR; FLOOR; FLOOR]]
       (at_ 0 0) (at_ 2 2).

(** A 6 x 6 grid (columns listed left to right, [y] growing downwards):
<<
      . S . . . #
      . # # . # .
      . . . . # E
      # . # # . .
      . . . . . .
      # # # # # #
>> *)
Definition detour_6x6 : Maze :=
  grid 6 6
    [[FLOOR; FLOOR; FLOOR; WALL;  FLOOR; WALL];
     [FLOOR; WALL;  FLOOR; FLOOR; FLOOR; WALL];
     [FLOOR; WALL;  FLOOR; WALL;  FLOOR; WALL];
     [FLOOR; FLOOR; FLOOR; WALL;  FLOOR; WALL];
     [FLOOR; WALL;  WALL;  FLOOR; FLOOR; WALL];
     [WALL;  FLOOR; FLOOR; FLOOR; FLOOR; WALL]]
    (at_ 1 0) (at_ 5 2).

(** A path of 12 edges from the start to the end of [detour_6x6]. *)
Definition detour_short_path : list Coordinate :=
  [at_ 1 0; at_ 0 0; at_ 0 1; at_ 0 2; at_ 1 2; at_ 1 3; at_ 1 4; at_ 2 4;
   at_ 3 4; at_ 4 4; at_ 5 4; at_ 5 3; at_ 5 2].

(** ** Functions around the search *)

(** [Math.abs(coord1.x - coord2.x) + Math.abs(coord1.y - coord2.y)] *)
Definition manhattan_distance (coord1 coord2 : Coordinate) : Z :=
  Z.abs (x coord1 - x coord2) + Z.abs (y coord1 - y coord2).

(** One pass of the inner loop body of [reload] at column [i] and row [j]:
    [if (this.maze[i][j] == ACTIVE || this.maze[i][j] == EXPLORED)
       this.set_cell_type({x: i, y: j}, FLOOR)].
    [None] is the TypeError raised by [this.maze[i][j]] when the matrix has no
    column [i]. *)
Definition reload_cell (m : Maze) (i j : Z) : option Maze :=
  match js_get (maze m) i with
  | None => None
  | Some column =>
      Some (if bool_decide (js_get column j = Some ACTIVE)
               || bool_decide (js_get column j = Some EXPLORED)
            then set_cell_type m {| x := i; y := j |} FLOOR
            else m)
  end.

(** [for (let j = ...; j < this.height; j++)]: the [rows] rows from [j] on. *)
Fixpoint reload_column (rows : nat) (i j : Z) (m : Maze) : option Maze :=
  match rows with
  | O => Some m
  | S rows' =>
      match reload_cell m i j with
      | Some m1 => reload_column rows' i (j + 1) m1
      | None => None
      end
  end.

(** [for (let i = ...; i < this.width; i++)]: the [columns] columns from [i] on. *)
Fixpoint reload_columns (columns : nat) (i : Z) (m : Maze) : option Maze :=
  match columns with
  | O => Some m
  | S columns' =>
      match reload_column (Z.to_nat (height m)) i 0 m with
      | Some m1 => reload_columns columns' (i + 1) m1
      | None => None
      end
  end.

(** [reload()]: every ACTIVE or EXPLORED cell goes back to FLOOR. *)
Definition reload (m : Maze) : option Maze := reload_columns (Z.to_nat (width m)) 0 m.

(** The state of a cell once the marks of a search are wiped. *)
Definition wiped (c : MazeCell) : MazeCell :=
  match c with
  | ACTIVE | EXPLORED => FLOOR
  | FLOOR | WALL => c
  end.

(** What stays true of a search whatever happens to it: up to the marks
    ACTIVE and EXPLORED the cells are those of [m0], and the queued cells are
    cells of the grid that are no WALL in [m0]. *)
Definition same_after_wipe (m0 m : Maze) (queue : list searched_cell) : Prop :=
  well_formed m /\ width m = width m0 /\ height m = height m0 /\
  start m = start m0 /\ end_ m = end_ m0 /\
  (forall c, wiped <$> get_cell_type m c = wiped <$> get_cell_type m0 c) /\
  (forall n, n ∈ queue -> wiped <$> get_cell_type m0 (coord n) = Some FLOOR).

Section RunPictures.
Context {A : Type} `{Strategy A}.

(** What the maze looks like after [n] steps of a search that has not ended:
    each step expanded one cell; the expanded cells and the queued cells are
    all different; expanded cells lie in the grid and are EXPLORED; queued
    cells are ACTIVE (the start cell apart, which is queued first as it is);
    every other cell is as in [m0]. *)
Definition search_picture (m0 : Maze) (s : Coordinate) (n : nat) : Prop :=
  let st := state_at m0 n in
  length (expanded_by m0 n) = n /\
  NoDup (expanded_by m0 n ++ (coord <$> queue_of st)) /\
  (n <> O -> s ∈ expanded_by m0 n) /\
  (forall c, c ∈ expanded_by m0 n ->
     in_grid m0 c /\ get_cell_type (maze_of st) c = Some EXPLORED /\
     (c = s \/ get_cell_type m0 c = Some FLOOR)) /\
  (forall c, c ∈ coord <$> queue_of st ->
     (n = O /\ c = s) \/
     (get_cell_type (maze_of st) c = Some ACTIVE /\ get_cell_type m0 c = Some FLOOR)) /\
  (forall c, c ∉ expanded_by m0 n -> c ∉ coord <$> queue_of st ->
     get_cell_type (maze_of st) c = get_cell_type m0 c).

(** Up to the step at which the run ends, a found node closes a path of
    FLOOR cells from [s] to [e]. *)
Definition found_is_path (m0 : Maze) (s e : Coordinate) : Prop :=
  forall n node,
    (forall k, (k < n)%nat -> ended (state_at m0 k) = false) ->
    found (state_at m0 n) = Some node ->
    ended (state_at m0 n) = true /\
    coord node = e /\
    path_between m0 s e (reconstruct node) /\
    edges (reconstruct node) = depth node /\
    (1 <= depth node)%nat.

(** What [canvas_draw_path] paints for a found node: the cells of the
    reconstructed path strictly between start and end, from the end side,
    all of them FLOOR cells of [m0]. *)
Definition paints_between (m0 : Maze) (s e : Coordinate) : Prop :=
  forall n node,
    (forall k, (k < n)%nat -> ended (state_at m0 k) = false) ->
    found (state_at m0 n) = Some node ->
    reconstruct node = s :: rev (canvas_draw_path node) ++ [e] /\
    S (length (canvas_draw_path node)) = depth node /\
    Forall (fun c => get_cell_type m0 c = Some FLOOR) (canvas_draw_path node).

(** The run ends without a found node. *)
Definition reports_no_path (m0 : Maze) : Prop :=
  exists n, ends_at m0 n /\ (n <= Z.to_nat (width m0 * height m0) + 1)%nat /\
            forall k, (k <= n)%nat -> found (state_at m0 k) = None.
End RunPictures.

(** How the elements of the A* frontier are made: the [length] field counts
    the [prev_cell] links of the element's node; the start element has the
    distance from start to end as priority, and an element inserted below a
    parent has the parent's length, one less than its own, plus the distance
    from the end. *)
Definition ASTAR_element_made (s e : Coordinate)
    (element : ASTAR.priority_queue_length_element) : Prop :=
  ASTAR.length element = Z.of_nat (depth (ASTAR.cell element)) /\
  match prev_cell (ASTAR.cell element) with
  | None =>
      coord (ASTAR.cell element) = s /\
      ASTAR.priority element = euclidean_distance s e
  | Some parent =>
      ASTAR.priority element
      = SFadd prec emax (of_Z (ASTAR.length element - 1))
              (euclidean_distance e (coord (ASTAR.cell element)))
  end.

(** ** Editing the maze with the mouse *)

(** The fields of [click_event] that the handlers read back; the pointer
    positions kept for the preview are left out with the drawing. *)
Record ClickEvent := {
  mouse_down : bool;
  start_coordinate : Coordinate;
  is_dragging_start : bool;
  is_dragging_end : bool
}.

Definition cancel_click (click_event : ClickEvent) : ClickEvent :=
  {| mouse_down := false; start_coordinate := start_coordinate click_event;
     is_dragging_start := false; is_dragging_end := false |}.

(** [canvas.onmousedown]; [alg_defined] is [config.alg !== undefined] and
    [clicked_coordinate] the cell computed from the pointer position. *)
Definition onmousedown (alg_defined : bool) (clicked_coordinate : Coordinate)
    (m : Maze) (click_event : ClickEvent) : ClickEvent :=
  if alg_defined || mouse_down click_event then click_event else
  if coordinate_equals (start m) (Some clicked_coordinate) then
    {| mouse_down := true; start_coordinate := clicked_coordinate;
       is_dragging_start := true; is_dragging_end := is_dragging_end click_event |}
  else if coordinate_equals (end_ m) (Some clicked_coordinate) then
    {| mouse_down := true; start_coordinate := clicked_coordinate;
       is_dragging_start := is_dragging_start click_event; is_dragging_end := true |}
  else
    {| mouse_down := true; start_coordinate := clicked_coordinate;
       is_dragging_start := is_dragging_start click_event;
       is_dragging_end := is_dragging_end click_event |}.

(** [canvas.onmouseup] for a release over the cell [nearest] of the grid.
    [None] stands for a release whose cell read [maze.get_cell_type(nearest)]
    does not give a cell state: outside the grid the source raises a
    TypeError or goes on to write [undefined] into the matrix, which this
    cell matrix cannot hold. *)
Definition onmouseup (nearest : Coordinate) (m : Maze) (click_event : ClickEvent)
    : option (Maze * ClickEvent) :=
  if is_dragging_start click_event then
    match start m with
    | None => Some (m, click_event)
    | Some maze_start =>
        match get_cell_type m nearest with
        | None => None
        | Some displaced_type =>
            let m1 := set_cell_type m nearest FLOOR in
            let m2 := set_cell_type m1 maze_start displaced_type in
            Some ({| height := height m2; width := width m2; maze := maze m2;
                     start := Some nearest; end_ := end_ m2 |},
                  cancel_click click_event)
        end
    end
  else if is_dragging_end click_event then
    match end_ m with
    | None => Some (m, click_event)
    | Some maze_end =>
        match get_cell_type m nearest with
        | None => None
        | Some displaced_type =>
            let m1 := set_cell_type m nearest FLOOR in
            let m2 := set_cell_type m1 maze_end displaced_type in
            Some ({| height := height m2; width := width m2; maze := maze m2;
                     start := start m2; end_ := Some nearest |},
                  cancel_click click_event)
        end
    end
  else if coordinate_equals (Some (start_coordinate click_event)) (Some nearest) then
    match get_cell_type m nearest with
    | None => None
    | Some cell_type =>
        Some (set_cell_type m nearest
                (if bool_decide (cell_type = FLOOR) then WALL else FLOOR),
              cancel_click click_event)
    end
  else Some (m, cancel_click click_event).

(** No button is held and nothing is dragged. *)
Definition idle (click_event : ClickEvent) : Prop :=
  mouse_down click_event = false /\ is_dragging_start click_event = false /\
  is_dragging_end click_event = false.

(** The end cell is left alone: it is FLOOR and no queued node lies on it. *)
Definition end_untouched (e : Coordinate) (m : Maze) (queue : list searched_cell) : Prop :=
  end_ m = Some e /\ get_cell_type m e = Some FLOOR /\
  forall n, n ∈ queue -> coord n <> e.

(** What no step changes, seen at the cell [c]: the shape of the matrix,
    the dimensions, start and end, whether [c] is a WALL and whether [c]
    is a cell at all. *)
Definition walls_as_in (m0 : Maze) (c : Coordinate) (m : Maze) : Prop :=
  well_formed m /\ width m = width m0 /\ height m = height m0 /\
  start m = start m0 /\ end_ m = end_ m0 /\
  (get_cell_type m c = Some WALL <-> get_cell_type m0 c = Some WALL) /\
  (get_cell_type m c = None <-> get_cell_type m0 c = None).

Section Exhaustion.
Context {A : Type} `{Strategy A}.

(** A run that ends without a found node has flooded the part of the maze
    that can be reached from the start: the cells it expanded are the start
    and the cells to which a path of FLOOR cells leads, they are EXPLORED at
    the end, and all other cells are as in [m0]. *)
Definition floods_reachable (m0 : Maze) (s : Coordinate) : Prop :=
  forall n,
    ends_at m0 n -> found (state_at m0 n) = None ->
    forall c,
      (c ∈ expanded_by m0 n <-> exists p, path_between m0 s c p) /\
      (c ∈ expanded_by m0 n -> get_cell_type (maze_of (state_at m0 n)) c = Some EXPLORED) /\
      (c ∉ expanded_by m0 n ->
       get_cell_type (maze_of (state_at m0 n)) c = get_cell_type m0 c).
End Exhaustion.

(** The chains of the queued nodes do not cross themselves, and below the
    node itself they lead through expanded cells only. *)
Definition chains_simple (queue : list searched_cell) (expanded : list Coordinate) : Prop :=
  forall n, n ∈ queue ->
    NoDup (trail n) /\ forall c, c ∈ tail (trail n) -> c ∈ expanded.

Section SimplePaths.
Context {A : Type} `{Strategy A}.

(** What a step does to the queue: nothing is expanded, no node is added
    and the found node stays; or a queued node [position] is expanded, the
    nodes added are children of [position] on cells that were FLOOR, and a
    node found is a child of [position]. *)
Definition step_children (st : A) : Prop :=
  (expanding_of st = None /\
   (forall n, n ∈ queue_of (step_of st) -> n ∈ queue_of st) /\
   found (step_of st) = found st)
  \/ exists position,
       position ∈ queue_of st /\ expanding_of st = Some (coord position) /\
       (forall n, n ∈ queue_of (step_of st) ->
          n ∈ queue_of st \/
          exists a, n = Build_searched_cell a (Some position) /\
                    a <> coord position /\
                    get_cell_type (maze_of st) a = Some FLOOR) /\
       (found (step_of st) = found st \/
        exists a, found (step_of st) = Some (Build_searched_cell a (Some position))).

(** Up to the step at which the run ends, the path of a found node visits
    no cell twice. *)
Definition found_is_simple (m0 : Maze) : Prop :=
  forall n node,
    (forall k, (k < n)%nat -> ended (state_at m0 k) = false) ->
    found (state_at m0 n) = Some node ->
    NoDup (reconstruct node).
End SimplePaths.

(** ** More concrete inputs *)

(** [click_event] as the page starts with it. *)
Definition click_event_initial : ClickEvent :=
  {| mouse_down := false; start_coordinate := {| x := 0; y := 0 |};
     is_dragging_start := false; is_dragging_end := false |}.

(** A grid three cells wide and two cells high, all FLOOR. *)
Definition wide_grid : Maze :=
  grid 3 2 [[FLOOR; FLOOR]; [FLOOR; FLOOR]; [FLOOR; FLOOR]] (at_ 0 0) (at_ 2 1).

(** 2 x 2 with one cell of each state, as a search may leave it. *)
Definition marked_2x2 : Maze :=
  grid 2 2 [[EXPLORED; ACTIVE]; [WALL; FLOOR]] (at_ 0 0) (at_ 1 1).

(** Three cells in a row, the middle one a WALL between start and end. *)
Definition walled_3x1 : Maze :=
  grid 3 1 [[FLOOR]; [WALL]; [FLOOR]] (at_ 0 0) (at_ 2 0).

(** * Properties *)

(** ** Array access *)

Lemma js_get_Some {A} (a : list A) i v :
  js_get a i = Some v -> 0 <= i < Z.of_nat (length a).
Proof.
  unfold js_get. destruct (Z.ltb_spec i 0); [done|].
  intros H1%lookup_lt_Some. lia.
Qed.

Lemma js_get_in_range {A} (a : list A) i :
  0 <= i < Z.of_nat (length a) -> exists v, js_get a i = Some v.
Proof.
  intros Hi. unfold js_get. destruct (Z.ltb_spec i 0); [lia|].
  apply lookup_lt_is_Some_2. lia.
Qed.

Lemma js_get_set_eq {A} (a : list A) i v w :
  js_get a i = Some w -> js_get (js_set a i v) i = Some v.
Proof.
  intros Hg. pose proof (js_get_Some _ _ _ Hg) as Hi.
  unfold js_get, js_set. destruct (Z.ltb_spec i 0); [lia|].
  apply list_lookup_insert_eq. lia.
Qed.

Lemma js_get_set_ne {A} (a : list A) i j v :
  i <> j -> js_get (js_set a i v) j = js_get a j.
Proof.
  intros Hne. unfold js_get, js_set.
  destruct (Z.ltb_spec j 0); [done|]. destruct (Z.ltb_spec i 0); [done|].
  apply list_lookup_insert_ne. lia.
Qed.

Lemma js_set_length {A} (a : list A) i v : length (js_set a i v) = length a.
Proof. unfold js_set. destruct (i <? 0); [done|]. apply length_insert. Qed.

(** ** Cells of the maze *)

Lemma set_cell_type_width m c v : width (set_cell_type m c v) = width m.
Proof. unfold set_cell_type. by destruct (js_get _ _). Qed.

Lemma set_cell_type_height m c v : height (set_cell_type m c v) = height m.
Proof. unfold set_cell_type. by destruct (js_get _ _). Qed.

Lemma set_cell_type_start m c v : start (set_cell_type m c v) = start m.
Proof. unfold set_cell_type. by destruct (js_get _ _). Qed.

Lemma set_cell_type_end m c v : end_ (set_cell_type m c v) = end_ m.
Proof. unfold set_cell_type. by destruct (js_get _ _). Qed.

Lemma set_cell_type_well_formed m c v :
  well_formed m -> well_formed (set_cell_type m c v).
Proof.
  intros [Hw Hh]. unfold set_cell_type.
  destruct (js_get (maze m) (x c)) as [column|] eqn:Hc; [|done].
  split; simpl.
  - by rewrite js_set_length.
  - unfold js_set at 1. destruct (x c <? 0); [done|].
    apply Forall_insert; [done|]. rewrite js_set_length.
    unfold js_get in Hc. destruct (x c <? 0); [done|].
    by apply (Forall_lookup_1 _ _ _ _ Hh Hc).
Qed.

Lemma get_cell_type_in_grid m c v :
  well_formed m -> get_cell_type m c = Some v -> in_grid m c.
Proof.
  intros [Hw Hh]. unfold get_cell_type.
  destruct (js_get (maze m) (x c)) as [column|] eqn:Hc; [|done].
  intros Hy. apply js_get_Some in Hy. pose proof (js_get_Some _ _ _ Hc) as Hx.
  unfold js_get in Hc. destruct (x c <? 0); [done|].
  pose proof (Forall_lookup_1 _ _ _ _ Hh Hc) as Hl. simpl in Hl.
  unfold in_grid. lia.
Qed.

Lemma in_grid_get_cell_type m c :
  well_formed m -> in_grid m c -> exists v, get_cell_type m c = Some v.
Proof.
  intros [Hw Hh] [Hx Hy]. unfold get_cell_type.
  destruct (js_get_in_range (maze m) (x c)) as [column Hc]; [lia|].
  rewrite Hc. apply js_get_in_range.
  unfold js_get in Hc. destruct (x c <? 0); [done|].
  pose proof (Forall_lookup_1 _ _ _ _ Hh Hc) as Hl. simpl in Hl. lia.
Qed.

Lemma get_set_cell_type_eq m c v w :
  get_cell_type m c = Some w -> get_cell_type (set_cell_type m c v) c = Some v.
Proof.
  unfold get_cell_type, set_cell_type.
  destruct (js_get (maze m) (x c)) as [column|] eqn:Hc; [|done].
  intros Hy. simpl. rewrite (js_get_set_eq _ _ _ _ Hc).
  by apply js_get_set_eq with w.
Qed.

Lemma get_set_cell_type_ne m c c' v :
  c <> c' -> get_cell_type (set_cell_type m c v) c' = get_cell_type m c'.
Proof.
  intros Hne. unfold get_cell_type, set_cell_type.
  destruct (js_get (maze m) (x c)) as [column|] eqn:Hc; [|done]. simpl.
  destruct (decide (x c = x c')) as [Hx|Hx].
  - rewrite <- Hx, (js_get_set_eq _ _ _ _ Hc), Hc.
    apply js_get_set_ne. intros Hy. apply Hne.
    destruct c, c'; simpl in *; congruence.
  - by rewrite js_get_set_ne.
Qed.

(** A write never turns a readable cell into an unreadable one, nor back. *)
Lemma get_set_cell_type_None m c c' v :
  get_cell_type (set_cell_type m c v) c' = None <-> get_cell_type m c' = None.
Proof.
  destruct (decide (c = c')) as [<-|Hne].
  - destruct (get_cell_type m c) as [w|] eqn:Hg.
    + by rewrite (get_set_cell_type_eq _ _ _ _ Hg).
    + split; [done|]. intros _.
      unfold get_cell_type, set_cell_type in *.
      destruct (js_get (maze m) (x c)) as [column|] eqn:Hc; [|by rewrite Hc].
      simpl. rewrite (js_get_set_eq _ _ _ _ Hc).
      unfold js_get, js_set in *. destruct (y c <? 0); [done|].
      rewrite list_insert_ge; [done|]. by apply lookup_ge_None.
  - by rewrite get_set_cell_type_ne.
Qed.

(** ** Neighbour enumeration *)

Lemma neighbor_adjacent m c a :
  a ∈ get_neighboring_coordinates m c -> adjacent4 c a.
Proof.
  unfold get_neighboring_coordinates, adjacent4. intros Ha.
  repeat (apply elem_of_app in Ha as [Ha|Ha]);
    match type of Ha with context [if ?b then _ else _] => destruct b end;
    try (by apply elem_of_nil in Ha);
    apply list_elem_of_singleton in Ha; subst a; simpl; lia.
Qed.

(** The column index of a neighbour is always inside the grid. *)
Lemma neighbor_x_in_range m c a :
  0 <= x c < width m -> a ∈ get_neighboring_coordinates m c -> 0 <= x a < width m.
Proof.
  unfold get_neighboring_coordinates. intros Hc Ha.
  repeat (apply elem_of_app in Ha as [Ha|Ha]);
    match type of Ha with context [if ?b then _ else _] => destruct b eqn:Hb end;
    try (by apply elem_of_nil in Ha);
    apply list_elem_of_singleton in Ha; subst a; simpl; lia.
Qed.

(** When the grid is at least as wide as it is high, every in-grid
    4-neighbour is enumerated. *)
Lemma adjacent_in_grid_neighbor m c a :
  height m <= width m -> adjacent4 c a -> in_grid m a ->
  a ∈ get_neighboring_coordinates m c.
Proof.
  intros Hhw Hadj [Hx Hy]. unfold get_neighboring_coordinates, adjacent4 in *.
  destruct a as [ax ay], c as [cx cy]; simpl in *.
  destruct Hadj as [[-> ->]|[[-> ->]|[[-> ->]|[-> ->]]]].
  - destruct (Z.leb_spec (cx + 1) (width m - 1)); [|lia].
    apply elem_of_app; left. apply list_elem_of_singleton. done.
  - destruct (Z.leb_spec (cy + 1) (width m - 1)); [|lia].
    apply elem_of_app; right. apply elem_of_app; left.
    apply list_elem_of_singleton. done.
  - destruct (Z.geb_spec (cx - 1) 0); [|lia].
    do 2 (apply elem_of_app; right). apply elem_of_app; left.
    apply list_elem_of_singleton. done.
  - destruct (Z.geb_spec (cy - 1) 0); [|lia].
    do 3 (apply elem_of_app; right). apply list_elem_of_singleton. done.
Qed.

(** On square grids the source agrees with the specified enumeration. *)
Lemma get_neighboring_coordinates_square m c :
  width m = height m -> get_neighboring_coordinates m c = neighbors_of_spec m c.
Proof.
  intros Hwh. unfold get_neighboring_coordinates, neighbors_of_spec. rewrite <- Hwh.
  repeat f_equal.
  - destruct (Z.leb_spec (x c + 1) (width m - 1)), (Z.ltb_spec (x c + 1) (width m)); (done || lia).
  - destruct (Z.leb_spec (y c + 1) (width m - 1)), (Z.ltb_spec (y c + 1) (width m)); (done || lia).
  - destruct (Z.geb_spec (x c - 1) 0), (Z.leb_spec 0 (x c - 1)); (done || lia).
  - destruct (Z.geb_spec (y c - 1) 0), (Z.leb_spec 0 (y c - 1)); (done || lia).
Qed.

(** C2 (code defect).  On the 2 x 3 grid the cell (0,1) has the in-grid
    neighbour (0,2), since 1 + 1 < height = 3, but the source compares
    [y + 1] with the width and leaves it out. *)
Theorem get_neighboring_coordinates_uses_width_for_y :
  well_formed tall_grid /\
  in_grid tall_grid {| x := 0; y := 1 |} /\
  in_grid tall_grid {| x := 0; y := 2 |} /\
  get_neighboring_coordinates tall_grid {| x := 0; y := 1 |}
    = [{| x := 1; y := 1 |}; {| x := 0; y := 0 |}] /\
  neighbors_of_spec tall_grid {| x := 0; y := 1 |}
    = [{| x := 1; y := 1 |}; {| x := 0; y := 2 |}; {| x := 0; y := 0 |}].
Proof.
  split; [|split; [|split; [|split]]]; try reflexivity.
  - split; [reflexivity|]. repeat constructor.
  - unfold in_grid; simpl; lia.
  - unfold in_grid; simpl; lia.
Qed.

(** ** Generation *)







(** ** Runs on concrete grids *)

Lemma iterate_S {A} (f : A -> A) n a : iterate f (S n) a = f (iterate f n a).
Proof. reflexivity. Qed.

Lemma iterate_fixed {A} (f : A -> A) n a : f a = a -> iterate f n a = a.
Proof. intros Hf. induction n as [|n IH]; [done|]. by rewrite iterate_S, IH. Qed.

Lemma iterate_add {A} (f : A -> A) n k a :
  iterate f (n + k) a = iterate f n (iterate f k a).
Proof.
  induction n as [|n IH]; [done|].
  change (S n + k)%nat with (S (n + k)). by rewrite !iterate_S, IH.
Qed.

(** C3, as stated, fails: on the single-cell grid the first step of each
    strategy finds no node (and BFS has not even ended). *)
Lemma single_cell_first_step_finds_nothing :
  final_searched_cell (BFS.alg (BFS.step (BFS.started (single_cell FLOOR)))) = None /\
  search_ended (BFS.alg (BFS.step (BFS.started (single_cell FLOOR)))) = false /\
  final_searched_cell (GBFS.alg (GBFS.step (GBFS.started (single_cell FLOOR)))) = None /\
  final_searched_cell (ASTAR.alg (ASTAR.step (ASTAR.started (single_cell FLOOR)))) = None.
Proof. vm_compute. done. Qed.

(** C3 (amended).  On the single-cell grid with start = end = (0,0), whatever
    the state of the cell, no strategy ever records a found node: the first
    step of GBFS and of A* marks the cell EXPLORED and ends the run
    exhausted; the first step of BFS marks the cell EXPLORED without ending,
    and its second step ends the run exhausted.  Later steps change nothing. *)
Theorem single_cell_run_is_exhausted (c : MazeCell) (n : nat) :
  (let g := iterate GBFS.step (S n) (GBFS.started (single_cell c)) in
   search_ended (GBFS.alg g) = true /\ final_searched_cell (GBFS.alg g) = None /\
   maze (the_maze (GBFS.alg g)) = [[EXPLORED]]) /\
  (let a := iterate ASTAR.step (S n) (ASTAR.started (single_cell c)) in
   search_ended (ASTAR.alg a) = true /\ final_searched_cell (ASTAR.alg a) = None /\
   maze (the_maze (ASTAR.alg a)) = [[EXPLORED]]) /\
  (let b1 := BFS.step (BFS.started (single_cell c)) in
   search_ended (BFS.alg b1) = false /\ final_searched_cell (BFS.alg b1) = None /\
   maze (the_maze (BFS.alg b1)) = [[EXPLORED]]) /\
  (let b := iterate BFS.step (S (S n)) (BFS.started (single_cell c)) in
   search_ended (BFS.alg b) = true /\ final_searched_cell (BFS.alg b) = None /\
   maze (the_maze (BFS.alg b)) = [[EXPLORED]]).
Proof.
  split; [|split; [|split]].
  - replace (S n) with (n + 1)%nat by lia. rewrite iterate_add.
    rewrite iterate_fixed; destruct c; vm_compute; done.
  - replace (S n) with (n + 1)%nat by lia. rewrite iterate_add.
    rewrite iterate_fixed; destruct c; vm_compute; done.
  - destruct c; vm_compute; done.
  - replace (S (S n)) with (n + 2)%nat by lia. rewrite iterate_add.
    rewrite iterate_fixed; destruct c; vm_compute; done.
Qed.

(** After it has ended, a BFS step no longer touches the maze. *)
Lemma BFS_step_after_end b :
  search_ended (BFS.alg b) = true ->
  the_maze (BFS.alg (BFS.step b)) = the_maze (BFS.alg b) /\
  search_ended (BFS.alg (BFS.step b)) = true /\
  final_searched_cell (BFS.alg (BFS.step b)) = final_searched_cell (BFS.alg b).
Proof.
  intros He. unfold BFS.step.
  destruct (bool_decide _); [done|]. destruct (is_paused _); [done|].
  destruct (BFS.iterator b) as [|value rest].
  - destruct (Nat.eqb _ _); simpl; rewrite ?He; simpl; done.
  - rewrite He. simpl. done.
Qed.

(** C4 (code defect).  GBFS and A* have no guard on [search_ended]: on the
    open 3 x 3 grid the first step finds the end and ends the run with three
    elements still queued; one more call of [step] takes the first of them,
    (2,1), and turns its cell from FLOOR into EXPLORED. *)
Theorem step_after_end_still_expands :
  (let g1 := GBFS.step (GBFS.started open_3x3) in
   search_ended (GBFS.alg g1) = true /\
   get_cell_type (the_maze (GBFS.alg g1)) (at_ 2 1) = Some FLOOR /\
   GBFS.expanding g1 = Some (at_ 2 1) /\
   get_cell_type (the_maze (GBFS.alg (GBFS.step g1))) (at_ 2 1) = Some EXPLORED) /\
  (let a1 := ASTAR.step (ASTAR.started open_3x3) in
   search_ended (ASTAR.alg a1) = true /\
   get_cell_type (the_maze (ASTAR.alg a1)) (at_ 2 1) = Some FLOOR /\
   ASTAR.expanding a1 = Some (at_ 2 1) /\
   get_cell_type (the_maze (ASTAR.alg (ASTAR.step a1))) (at_ 2 1) = Some EXPLORED).
Proof. vm_compute. done. Qed.

(** What [enqueue] inserts in A*: the priority is the length of the
    expanded element (the parent) plus the distance, the [length] field is
    that length plus one. *)
Lemma ASTAR_enqueue_element m maze_end frontier_element frontier a position :
  end_ m = Some maze_end ->
  exists i,
    ASTAR.enqueue m frontier_element frontier a position
    = take i frontier ++
      {| ASTAR.priority :=
           SFadd prec emax (of_Z (ASTAR.length frontier_element))
                 (euclidean_distance maze_end a);
         ASTAR.cell := Build_searched_cell a (Some position);
         ASTAR.length := ASTAR.length frontier_element + 1 |} :: drop i frontier.
Proof.
  intros He. unfold ASTAR.enqueue, ASTAR.astar_dist, splice. rewrite He. eauto.
Qed.

(** C5 (code defect).  First A* step on the open 3 x 3 grid with the start in
    a corner: the start element has length 0; the elements inserted for its
    neighbours (1,0) and (0,1) carry length 1 but priority 0 + distance, which
    differs from the claimed 1 + distance. *)
Theorem ASTAR_priority_uses_parent_length :
  let inserted c :=
    {| ASTAR.priority := SFadd prec emax (of_Z 0) (euclidean_distance (at_ 2 2) c);
       ASTAR.cell := Build_searched_cell c (Some (Build_searched_cell (at_ 0 0) None));
       ASTAR.length := 1 |} in
  ASTAR.search_frontier (ASTAR.step (ASTAR.started corners_3x3))
    = [inserted (at_ 1 0); inserted (at_ 0 1)] /\
  SFadd prec emax (of_Z 0) (euclidean_distance (at_ 2 2) (at_ 1 0))
    <> SFadd prec emax (of_Z 1) (euclidean_distance (at_ 2 2) (at_ 1 0)).
Proof. vm_compute. split; [done|]. congruence. Qed.

(** ** The neighbour loops *)

Lemma coordinate_equals_true c1 c2 : coordinate_equals c1 c2 = true <-> c1 = c2.
Proof.
  unfold coordinate_equals. rewrite andb_true_iff, !bool_decide_eq_true.
  destruct c1 as [[x1 y1]|], c2 as [[x2 y2]|]; simpl; split;
    try (intros [? ?]; congruence); try (intros ?; split; congruence); done.
Qed.

Lemma coordinate_equals_false c1 c2 : coordinate_equals c1 c2 = false <-> c1 <> c2.
Proof.
  rewrite <- coordinate_equals_true. destruct (coordinate_equals c1 c2); split; congruence.
Qed.

Lemma get_neighboring_coordinates_width m m' a :
  width m = width m' -> get_neighboring_coordinates m a = get_neighboring_coordinates m' a.
Proof. intros Hw. unfold get_neighboring_coordinates. by rewrite Hw. Qed.

Lemma get_neighboring_coordinates_set m c v a :
  get_neighboring_coordinates (set_cell_type m c v) a = get_neighboring_coordinates m a.
Proof. unfold get_neighboring_coordinates. by rewrite set_cell_type_width. Qed.

Section Loops.
Context {F : Type}.
Variable enqueue : F -> Coordinate -> searched_cell -> F.
(** The search nodes held in a frontier. *)
Variable nodes : F -> list searched_cell.
Hypothesis nodes_enqueue : forall frontier a position,
  nodes (enqueue frontier a position) ≡ₚ Build_searched_cell a (Some position) :: nodes frontier.

(** What the first loop does, in terms of the list [news] of cells it
    marks ACTIVE and enqueues. *)
Lemma visit_spec adjacent : forall m frontier final position m' frontier' final',
  visit enqueue m frontier final position adjacent = (m', frontier', final') ->
  exists news : list Coordinate,
    nodes frontier' ≡ₚ
      ((fun a => Build_searched_cell a (Some position)) <$> news) ++ nodes frontier /\
    NoDup news /\
    (forall a, a ∈ news ->
       a ∈ adjacent /\ get_cell_type m a = Some FLOOR /\ end_ m <> Some a) /\
    (forall c, get_cell_type m' c
               = if decide (c ∈ news) then Some ACTIVE else get_cell_type m c) /\
    width m' = width m /\ height m' = height m /\
    start m' = start m /\ end_ m' = end_ m /\
    (well_formed m -> well_formed m') /\
    ((final' = final /\
      forall a, a ∈ adjacent -> end_ m <> Some a /\ get_cell_type m' a <> Some FLOOR)
     \/ (exists a, a ∈ adjacent /\ end_ m = Some a /\
           final' = Some (Build_searched_cell a (Some position)))).
Proof.
  induction adjacent as [|a rest IH]; intros m frontier final position m' frontier' final' Hv.
  - simpl in Hv. injection Hv as <- <- <-. exists [].
    split; [done|]. split; [constructor|]. split; [by intros a Ha%elem_of_nil|].
    split; [done|]. do 5 (split; [done|]).
    left. split; [done|]. by intros a Ha%elem_of_nil.
  - simpl in Hv.
    destruct (coordinate_equals (end_ m) (Some a)) eqn:Hend.
    { injection Hv as <- <- <-. exists [].
      split; [done|]. split; [constructor|]. split; [by intros b Hb%elem_of_nil|].
      split; [done|]. do 5 (split; [done|]).
      right. exists a. split; [by left|]. split; [|done].
      by apply coordinate_equals_true. }
    apply coordinate_equals_false in Hend.
    destruct (bool_decide (get_cell_type m a = Some FLOOR)) eqn:Hfloor.
    + apply bool_decide_eq_true in Hfloor.
      destruct (IH _ _ _ _ _ _ _ Hv)
        as (news & Hperm & Hnd & Hnews & Hcells & Hw & Hh & Hs & He & Hwf & Hfin).
      rewrite set_cell_type_end in Hnews, Hfin.
      assert (Ha : a ∉ news).
      { intros Ha. destruct (Hnews a Ha) as (_ & Hg & _).
        by rewrite (get_set_cell_type_eq _ _ _ _ Hfloor) in Hg. }
      exists (a :: news).
      split. { rewrite Hperm, nodes_enqueue. simpl. by rewrite Permutation_middle. }
      split. { by constructor. }
      split.
      { intros b [->|Hb]%elem_of_cons; [by split; [left|]|].
        destruct (Hnews b Hb) as (Hin & Hg & Hne).
        split; [by right|]. split; [|done].
        rewrite get_set_cell_type_ne in Hg; [done|]. intros ->. done. }
      split.
      { intros c. rewrite Hcells.
        destruct (decide (c = a)) as [->|Hca].
        - rewrite decide_False by done. rewrite decide_True by by left.
          by apply get_set_cell_type_eq with FLOOR.
        - rewrite get_set_cell_type_ne by done.
          destruct (decide (c ∈ news)).
          + rewrite decide_True; [done|by right].
          + rewrite decide_False; [done|]. by intros [?|?]%elem_of_cons. }
      rewrite set_cell_type_width in Hw. rewrite set_cell_type_height in Hh.
      rewrite set_cell_type_start in Hs. rewrite set_cell_type_end in He.
      do 4 (split; [done|]).
      split. { intros H0. by apply Hwf, set_cell_type_well_formed. }
      destruct Hfin as [[-> Hall]|(b & Hb & Hbe & ->)].
      * left. split; [done|]. intros b [->|Hb]%elem_of_cons; [|by apply Hall].
        split; [done|]. rewrite Hcells, decide_False by done.
        by rewrite (get_set_cell_type_eq _ _ _ _ Hfloor).
      * right. exists b. split; [by right|]. done.
    + apply bool_decide_eq_false in Hfloor.
      destruct (IH _ _ _ _ _ _ _ Hv)
        as (news & Hperm & Hnd & Hnews & Hcells & Hw & Hh & Hs & He & Hwf & Hfin).
      exists news. split; [done|]. split; [done|].
      split. { intros b Hb. destruct (Hnews b Hb) as (? & ? & ?). split; [by right|done]. }
      split; [done|]. do 5 (split; [done|]).
      destruct Hfin as [[-> Hall]|(b & Hb & Hbe & ->)].
      * left. split; [done|]. intros b [->|Hb]%elem_of_cons; [|by apply Hall].
        split; [done|]. rewrite Hcells.
        destruct (decide (a ∈ news)); [done|done].
      * right. exists b. split; [by right|]. done.
Qed.
End Loops.

(** What the second loop does. *)
Lemma revert_active_spec adjacent : forall m c,
  get_cell_type (revert_active m adjacent) c
  = if decide (c ∈ adjacent /\ get_cell_type m c = Some ACTIVE)
    then Some FLOOR else get_cell_type m c.
Proof.
  unfold revert_active.
  induction adjacent as [|a rest IH]; intros m c; cbn [fold_left].
  - rewrite decide_False; [done|]. by intros [?%elem_of_nil _].
  - rewrite IH. clear IH.
    destruct (bool_decide (get_cell_type m a = Some ACTIVE)) eqn:Ha.
    + apply bool_decide_eq_true in Ha.
      destruct (decide (c = a)) as [->|Hca].
      * rewrite (get_set_cell_type_eq _ _ _ _ Ha).
        rewrite decide_False by (by intros [_ ?]).
        rewrite decide_True; [done|]. split; [by left|done].
      * rewrite get_set_cell_type_ne by done.
        destruct (decide (c ∈ rest /\ get_cell_type m c = Some ACTIVE)) as [[? ?]|Hn].
        -- rewrite decide_True; [done|]. split; [by right|done].
        -- rewrite decide_False; [done|].
           intros [[?|?]%elem_of_cons ?]; [done|]. by apply Hn.
    + apply bool_decide_eq_false in Ha.
      destruct (decide (c ∈ rest /\ get_cell_type m c = Some ACTIVE)) as [[? ?]|Hn].
      * rewrite decide_True; [done|]. split; [by right|done].
      * rewrite decide_False; [done|].
        intros [[->|?]%elem_of_cons ?]; [done|]. by apply Hn.
Qed.

Lemma revert_active_fields adjacent : forall m,
  width (revert_active m adjacent) = width m /\
  height (revert_active m adjacent) = height m /\
  start (revert_active m adjacent) = start m /\
  end_ (revert_active m adjacent) = end_ m /\
  (well_formed m -> well_formed (revert_active m adjacent)).
Proof.
  unfold revert_active.
  induction adjacent as [|a rest IH]; intros m; cbn [fold_left]; [done|].
  destruct (bool_decide _); [|apply IH].
  destruct (IH (set_cell_type m a FLOOR)) as (Hw & Hh & Hs & He & Hwf).
  rewrite set_cell_type_width in Hw. rewrite set_cell_type_height in Hh.
  rewrite set_cell_type_start in Hs. rewrite set_cell_type_end in He.
  do 4 (split; [done|]). intros H0. by apply Hwf, set_cell_type_well_formed.
Qed.

(** ** One expansion *)

Section Expand.
Context {F : Type}.
Variable enqueue : F -> Coordinate -> searched_cell -> F.
Variable nodes : F -> list searched_cell.
Hypothesis nodes_enqueue : forall frontier a position,
  nodes (enqueue frontier a position) ≡ₚ Build_searched_cell a (Some position) :: nodes frontier.

Lemma expand_fields m frontier final position m' frontier' final' :
  expand enqueue m frontier final position = (m', frontier', final') ->
  width m' = width m /\ height m' = height m /\
  start m' = start m /\ end_ m' = end_ m /\
  (well_formed m -> well_formed m').
Proof.
  unfold expand.
  destruct (visit _ _ _ _ _ _) as [[m2 frontier2] final2] eqn:Hv.
  intros [= <- <- <-].
  destruct (visit_spec enqueue nodes nodes_enqueue _ _ _ _ _ _ _ _ Hv)
    as (news & _ & _ & _ & _ & Hw & Hh & Hs & He & Hwf & _).
  rewrite set_cell_type_width in Hw. rewrite set_cell_type_height in Hh.
  rewrite set_cell_type_start in Hs. rewrite set_cell_type_end in He.
  assert (Hwf' : well_formed m -> well_formed m2).
  { intros H0. by apply Hwf, set_cell_type_well_formed. }
  destruct final2; [|done].
  destruct (revert_active_fields (get_neighboring_coordinates m2 (coord position)) m2)
    as (Hw2 & Hh2 & Hs2 & He2 & Hwf2).
  rewrite Hw2, Hh2, Hs2, He2. do 4 (split; [done|]). auto.
Qed.

(** Every cell changes as [cell_change] allows. *)
Lemma expand_cells m frontier final position m' frontier' final' c :
  expand enqueue m frontier final position = (m', frontier', final') ->
  cell_change (get_neighboring_coordinates m (coord position)) (coord position) final' c
              (get_cell_type m c) (get_cell_type m' c).
Proof.
  unfold expand.
  destruct (visit _ _ _ _ _ _) as [[m2 frontier2] final2] eqn:Hv.
  intros [= <- <- <-].
  destruct (visit_spec enqueue nodes nodes_enqueue _ _ _ _ _ _ _ _ Hv)
    as (news & _ & _ & Hnews & Hcells & Hw & _).
  set (u := coord position) in *.
  set (m1 := set_cell_type m u EXPLORED) in *.
  assert (Hm1 : forall b, b <> u -> get_cell_type m1 b = get_cell_type m b).
  { intros b Hb. unfold m1. by rewrite get_set_cell_type_ne. }
  assert (Hu : get_cell_type m1 u = get_cell_type m u \/ get_cell_type m1 u = Some EXPLORED).
  { destruct (get_cell_type m u) as [w|] eqn:Hg.
    - right. by apply get_set_cell_type_eq with w.
    - left. by apply get_set_cell_type_None. }
  assert (Hnu : u ∉ news).
  { intros Hin. destruct (Hnews u Hin) as (_ & Hg & _).
    destruct Hu as [Hu|Hu]; rewrite Hu in Hg; [|done].
    unfold m1 in Hu. destruct (get_cell_type m u) as [w|] eqn:Hgu; [|done].
    rewrite (get_set_cell_type_eq _ _ _ _ Hgu) in Hu. congruence. }
  assert (H2 : cell_change (get_neighboring_coordinates m u) u None c
                 (get_cell_type m c) (get_cell_type m2 c) /\
               (c ∈ news -> get_cell_type m c = Some FLOOR)).
  { unfold cell_change. rewrite Hcells. destruct (decide (c ∈ news)) as [Hin|Hin].
    - destruct (Hnews c Hin) as (_ & Hg & _).
      assert (c <> u) by (intros ->; done).
      rewrite Hm1 in Hg by done. split; [|done]. right; left. done.
    - split; [|done]. destruct (decide (c = u)) as [->|Hcu].
      + destruct Hu as [Hu|Hu]; rewrite Hu; [by left|]. right; right; left. done.
      + left. by apply Hm1. }
  destruct H2 as [H2 Hfl].
  destruct final2 as [node|]; [|done].
  rewrite revert_active_spec.
  replace (get_neighboring_coordinates m2 u) with (get_neighboring_coordinates m u)
    by (unfold get_neighboring_coordinates; rewrite Hw; unfold m1;
        by rewrite set_cell_type_width).
  unfold cell_change in *.
  destruct (decide (c ∈ get_neighboring_coordinates m u /\
                    get_cell_type m2 c = Some ACTIVE)) as [[Hadj Hact]|Hno].
  - rewrite Hact in H2.
    destruct H2 as [H2|[[H2 _]|[[-> H2]|(H2 & _)]]]; try done.
    + right; right; right. done.
    + left. done.
  - destruct H2 as [H2|[H2|[H2|(H2 & _)]]]; try done; auto.
Qed.
(** The expanded cell is EXPLORED afterwards. *)
Lemma expand_marks m frontier final position m' frontier' final' w :
  expand enqueue m frontier final position = (m', frontier', final') ->
  get_cell_type m (coord position) = Some w ->
  get_cell_type m' (coord position) = Some EXPLORED.
Proof.
  unfold expand.
  destruct (visit _ _ _ _ _ _) as [[m2 frontier2] final2] eqn:Hv.
  intros [= <- <- <-] Hw.
  destruct (visit_spec enqueue nodes nodes_enqueue _ _ _ _ _ _ _ _ Hv)
    as (news & _ & _ & Hnews & Hcells & _).
  pose proof (get_set_cell_type_eq m (coord position) EXPLORED w Hw) as Hu.
  assert (H2 : get_cell_type m2 (coord position) = Some EXPLORED).
  { rewrite Hcells. rewrite decide_False; [done|].
    intros Hin. destruct (Hnews _ Hin) as (_ & Hg & _). congruence. }
  destruct final2; [|done].
  rewrite revert_active_spec, decide_False; [done|].
  intros [_ Hact]. congruence.
Qed.
End Expand.

(** ** The search invariant *)

Lemma search_inv_init m0 s :
  well_formed m0 -> start m0 = Some s -> in_grid m0 s ->
  search_inv m0 s m0 [Build_searched_cell s None] [].
Proof.
  intros Hwf Hs Hin. split; try done.
  - simpl. apply NoDup_singleton.
  - constructor.
  - by intros c Hc%elem_of_nil.
  - left. done.
  - intros n ->%list_elem_of_singleton. done.
Qed.

Lemma search_inv_perm m0 s m queue queue' expanded :
  queue ≡ₚ queue' ->
  search_inv m0 s m queue expanded -> search_inv m0 s m queue' expanded.
Proof.
  intros Hp [Hwf Hw Hh Hs He Hsg Hqnd Hend Hexp Hq Hunt Hch].
  split; try done.
  - by rewrite <- Hp.
  - intros c Hc. destruct (Hexp c Hc) as (? & ? & ? & ?).
    split; [done|]. split; [by rewrite <- Hp|]. done.
  - destruct Hq as [(-> & ? & ?)|[? Hq]].
    + left. apply Permutation_singleton_l in Hp as <-. done.
    + right. split; [done|]. intros n Hn. apply Hq. by rewrite Hp.
  - intros c ? Hc. apply Hunt; [done|]. by rewrite Hp.
  - intros n Hn. apply Hch. by rewrite Hp.
Qed.

Lemma search_inv_in_grid m0 s m queue expanded c :
  search_inv m0 s m queue expanded -> c ∈ expanded -> in_grid m0 c.
Proof.
  intros [Hwf Hw Hh Hs He Hsg Hqnd Hend Hexp Hq Hunt Hch] Hc.
  destruct (Hexp c Hc) as (Hg & _).
  apply (get_cell_type_in_grid _ _ _ Hwf) in Hg.
  unfold in_grid in *. by rewrite <- Hw, <- Hh.
Qed.

Section ExpandInvariant.
Context {F : Type}.
Variable enqueue : F -> Coordinate -> searched_cell -> F.
Variable nodes : F -> list searched_cell.
Hypothesis nodes_enqueue : forall frontier a position,
  nodes (enqueue frontier a position) ≡ₚ Build_searched_cell a (Some position) :: nodes frontier.

(** Expanding the node [position] taken from the queue: either the end is
    among its neighbours, or the invariant holds again with [position]
    moved to the expanded cells and the new nodes queued. *)
Lemma expand_inv m0 s m position others frontier expanded m' frontier' final' :
  search_inv m0 s m (position :: others ++ nodes frontier) expanded ->
  expand enqueue m frontier None position = (m', frontier', final') ->
  NoDup (expanded ++ [coord position]) /\
  (forall c, c ∈ expanded ++ [coord position] -> in_grid m0 c) /\
  chain_ok m0 s position /\
  ((coord position = s /\
    get_cell_type m (coord position) = get_cell_type m0 (coord position)) \/
   get_cell_type m (coord position) = Some ACTIVE) /\
  ((final' = None /\
    search_inv m0 s m' (others ++ nodes frontier') (expanded ++ [coord position]) /\
    exists news,
      nodes frontier' ≡ₚ
        ((fun a => Build_searched_cell a (Some position)) <$> news) ++ nodes frontier /\
      forall a, a ∈ news ->
        a ∈ get_neighboring_coordinates m (coord position) /\
        get_cell_type m a = Some FLOOR /\ get_cell_type m0 a = Some FLOOR /\
        a <> s)
   \/ (exists e, final' = Some (Build_searched_cell e (Some position)) /\
         end_ m = Some e /\ e ∈ get_neighboring_coordinates m (coord position))).
Proof.
  intros Hinv Hex.
  pose proof (fun c => search_inv_in_grid _ _ _ _ _ c Hinv) as Hgrid.
  destruct Hinv as [Hwf Hw Hh Hs He Hsg Hqnd Hend Hexp Hq Hunt Hch].
  set (u := coord position) in *.
  set (rest := others ++ nodes frontier) in *.
  change (coord <$> position :: rest) with (u :: (coord <$> rest)) in *.
  apply NoDup_cons in Hqnd as [HuQ Hqnd].
  assert (HuE : u ∉ expanded).
  { intros Hin. destruct (Hexp u Hin) as (_ & Hn & _). apply Hn. by left. }
  assert (Hrest : s ∈ expanded ++ [u] /\
                  ((u = s /\ get_cell_type m u = get_cell_type m0 u) \/
                   get_cell_type m u = Some ACTIVE) /\
                  (u = s \/ get_cell_type m0 u = Some FLOOR) /\
                  forall n, n ∈ rest ->
                    get_cell_type m (coord n) = Some ACTIVE /\
                    get_cell_type m0 (coord n) = Some FLOOR).
  { destruct Hq as [(Hq & -> & Hsame)|[HsE Hq]].
    - injection Hq as Hp Hr. unfold u. rewrite Hp. simpl.
      split; [by left|]. split; [by left|]. split; [by left|].
      rewrite Hr. by intros n Hn%elem_of_nil.
    - split; [apply elem_of_app; by left|].
      destruct (Hq position) as [? ?]; [by left|].
      split; [by right|]. split; [by right|].
      intros n Hn. apply Hq. by right. }
  destruct Hrest as (HsE & Hum & Hu0 & Hrest).
  assert (Hug : exists w, get_cell_type m u = Some w).
  { destruct Hum as [[-> _]|Hum]; [|eauto]. by apply in_grid_get_cell_type. }
  destruct Hug as [w Hug].
  assert (Hnd' : NoDup (expanded ++ [u])).
  { apply NoDup_app. split; [done|]. split; [|apply NoDup_singleton].
    intros c Hc ->%list_elem_of_singleton. done. }
  assert (Hgrid' : forall c, c ∈ expanded ++ [u] -> in_grid m0 c).
  { intros c [Hc| ->%list_elem_of_singleton]%elem_of_app; [by apply Hgrid|].
    apply (get_cell_type_in_grid _ _ _ Hwf) in Hug.
    unfold in_grid in *. by rewrite <- Hw, <- Hh. }
  split; [done|]. split; [done|].
  split; [apply Hch; by left|]. split; [done|].
  (* the loops *)
  pose proof (expand_fields enqueue nodes nodes_enqueue _ _ _ _ _ _ _ Hex)
    as (Hw' & Hh' & Hs' & He' & Hwf').
  unfold expand in Hex. fold u in Hex.
  destruct (visit _ _ _ _ _ _) as [[m2 frontier2] final2] eqn:Hv.
  destruct (visit_spec enqueue nodes nodes_enqueue _ _ _ _ _ _ _ _ Hv)
    as (news & Hperm & Hnews_nd & Hnews & Hcells & _ & _ & _ & _ & _ & Hfin).
  rewrite get_neighboring_coordinates_set in Hnews, Hfin.
  rewrite set_cell_type_end in Hnews, Hfin.
  set (m1 := set_cell_type m u EXPLORED) in *.
  assert (Hm1u : get_cell_type m1 u = Some EXPLORED)
    by (by apply get_set_cell_type_eq with w).
  assert (Hm1 : forall b, b <> u -> get_cell_type m1 b = get_cell_type m b).
  { intros b Hb. unfold m1. by rewrite get_set_cell_type_ne. }
  assert (Hnews' : forall a, a ∈ news ->
            a ∈ get_neighboring_coordinates m u /\
            get_cell_type m a = Some FLOOR /\ a <> u /\ end_ m <> Some a).
  { intros a Ha. destruct (Hnews a Ha) as (Hin & Hg & Hne).
    assert (a <> u) by (intros ->; congruence).
    rewrite Hm1 in Hg by done. done. }
  assert (HnewsE : forall a, a ∈ news -> a ∉ expanded).
  { intros a Ha HaE. destruct (Hnews' a Ha) as (_ & Hg & _).
    destruct (Hexp a HaE) as (Hg' & _). congruence. }
  assert (HnewsQ : forall a, a ∈ news -> a ∉ coord <$> rest).
  { intros a Ha (n & -> & Hn)%list_elem_of_fmap.
    destruct (Hnews' _ Ha) as (_ & Hg & _).
    destruct (Hrest n Hn) as [Hg' _]. congruence. }
  assert (Hnews0 : forall a, a ∈ news -> get_cell_type m0 a = Some FLOOR /\ a <> s).
  { intros a Ha. destruct (Hnews' a Ha) as (_ & Hg & Hau & _).
    assert (Has : a <> s).
    { intros ->. apply elem_of_app in HsE as [HsE|HsE%list_elem_of_singleton].
      - by apply (HnewsE s).
      - done. }
    split; [|done]. rewrite <- Hunt; [done|by apply HnewsE|].
    intros [->|HaQ]%elem_of_cons; [done|]. by apply (HnewsQ a). }
  destruct Hfin as [[-> Hall]|(e & Hein & Hee & ->)].
  2:{ right. injection Hex as <- <- <-. exists e. done. }
  left. injection Hex as <- <- <-. split; [done|].
  assert (Hcoords : coord <$> (others ++ nodes frontier2) ≡ₚ news ++ (coord <$> rest)).
  { rewrite fmap_app, Hperm, !fmap_app, <- list_fmap_compose. unfold rest.
    rewrite fmap_app. simpl.
    replace (coord ∘ (fun a => Build_searched_cell a (Some position)) <$> news)
      with news by (by rewrite <- list_fmap_id at 1).
    rewrite (Permutation_app_comm (coord <$> others)), <- !app_assoc.
    apply Permutation_app_head, Permutation_app_comm. }
  assert (Hcell' : forall c, get_cell_type m2 c
                    = if decide (c ∈ news) then Some ACTIVE
                      else if decide (c = u) then Some EXPLORED
                      else get_cell_type m c).
  { intros c. rewrite Hcells. destruct (decide (c ∈ news)); [done|].
    destruct (decide (c = u)) as [->|?]; [done|]. by apply Hm1. }
  split.
  { split.
    - by apply Hwf'.
    - by rewrite Hw'.
    - by rewrite Hh'.
    - by rewrite Hs'.
    - by rewrite He'.
    - unfold in_grid in *. by rewrite Hw', Hh'.
    - rewrite Hcoords. apply NoDup_app. split; [done|]. split; [|done].
      intros a Ha. by apply HnewsQ.
    - done.
    - (* expanded cells *)
      assert (Hnbrs : forall c a,
                a ∈ get_neighboring_coordinates m2 c ->
                a ∈ get_neighboring_coordinates m c).
      { intros c a. unfold get_neighboring_coordinates. by rewrite Hw'. }
      intros c [Hc| ->%list_elem_of_singleton]%elem_of_app.
      + destruct (Hexp c Hc) as (Hg & HcQ & Hc0 & Hn).
        assert (Hcu : c <> u) by (intros ->; done).
        split.
        { rewrite Hcell'. rewrite decide_False by (intros ?; by apply (HnewsE c)).
          by rewrite decide_False. }
        split.
        { rewrite Hcoords. intros [?|?]%elem_of_app.
          - by apply (HnewsE c).
          - apply HcQ. by right. }
        split; [done|].
        intros a Ha%Hnbrs. destruct (Hn a Ha) as [Hne Hfl].
        rewrite He'. split; [done|]. rewrite Hcell'.
        destruct (decide (a ∈ news)); [done|]. destruct (decide (a = u)); done.
      + split.
        { rewrite Hcell'. rewrite decide_False.
          - by rewrite decide_True.
          - intros Hin. by destruct (Hnews' u Hin) as (_ & _ & ? & _). }
        split.
        { rewrite Hcoords. intros [Hin|?]%elem_of_app; [|done].
          by destruct (Hnews' u Hin) as (_ & _ & ? & _). }
        split; [done|].
        intros a Ha%Hnbrs. rewrite He'. by apply Hall.
    - right. split; [done|]. intros n Hn.
      assert (Hn' : n ∈ ((fun a => Build_searched_cell a (Some position)) <$> news) ++ rest).
      { apply elem_of_app in Hn as [Hn|Hn].
        - apply elem_of_app; right. apply elem_of_app; by left.
        - rewrite Hperm in Hn. apply elem_of_app in Hn as [Hn|Hn].
          + apply elem_of_app; by left.
          + apply elem_of_app; right. apply elem_of_app; by right. }
      apply elem_of_app in Hn' as [(a & -> & Ha)%list_elem_of_fmap|Hn'].
      + simpl. rewrite Hcell', decide_True by done. split; [done|]. by apply Hnews0.
      + destruct (Hrest n Hn') as [Hg Hg0]. split; [|done].
        rewrite Hcell'.
        destruct (decide (coord n ∈ news)); [done|].
        rewrite decide_False; [done|].
        intros Heq. apply HuQ. rewrite <- Heq. by apply list_elem_of_fmap_2.
    - intros c HcE HcQ.
      apply not_elem_of_app in HcE as [HcE Hcu].
      rewrite list_elem_of_singleton in Hcu.
      rewrite Hcoords in HcQ. apply not_elem_of_app in HcQ as [Hcn HcQ].
      rewrite Hcell', decide_False, decide_False by done.
      apply Hunt; [done|]. by intros [?|?]%elem_of_cons.
    - intros n Hn.
      assert (Hn' : n ∈ ((fun a => Build_searched_cell a (Some position)) <$> news) ++ rest).
      { apply elem_of_app in Hn as [Hn|Hn].
        - apply elem_of_app; right. apply elem_of_app; by left.
        - rewrite Hperm in Hn. apply elem_of_app in Hn as [Hn|Hn].
          + apply elem_of_app; by left.
          + apply elem_of_app; right. apply elem_of_app; by right. }
      apply elem_of_app in Hn' as [(a & -> & Ha)%list_elem_of_fmap|Hn'].
      + simpl. destruct (Hnews' a Ha) as (Hin & _).
        split; [by apply neighbor_adjacent with m|].
        split; [by apply Hnews0|]. apply Hch. by left.
      + apply Hch. by right. }
  exists news. split; [done|]. intros a Ha.
  destruct (Hnews' a Ha) as (? & ? & ? & ?). destruct (Hnews0 a Ha). done.
Qed.
End ExpandInvariant.

(** ** The strategies keep the invariant *)

Lemma splice_perm {E} (l : list E) i v : splice l i v ≡ₚ v :: l.
Proof.
  unfold splice. rewrite <- Permutation_middle. by rewrite take_drop.
Qed.

Lemma BFS_nodes_push frontier a position :
  BFS.push frontier a position ≡ₚ Build_searched_cell a (Some position) :: frontier.
Proof. unfold BFS.push. by rewrite Permutation_app_comm. Qed.

Lemma GBFS_nodes_enqueue maze_end frontier a position :
  GBFS.cell <$> GBFS.enqueue maze_end frontier a position
  ≡ₚ Build_searched_cell a (Some position) :: (GBFS.cell <$> frontier).
Proof. unfold GBFS.enqueue. by rewrite splice_perm. Qed.

Lemma ASTAR_nodes_enqueue m frontier_element frontier a position :
  ASTAR.cell <$> ASTAR.enqueue m frontier_element frontier a position
  ≡ₚ Build_searched_cell a (Some position) :: (ASTAR.cell <$> frontier).
Proof. unfold ASTAR.enqueue. by rewrite splice_perm. Qed.

Lemma GBFS_step_ready g maze_end frontier_element rest :
  end_ (the_maze (GBFS.alg g)) = Some maze_end ->
  interval_code (GBFS.alg g) <> None ->
  is_paused (GBFS.alg g) = false ->
  GBFS.search_frontier g = frontier_element :: rest ->
  GBFS.expanding g = Some (coord (GBFS.cell frontier_element)) /\
  forall m frontier final,
    expand (GBFS.enqueue maze_end) (the_maze (GBFS.alg g)) rest
           (final_searched_cell (GBFS.alg g)) (GBFS.cell frontier_element)
      = (m, frontier, final) ->
    the_maze (GBFS.alg (GBFS.step g)) = m /\
    GBFS.search_frontier (GBFS.step g) = frontier /\
    final_searched_cell (GBFS.alg (GBFS.step g)) = final /\
    interval_code (GBFS.alg (GBFS.step g)) = interval_code (GBFS.alg g) /\
    is_paused (GBFS.alg (GBFS.step g)) = false /\
    search_ended (GBFS.alg (GBFS.step g))
      = if Nat.eqb (length frontier) 0 then true
        else match final with Some _ => true | None => search_ended (GBFS.alg g) end.
Proof.
  intros He Hi Hp Hf. unfold GBFS.expanding, GBFS.step. rewrite He, Hp, Hf.
  destruct (interval_code (GBFS.alg g)) as [code|]; [|done].
  split; [done|]. intros m frontier final Hex. rewrite Hex. simpl. done.
Qed.

Lemma ASTAR_step_ready g maze_end frontier_element rest :
  end_ (the_maze (ASTAR.alg g)) = Some maze_end ->
  interval_code (ASTAR.alg g) <> None ->
  is_paused (ASTAR.alg g) = false ->
  ASTAR.search_frontier g = frontier_element :: rest ->
  ASTAR.expanding g = Some (coord (ASTAR.cell frontier_element)) /\
  forall m frontier final,
    expand (ASTAR.enqueue (the_maze (ASTAR.alg g)) frontier_element)
           (the_maze (ASTAR.alg g)) rest
           (final_searched_cell (ASTAR.alg g)) (ASTAR.cell frontier_element)
      = (m, frontier, final) ->
    the_maze (ASTAR.alg (ASTAR.step g)) = m /\
    ASTAR.search_frontier (ASTAR.step g) = frontier /\
    final_searched_cell (ASTAR.alg (ASTAR.step g)) = final /\
    interval_code (ASTAR.alg (ASTAR.step g)) = interval_code (ASTAR.alg g) /\
    is_paused (ASTAR.alg (ASTAR.step g)) = false /\
    search_ended (ASTAR.alg (ASTAR.step g))
      = if Nat.eqb (length frontier) 0 then true
        else match final with Some _ => true | None => search_ended (ASTAR.alg g) end.
Proof.
  intros He Hi Hp Hf. unfold ASTAR.expanding, ASTAR.step. rewrite He, Hp, Hf.
  destruct (interval_code (ASTAR.alg g)) as [code|]; [|done].
  split; [done|]. intros m frontier final Hex. rewrite Hex. simpl. done.
Qed.

(** The outcome of a step that expands [position], shared by the three
    strategies: [others ++ nodes frontier] is what stays queued. *)
Section StepOutcome.
Context {F : Type}.
Variable enqueue : F -> Coordinate -> searched_cell -> F.
Variable nodes : F -> list searched_cell.
Hypothesis nodes_enqueue : forall frontier a position,
  nodes (enqueue frontier a position) ≡ₚ Build_searched_cell a (Some position) :: nodes frontier.

Lemma expand_outcome m0 s m position others frontier expanded m' frontier' final' :
  search_inv m0 s m (position :: others ++ nodes frontier) expanded ->
  expand enqueue m frontier None position = (m', frontier', final') ->
  let u := coord position in
  NoDup (expanded ++ [u]) /\
  (forall c, c ∈ expanded ++ [u] -> in_grid m0 c) /\
  ((u = s /\ get_cell_type m u = get_cell_type m0 u) \/ get_cell_type m u = Some ACTIVE) /\
  get_cell_type m' u = Some EXPLORED /\
  (forall c, cell_change (get_neighboring_coordinates m0 u) u final' c
               (get_cell_type m c) (get_cell_type m' c)) /\
  ((final' = None /\
    search_inv m0 s m' (others ++ nodes frontier') (expanded ++ [u]))
   \/ (exists e, final' = Some (Build_searched_cell e (Some position)) /\
         chain_ok m0 s position /\ end_ m0 = Some e /\
         e ∈ get_neighboring_coordinates m0 u)).
Proof.
  intros Hinv Hex u.
  destruct (expand_inv enqueue nodes nodes_enqueue _ _ _ _ _ _ _ _ _ _ Hinv Hex)
    as (Hnd & Hgrid & Hch & Hu & Hcases).
  assert (Hn : get_neighboring_coordinates m0 u = get_neighboring_coordinates m u).
  { apply get_neighboring_coordinates_width. symmetry. apply Hinv. }
  split; [done|]. split; [done|]. split; [done|].
  split.
  { assert (Hg : in_grid m u).
    { assert (H0 : in_grid m0 u) by (apply Hgrid, elem_of_app; right; by left).
      unfold in_grid in *.
      by rewrite (inv_width _ _ _ _ _ Hinv), (inv_height _ _ _ _ _ Hinv). }
    destruct (in_grid_get_cell_type m u (inv_well_formed _ _ _ _ _ Hinv) Hg) as [w Hw].
    by eapply expand_marks. }
  split.
  { intros c. rewrite Hn. by eapply expand_cells. }
  destruct Hcases as [(-> & Hinv' & _)|(e & -> & He & Hin)].
  - left. done.
  - right. exists e. split; [done|]. split; [done|].
    rewrite Hn. split; [|done]. rewrite <- He. symmetry. apply Hinv.
Qed.
End StepOutcome.

#[global] Instance GBFS_laws : StrategyLaws GBFS.t.
Proof.
  split.
  - intros m0 s e Hwf Hs He Hin.
    unfold run_inv, ended, found, maze_of. cbn.
    unfold GBFS.started, GBFS.new. rewrite Hs, He. cbn.
    split; [done|]. split; [done|].
    split; [done|]. by apply search_inv_init.
  - intros m0 s g expanded (Hend & Hfin & (Hi & Hp & He & Hf) & Hinv).
    unfold ended, found, maze_of in *. cbn in Hend, Hfin, Hi, Hp, He, Hf, Hinv.
    destruct (end_ (the_maze (GBFS.alg g))) as [e|] eqn:Hee; [|done].
    destruct (GBFS.search_frontier g) as [|frontier_element rest] eqn:Hfe; [done|].
    destruct (GBFS_step_ready g e frontier_element rest Hee Hi Hp Hfe) as [Hexg Hstep].
    destruct (expand (GBFS.enqueue e) (the_maze (GBFS.alg g)) rest
                (final_searched_cell (GBFS.alg g)) (GBFS.cell frontier_element))
      as [[m' frontier'] final'] eqn:Hex.
    destruct (Hstep _ _ _ eq_refl) as (Hm & Hfr & Hfi & Hic & Hpa & Hen).
    rewrite Hfin in Hex.
    destruct (expand_outcome (GBFS.enqueue e) (fmap GBFS.cell) (GBFS_nodes_enqueue e)
                m0 s _ (GBFS.cell frontier_element) [] rest expanded _ _ _ Hinv Hex)
      as (Hnd & Hgrid & Hu & Hmark & Hcells & Hcases).
    unfold step_outcome, run_inv, ended, found, maze_of. cbn.
    rewrite Hexg, Hm, Hfi, Hen, Hfr.
    split; [done|]. split; [done|]. split; [done|].
    destruct Hcases as [[-> Hinv']|(e' & -> & Hrest)].
    + destruct frontier' as [|element frontier'].
      * right; left. done.
      * left. split; [by eexists|]. cbn. rewrite Hend, Hic, Hpa.
        split; [done|]. split; [done|]. split; [|done].
        split; [done|]. split; [done|]. split; [|done].
        destruct Hinv' as [_ _ _ _ He' _ _ _ _ _ _ _].
        destruct Hinv as [_ _ _ _ He0 _ _ _ _ _ _ _]. congruence.
    + right; right. split; [by destruct (Nat.eqb _ _)|].
      exists (GBFS.cell frontier_element), e'. done.
  - intros g. unfold ended. cbn. unfold GBFS.step.
    destruct (end_ _); [|done]. destruct (interval_code _); [|done].
    destruct (is_paused _); [done|]. destruct (GBFS.search_frontier g); [done|].
    destruct (expand _ _ _ _ _) as [[m frontier] final]. cbn.
    intros ->. destruct (Nat.eqb _ _); [done|]. by destruct final.
Qed.

#[global] Instance ASTAR_laws : StrategyLaws ASTAR.t.
Proof.
  split.
  - intros m0 s e Hwf Hs He Hin.
    unfold run_inv, ended, found, maze_of. cbn.
    unfold ASTAR.started, ASTAR.new. rewrite Hs, He. cbn.
    split; [done|]. split; [done|].
    split; [done|]. by apply search_inv_init.
  - intros m0 s g expanded (Hend & Hfin & (Hi & Hp & He & Hf) & Hinv).
    unfold ended, found, maze_of in *. cbn in Hend, Hfin, Hi, Hp, He, Hf, Hinv.
    destruct (end_ (the_maze (ASTAR.alg g))) as [e|] eqn:Hee; [|done].
    destruct (ASTAR.search_frontier g) as [|frontier_element rest] eqn:Hfe; [done|].
    destruct (ASTAR_step_ready g e frontier_element rest Hee Hi Hp Hfe) as [Hexg Hstep].
    destruct (expand (ASTAR.enqueue (the_maze (ASTAR.alg g)) frontier_element) (the_maze (ASTAR.alg g)) rest
                (final_searched_cell (ASTAR.alg g)) (ASTAR.cell frontier_element))
      as [[m' frontier'] final'] eqn:Hex.
    destruct (Hstep _ _ _ eq_refl) as (Hm & Hfr & Hfi & Hic & Hpa & Hen).
    rewrite Hfin in Hex.
    destruct (expand_outcome (ASTAR.enqueue (the_maze (ASTAR.alg g)) frontier_element) (fmap ASTAR.cell)
                (ASTAR_nodes_enqueue (the_maze (ASTAR.alg g)) frontier_element)
                m0 s _ (ASTAR.cell frontier_element) [] rest expanded _ _ _ Hinv Hex)
      as (Hnd & Hgrid & Hu & Hmark & Hcells & Hcases).
    unfold step_outcome, run_inv, ended, found, maze_of. cbn.
    rewrite Hexg, Hm, Hfi, Hen, Hfr.
    split; [done|]. split; [done|]. split; [done|].
    destruct Hcases as [[-> Hinv']|(e' & -> & Hrest)].
    + destruct frontier' as [|element frontier'].
      * right; left. done.
      * left. split; [by eexists|]. cbn. rewrite Hend, Hic, Hpa.
        split; [done|]. split; [done|]. split; [|done].
        split; [done|]. split; [done|]. split; [|done].
        destruct Hinv' as [_ _ _ _ He' _ _ _ _ _ _ _].
        destruct Hinv as [_ _ _ _ He0 _ _ _ _ _ _ _]. congruence.
    + right; right. split; [by destruct (Nat.eqb _ _)|].
      exists (ASTAR.cell frontier_element), e'. done.
  - intros g. unfold ended. cbn. unfold ASTAR.step.
    destruct (end_ _); [|done]. destruct (interval_code _); [|done].
    destruct (is_paused _); [done|]. destruct (ASTAR.search_frontier g); [done|].
    destruct (expand _ _ _ _ _) as [[m frontier] final]. cbn.
    intros ->. destruct (Nat.eqb _ _); [done|]. by destruct final.
Qed.

Lemma BFS_step_ready b :
  interval_code (BFS.alg b) <> None ->
  is_paused (BFS.alg b) = false ->
  search_ended (BFS.alg b) = false ->
  match BFS.iterator b, BFS.next_search_frontier b with
  | [], [] =>
      BFS.expanding b = None /\
      the_maze (BFS.alg (BFS.step b)) = the_maze (BFS.alg b) /\
      search_ended (BFS.alg (BFS.step b)) = true /\
      final_searched_cell (BFS.alg (BFS.step b)) = final_searched_cell (BFS.alg b)
  | position :: others, frontier | [] as frontier, position :: others =>
      BFS.expanding b = Some (coord position) /\
      forall m frontier' final,
        expand BFS.push (the_maze (BFS.alg b)) frontier
               (final_searched_cell (BFS.alg b)) position = (m, frontier', final) ->
        the_maze (BFS.alg (BFS.step b)) = m /\
        BFS.iterator (BFS.step b) = others /\
        BFS.next_search_frontier (BFS.step b) = frontier' /\
        final_searched_cell (BFS.alg (BFS.step b)) = final /\
        interval_code (BFS.alg (BFS.step b)) = interval_code (BFS.alg b) /\
        is_paused (BFS.alg (BFS.step b)) = false /\
        search_ended (BFS.alg (BFS.step b))
          = match final with Some _ => true | None => false end
  end.
Proof.
  intros Hi Hp He. unfold BFS.expanding, BFS.step. rewrite Hp, He.
  rewrite bool_decide_eq_false_2 by done.
  destruct (BFS.iterator b) as [|position others].
  - destruct (BFS.next_search_frontier b) as [|position others]; cbn.
    + done.
    + split; [done|]. intros m frontier' final ->. done.
  - cbn. split; [done|]. intros m frontier' final ->. done.
Qed.

#[global] Instance BFS_laws : StrategyLaws BFS.t.
Proof.
  split.
  - intros m0 s e Hwf Hs He Hin.
    unfold run_inv, ended, found, maze_of. cbn.
    unfold BFS.started, BFS.new. rewrite Hs. cbn.
    split; [done|]. split; [done|]. split; [done|]. by apply search_inv_init.
  - intros m0 s b expanded (Hend & Hfin & (Hi & Hp) & Hinv).
    unfold ended, found, maze_of in *. cbn in Hend, Hfin, Hi, Hp, Hinv.
    pose proof (BFS_step_ready b Hi Hp Hend) as Hready.
    unfold step_outcome, run_inv, ended, found, maze_of. cbn.
    assert (Hcase : forall position others frontier,
      search_inv m0 s (the_maze (BFS.alg b)) (position :: others ++ frontier) expanded ->
      BFS.expanding b = Some (coord position) /\
      (forall m frontier' final,
        expand BFS.push (the_maze (BFS.alg b)) frontier
               (final_searched_cell (BFS.alg b)) position = (m, frontier', final) ->
        the_maze (BFS.alg (BFS.step b)) = m /\
        BFS.iterator (BFS.step b) = others /\
        BFS.next_search_frontier (BFS.step b) = frontier' /\
        final_searched_cell (BFS.alg (BFS.step b)) = final /\
        interval_code (BFS.alg (BFS.step b)) = interval_code (BFS.alg b) /\
        is_paused (BFS.alg (BFS.step b)) = false /\
        search_ended (BFS.alg (BFS.step b))
          = match final with Some _ => true | None => false end) ->
      step_outcome m0 s b expanded).
    { clear Hready Hinv. intros position others frontier Hinv [Hexg Hstep].
      destruct (expand BFS.push (the_maze (BFS.alg b)) frontier
                  (final_searched_cell (BFS.alg b)) position)
        as [[m' frontier'] final'] eqn:Hex.
      destruct (Hstep _ _ _ eq_refl) as (Hm & Hit' & Hnf' & Hfi & Hic & Hpa & Hen).
      rewrite Hfin in Hex.
      destruct (expand_outcome BFS.push (fun l => l) BFS_nodes_push
                  m0 s _ position others frontier expanded _ _ _ Hinv Hex)
        as (Hnd & Hgrid & Hu & Hmark & Hcells & Hcases).
      unfold step_outcome, run_inv, ended, found, maze_of. cbn.
      rewrite Hexg, Hm, Hfi, Hen, Hit', Hnf'.
      split; [done|]. split; [done|]. split; [done|].
      destruct Hcases as [[-> Hinv']|(e' & -> & Hrest)].
      - left. split; [by eexists|]. rewrite Hic, Hpa. done.
      - right; right. split; [done|]. exists position, e'. done. }
    destruct (BFS.iterator b) as [|position others] eqn:Hit;
      [destruct (BFS.next_search_frontier b) as [|position others] eqn:Hnf|].
    + destruct Hready as (Hex & Hm & He' & Hf'). rewrite Hex, Hm, He', Hf'.
      rewrite app_nil_r. cbn in Hinv.
      split; [apply Hinv|].
      split; [intros c Hc; by eapply search_inv_in_grid|].
      split; [done|]. right; left. done.
    + apply (Hcase position others []); [|done].
      cbn in Hinv. by rewrite app_nil_r.
    + by apply (Hcase position others (BFS.next_search_frontier b)).
  - intros b Hb. by apply BFS_step_after_end.
Qed.

(** ** Counting cells *)

Lemma grid_cells_length m :
  0 <= width m -> 0 <= height m ->
  length (grid_cells m) = Z.to_nat (width m * height m).
Proof.
  intros Hw Hh. unfold grid_cells.
  rewrite length_fmap, length_prod, !length_seq, Z2Nat.inj_mul; lia.
Qed.

Lemma in_grid_cells m c : in_grid m c -> c ∈ grid_cells m.
Proof.
  intros [Hx Hy]. unfold grid_cells. apply list_elem_of_fmap.
  exists (Z.to_nat (x c), Z.to_nat (y c)). split.
  - destruct c as [cx cy]; simpl in *. f_equal; lia.
  - apply list_elem_of_In, in_prod; apply in_seq; lia.
Qed.

Lemma in_grid_count m l :
  NoDup l -> (forall c, c ∈ l -> in_grid m c) ->
  (length l <= Z.to_nat (width m * height m))%nat.
Proof.
  intros Hnd Hin. destruct l as [|c0 l0] eqn:Hl; [simpl; lia|]. rewrite <- Hl in *.
  assert (H0 : in_grid m c0) by (apply Hin; rewrite Hl; by left).
  destruct H0 as [Hx Hy].
  rewrite <- grid_cells_length by lia.
  apply submseteq_length, NoDup_submseteq; [done|].
  intros c Hc. by apply in_grid_cells, Hin.
Qed.

(** The first index at which a boolean sequence becomes true. *)
Lemma first_true (f : nat -> bool) N :
  f O = false -> f N = true ->
  exists n, (1 <= n <= N)%nat /\ f n = true /\ forall k, (k < n)%nat -> f k = false.
Proof.
  intros H0 HN.
  assert (HP : forall M,
            (exists n, (n <= M)%nat /\ f n = true /\ forall k, (k < n)%nat -> f k = false)
            \/ (forall k, (k <= M)%nat -> f k = false)).
  { induction M as [|M [(n & Hn & Hfn & Hlt)|Hall]].
    - right. intros k Hk. by replace k with O by lia.
    - left. exists n. split; [lia|done].
    - destruct (f (S M)) eqn:HfS.
      + left. exists (S M). split; [lia|]. split; [done|].
        intros k Hk. apply Hall. lia.
      + right. intros k Hk. destruct (decide (k = S M)) as [->|?]; [done|].
        apply Hall. lia. }
  destruct (HP N) as [(n & Hn & Hfn & Hlt)|Hall].
  - exists n. split; [|done]. split; [|done].
    destruct n; [congruence|lia].
  - rewrite Hall in HN by lia. done.
Qed.

(** ** Runs of a strategy *)



Section RunFacts.
Context {A : Type} {HS : Strategy A} {HL : StrategyLaws A}.
Variables (m0 : Maze) (s e : Coordinate).
Hypothesis m0_well_formed : well_formed m0.
Hypothesis m0_start : start m0 = Some s.
Hypothesis m0_end : end_ m0 = Some e.
Hypothesis m0_start_in_grid : in_grid m0 s.

Lemma state_at_S n : state_at m0 (S n) = step_of (state_at m0 n).
Proof. reflexivity. Qed.

Lemma expanded_by_S n :
  expanded_by m0 (S n)
  = expanded_by m0 n ++
    match expanding_of (state_at m0 n) with Some u => [u] | None => [] end.
Proof. reflexivity. Qed.

Lemma not_ended_before n k :
  ended (state_at m0 n) = false -> (k <= n)%nat -> ended (state_at m0 k) = false.
Proof.
  intros Hn Hk. induction Hk as [|n Hk IH]; [done|].
  apply IH. destruct (ended (state_at m0 n)) eqn:Hen; [|done].
  rewrite state_at_S, ended_stays in Hn; done.
Qed.

(** While the run has not ended the invariant holds, and every step so
    far expanded a cell. *)
Lemma run_inv_at n :
  ended (state_at m0 n) = false ->
  run_inv m0 s (state_at m0 n) (expanded_by m0 n) /\
  length (expanded_by m0 n) = n.
Proof.
  induction n as [|n IH]; intros Hn.
  - split; [|done]. by apply started_inv with e.
  - destruct IH as [Hinv Hlen]; [by apply not_ended_before with (S n); [|lia]|].
    pose proof (step_inv _ _ _ _ Hinv) as (_ & _ & _ & Hcases).
    rewrite state_at_S in Hn. rewrite expanded_by_S, state_at_S.
    destruct Hcases as [[[u Hu] Hinv']|[(He & _)|(He & _)]]; try congruence.
    rewrite Hu in *. split; [done|]. rewrite length_app, Hlen. simpl. lia.
Qed.

Lemma not_ended_bound n :
  ended (state_at m0 n) = false -> (n <= Z.to_nat (width m0 * height m0))%nat.
Proof.
  intros Hn. destruct (run_inv_at n Hn) as [(_ & _ & _ & Hinv) Hlen].
  rewrite <- Hlen. apply in_grid_count; [apply Hinv|].
  intros c Hc. by eapply search_inv_in_grid.
Qed.

(** The run ends, at a first step [n >= 1]. *)
Lemma run_ends :
  exists n, ends_at m0 (S n) /\ (S n <= Z.to_nat (width m0 * height m0) + 1)%nat.
Proof.
  destruct (first_true (fun n => ended (state_at m0 n))
              (Z.to_nat (width m0 * height m0) + 1)) as (n & Hn & Hen & Hlt).
  - by destruct (started_inv m0 s e m0_well_formed m0_start m0_end m0_start_in_grid).
  - destruct (ended (state_at m0 _)) eqn:Hen; [done|].
    apply not_ended_bound in Hen. lia.
  - destruct n as [|n]; [lia|]. exists n. split; [|lia]. split; done.
Qed.

(** What the last step of the run did. *)
Lemma last_step n :
  ends_at m0 (S n) ->
  step_outcome m0 s (state_at m0 n) (expanded_by m0 n).
Proof.
  intros [_ Hlt]. apply step_inv, run_inv_at, Hlt. lia.
Qed.

Theorem run_terminates : terminates m0.
Proof.
  destruct run_ends as (n & Hends & Hn).
  exists (S n). split; [done|]. split; [done|].
  destruct (last_step n Hends) as (Hnd & Hgrid & _).
  rewrite expanded_by_S. split; [done|]. split; [by apply in_grid_count|].
  intros k u Hk Hu.
  assert (Hnk : ended (state_at m0 k) = false) by (apply Hends; lia).
  destruct (run_inv_at k Hnk) as [Hinv _].
  pose proof (step_inv _ _ _ _ Hinv) as (_ & _ & Hcells & _).
  rewrite Hu in Hcells. rewrite state_at_S. apply Hcells.
Qed.

(** *** Cell states along a run *)

Hypothesis m0_start_not_wall : get_cell_type m0 s <> Some WALL.


End RunFacts.

(** ** Paths and chains *)

Lemma searched_cell_ind (P : searched_cell -> Prop) :
  (forall c, P (Build_searched_cell c None)) ->
  (forall c p, P p -> P (Build_searched_cell c (Some p))) ->
  forall n, P n.
Proof.
  intros H0 H1. fix IH 1. intros [c [p|]].
  - apply H1, IH.
  - apply H0.
Qed.

Lemma reach_cons m a b k c :
  adjacent4 a b -> get_cell_type m b = Some FLOOR ->
  reach m b k c -> reach m a (S k) c.
Proof.
  intros Hab Hb Hr. induction Hr as [|k u v Hr IH Huv Hv].
  - apply reach_step with a; [constructor|done|done].
  - by apply reach_step with u.
Qed.

Lemma floor_path_reach m p : forall a e,
  floor_path m (a :: p) -> last (a :: p) = Some e -> reach m a (length p) e.
Proof.
  induction p as [|b p IH]; intros a e Hp Hl.
  - injection Hl as <-. constructor.
  - destruct Hp as (Hab & Hb & Hp). simpl.
    apply reach_cons with b; [done|done|]. apply IH; [done|].
    by rewrite last_cons_cons in Hl.
Qed.

Lemma path_between_reach m s e p :
  path_between m s e p -> reach m s (edges p) e.
Proof.
  intros (Hh & Hl & Hp). destruct p as [|a p]; [done|].
  injection Hh as ->. unfold edges. simpl. rewrite Nat.sub_0_r.
  by apply floor_path_reach.
Qed.

Lemma reach_end_floor m s k e :
  reach m s k e -> s <> e -> get_cell_type m e = Some FLOOR.
Proof. intros Hr Hne. by destruct Hr. Qed.

Lemma floor_path_snoc m p : forall a b,
  floor_path m (p ++ [a]) -> adjacent4 a b -> get_cell_type m b = Some FLOOR ->
  floor_path m ((p ++ [a]) ++ [b]).
Proof.
  induction p as [|c p IH]; intros a b Hp Hab Hb.
  - simpl. done.
  - destruct p as [|d p].
    + simpl in *. destruct Hp as (? & ? & _). done.
    + change (floor_path m (c :: ((d :: p) ++ [a]) ++ [b])).
      change (floor_path m (c :: (d :: p) ++ [a])) in Hp.
      destruct Hp as (Hcd & Hd & Hp).
      split; [done|]. split; [done|]. by apply IH.
Qed.

(** The chain of a node, read from the root, is a path of FLOOR cells from
    the start to the node, with as many edges as the node is deep. *)
Lemma chain_ok_path m0 s n :
  chain_ok m0 s n ->
  path_between m0 s (coord n) (reconstruct n) /\ edges (reconstruct n) = depth n.
Proof.
  unfold reconstruct, edges.
  assert (H : chain_ok m0 s n ->
              exists q, rev (trail n) = q ++ [coord n] /\
                        head (rev (trail n)) = Some s /\
                        floor_path m0 (rev (trail n)) /\
                        length q = depth n).
  { induction n as [c|c p IH] using searched_cell_ind.
    - simpl. intros ->. exists []. done.
    - simpl. intros (Hadj & Hfl & Hp).
      destruct (IH Hp) as (q & Hq & Hh & Hfp & Hlen).
      exists (rev (trail p)). split; [done|].
      rewrite Hq in *. split.
      { destruct q; simpl in *; done. }
      split; [by apply floor_path_snoc|].
      rewrite length_app, Hlen. simpl. lia. }
  intros Hc. destruct (H Hc) as (q & Hq & Hh & Hfp & Hlen).
  rewrite Hq in *. split.
  - split; [done|]. split; [|done]. by rewrite last_snoc.
  - rewrite length_app, Hlen. simpl. lia.
Qed.

Lemma chain_ok_reach m0 s n : chain_ok m0 s n -> reach m0 s (depth n) (coord n).
Proof.
  intros Hc. destruct (chain_ok_path _ _ _ Hc) as [Hp <-].
  by apply path_between_reach.
Qed.

(** ** Completeness *)

(** Once the queue is empty, every cell that can be reached from the start is
    among the expanded ones (the grid being at least as wide as high). *)
Lemma exhausted_reach m0 s m expanded k c :
  search_inv m0 s m [] expanded -> height m0 <= width m0 ->
  reach m0 s k c -> c ∈ expanded.
Proof.
  intros Hinv Hhw Hr. induction Hr as [|k u v Hr IH Huv Hv].
  - destruct (inv_queue _ _ _ _ _ Hinv) as [(Hq & _)|[Hs _]]; [done|done].
  - destruct (decide (v ∈ expanded)) as [|Hno]; [done|]. exfalso.
    destruct (inv_expanded _ _ _ _ _ Hinv u IH) as (_ & _ & _ & Hn).
    destruct (Hn v) as [_ Hfl].
    + apply adjacent_in_grid_neighbor; [|done|].
      * by rewrite (inv_width _ _ _ _ _ Hinv), (inv_height _ _ _ _ _ Hinv).
      * apply get_cell_type_in_grid with FLOOR; [apply Hinv|].
        rewrite (inv_untouched _ _ _ _ _ Hinv); [done|done|].
        simpl. by intros ?%elem_of_nil.
    + apply Hfl. rewrite (inv_untouched _ _ _ _ _ Hinv); [done|done|].
      simpl. by intros ?%elem_of_nil.
Qed.

Lemma exhausted_no_path m0 s e m expanded k :
  search_inv m0 s m [] expanded -> height m0 <= width m0 ->
  end_ m0 = Some e -> s <> e -> reach m0 s k e -> False.
Proof.
  intros Hinv Hhw He Hne Hr. destruct Hr as [|k u v Hr Huv Hv]; [done|].
  pose proof (exhausted_reach _ _ _ _ _ _ Hinv Hhw Hr) as Hu.
  destruct (inv_expanded _ _ _ _ _ Hinv u Hu) as (_ & _ & _ & Hn).
  destruct (Hn v) as [Hend _].
  - apply adjacent_in_grid_neighbor; [|done|].
    + by rewrite (inv_width _ _ _ _ _ Hinv), (inv_height _ _ _ _ _ Hinv).
    + unfold in_grid. rewrite (inv_width _ _ _ _ _ Hinv), (inv_height _ _ _ _ _ Hinv).
      assert (Hwf0 : exists w, get_cell_type m0 v = Some w) by eauto.
      destruct (inv_well_formed _ _ _ _ _ Hinv) as [Hlen Hcols].
      destruct (decide (v ∈ expanded)) as [Hve|Hve].
      * by apply (search_inv_in_grid _ _ _ _ _ _ Hinv).
      * assert (Hg : get_cell_type m v = Some FLOOR).
        { rewrite (inv_untouched _ _ _ _ _ Hinv); [done|done|].
          simpl. by intros ?%elem_of_nil. }
        apply (get_cell_type_in_grid _ _ _ (inv_well_formed _ _ _ _ _ Hinv)) in Hg.
        unfold in_grid in Hg.
        by rewrite (inv_width _ _ _ _ _ Hinv), (inv_height _ _ _ _ _ Hinv) in Hg.
  - apply Hend. by rewrite (inv_end _ _ _ _ _ Hinv).
Qed.

Section Completeness.
Context {A : Type} {HS : Strategy A} {HL : StrategyLaws A}.
Variables (m0 : Maze) (s e : Coordinate).
Hypothesis m0_well_formed : well_formed m0.
Hypothesis m0_start : start m0 = Some s.
Hypothesis m0_end : end_ m0 = Some e.
Hypothesis m0_start_in_grid : in_grid m0 s.
Hypothesis m0_wide : height m0 <= width m0.
Hypothesis start_not_end : s <> e.

(** The node recorded when the end is found closes a path of FLOOR cells. *)
Lemma found_node_path position k :
  reach m0 s k e -> chain_ok m0 s position ->
  e ∈ get_neighboring_coordinates m0 (coord position) ->
  chain_ok m0 s (Build_searched_cell e (Some position)).
Proof.
  intros Hr Hc Hin. simpl. split; [by apply neighbor_adjacent with m0|].
  split; [|done]. by apply reach_end_floor with s k.
Qed.

Theorem run_finds_path p : path_between m0 s e p -> finds_path m0 s e.
Proof.
  intros Hr%path_between_reach.
  destruct (run_ends m0 s e m0_well_formed m0_start m0_end m0_start_in_grid)
    as (n & Hends & _).
  pose proof (last_step m0 s e m0_well_formed m0_start m0_end m0_start_in_grid n Hends)
    as (_ & _ & _ & Hcases).
  rewrite <- state_at_S in Hcases.
  destruct Hcases as [[_ (He & _)]|[(_ & _ & Hinv)|(_ & position & e' & _ & Hf & Hc & He & Hin)]].
  - destruct Hends as [Hends _]. congruence.
  - exfalso. by eapply exhausted_no_path.
  - assert (e' = e) as -> by congruence.
    pose proof (found_node_path position _ Hr Hc Hin) as Hnode.
    destruct (chain_ok_path _ _ _ Hnode) as [Hpath Hedges].
    exists (S n), (Build_searched_cell e (Some position)).
    split; [done|]. split; [done|]. split; [done|]. split; [done|].
    intros d [_ Hmin]. by apply Hmin.
Qed.
End Completeness.

(** ** The claims about runs of the three strategies *)

(** C8.  On every grid (cell matrix of the stated dimensions, start inside
    it, end defined) each of BFS, GBFS and A*, stepped repeatedly, reaches
    [search_ended = true]; up to that step no cell is expanded twice and at
    most [width * height] cells are expanded. *)
Theorem every_strategy_terminates m0 s e :
  well_formed m0 -> start m0 = Some s -> end_ m0 = Some e -> in_grid m0 s ->
  terminates (A := BFS.t) m0 /\
  terminates (A := GBFS.t) m0 /\
  terminates (A := ASTAR.t) m0.
Proof.
  intros Hwf Hs He Hin.
  split; [|split]; by apply run_terminates with s e.
Qed.


(** C1 (amended).  On every grid at least as wide as it is high, with the
    end different from the start, on which a path of FLOOR cells from start
    to end exists, the A* run ends with a found node whose reconstructed
    path is a path of FLOOR cells from start to end; its edge length is
    therefore at least the true shortest-path edge length. *)
Theorem ASTAR_finds_a_path m0 s e p :
  well_formed m0 -> start m0 = Some s -> end_ m0 = Some e -> in_grid m0 s ->
  height m0 <= width m0 -> s <> e ->
  path_between m0 s e p ->
  finds_path (A := ASTAR.t) m0 s e.
Proof. intros. by apply run_finds_path with p. Qed.

Lemma every_strategy_terminates_witness :
  (well_formed open_3x3 /\ start open_3x3 = Some (at_ 1 1) /\
   end_ open_3x3 = Some (at_ 1 0) /\ in_grid open_3x3 (at_ 1 1)) /\
  terminates (A := BFS.t) open_3x3 /\
  terminates (A := GBFS.t) open_3x3 /\
  terminates (A := ASTAR.t) open_3x3.
Proof.
  assert (Hwf : well_formed open_3x3) by (split; [reflexivity|repeat constructor]).
  assert (Hin : in_grid open_3x3 (at_ 1 1)) by (unfold in_grid; simpl; lia).
  split; [done|].
  apply (every_strategy_terminates open_3x3 (at_ 1 1) (at_ 1 0)); done.
Defined.


Lemma detour_short_path_ok :
  path_between detour_6x6 (at_ 1 0) (at_ 5 2) detour_short_path.
Proof.
  split; [reflexivity|]. split; [reflexivity|].
  unfold detour_short_path. cbn [floor_path].
  repeat (split; [unfold adjacent4; simpl; lia|split; [reflexivity|]]). done.
Qed.

(** C1, as stated, fails: on [detour_6x6] a path of 12 edges leads from the
    start to the end, but the A* run ends at its 19th step with a found node
    whose reconstructed path has 14 edges, which is not the shortest length.
    (A cell first reached along a longer route keeps that route.) *)
Lemma ASTAR_detour_not_shortest :
  path_between detour_6x6 (at_ 1 0) (at_ 5 2) detour_short_path /\
  edges detour_short_path = 12%nat /\
  ended (state_at (A := ASTAR.t) detour_6x6 18) = false /\
  ended (state_at (A := ASTAR.t) detour_6x6 19) = true /\
  exists node,
    found (state_at (A := ASTAR.t) detour_6x6 19) = Some node /\
    edges (reconstruct node) = 14%nat /\
    ~ shortest detour_6x6 (at_ 1 0) (at_ 5 2) (edges (reconstruct node)).
Proof.
  split; [apply detour_short_path_ok|]. split; [reflexivity|].
  split; [by vm_compute|]. split; [by vm_compute|].
  eexists. split; [vm_compute; reflexivity|]. split; [reflexivity|].
  intros [_ Hmin]. specialize (Hmin _ detour_short_path_ok).
  vm_compute in Hmin. lia.
Qed.

Lemma ASTAR_finds_a_path_witness :
  (well_formed detour_6x6 /\ start detour_6x6 = Some (at_ 1 0) /\
   end_ detour_6x6 = Some (at_ 5 2) /\ in_grid detour_6x6 (at_ 1 0) /\
   height detour_6x6 <= width detour_6x6 /\ at_ 1 0 <> at_ 5 2 /\
   path_between detour_6x6 (at_ 1 0) (at_ 5 2) detour_short_path) /\
  finds_path (A := ASTAR.t) detour_6x6 (at_ 1 0) (at_ 5 2).
Proof.
  assert (Hwf : well_formed detour_6x6) by (split; [reflexivity|repeat constructor]).
  assert (Hin : in_grid detour_6x6 (at_ 1 0)) by (unfold in_grid; simpl; lia).
  assert (Hhw : height detour_6x6 <= width detour_6x6) by (simpl; lia).
  assert (Hne : at_ 1 0 <> at_ 5 2) by (unfold at_; congruence).
  assert (Hp : path_between detour_6x6 (at_ 1 0) (at_ 5 2) detour_short_path).
  { split; [reflexivity|]. split; [reflexivity|].
    unfold detour_short_path. cbn [floor_path].
    repeat (split; [unfold adjacent4; simpl; lia|split; [reflexivity|]]). done. }
  split; [done|].
  apply (ASTAR_finds_a_path detour_6x6 (at_ 1 0) (at_ 5 2) detour_short_path); done.
Defined.

(** ** Numbers: no NaN among the priorities, and their order *)

Lemma shr_1_nonneg mrs : 0 <= shr_m mrs -> 0 <= shr_m (shr_1 mrs).
Proof.
  destruct mrs as [m r s]. simpl. destruct m as [|p|p]; [done| |lia].
  destruct p; simpl; lia.
Qed.

Lemma iter_pos_shr_1_nonneg p : forall mrs,
  0 <= shr_m mrs -> 0 <= shr_m (SpecFloat.iter_pos shr_1 p mrs).
Proof.
  induction p as [p IH|p IH|]; intros mrs Hm; simpl.
  - by apply IH, IH, shr_1_nonneg.
  - by apply IH, IH.
  - by apply shr_1_nonneg.
Qed.

Lemma shr_fexp_nonneg m e l :
  0 <= m -> 0 <= shr_m (shr_fexp prec emax m e l).1.
Proof.
  intros Hm. unfold shr_fexp, shr.
  assert (H0 : 0 <= shr_m (shr_record_of_loc m l)) by (destruct l as [|[]]; done).
  destruct (fexp prec emax (Zdigits2 m + e) - e); simpl; [done| |done].
  by apply iter_pos_shr_1_nonneg.
Qed.

Lemma round_nearest_even_nonneg mx lx : 0 <= mx -> 0 <= round_nearest_even mx lx.
Proof.
  intros Hm. destruct lx as [|[]]; simpl; [done| |done|lia].
  destruct (Z.even mx); lia.
Qed.

Lemma binary_round_aux_nonneg mx ex lx :
  0 <= mx -> nonneg_number (binary_round_aux prec emax false mx ex lx).
Proof.
  intros Hm. unfold binary_round_aux.
  pose proof (shr_fexp_nonneg mx ex lx Hm) as H1.
  destruct (shr_fexp prec emax mx ex lx) as [mrs' e']. simpl in H1.
  pose proof (shr_fexp_nonneg _ e' loc_Exact
                (round_nearest_even_nonneg _ (loc_of_shr_record mrs') H1)) as H2.
  destruct (shr_fexp prec emax _ e' loc_Exact) as [mrs'' e'']. simpl in H2.
  destruct (shr_m mrs''); [done| |lia].
  by destruct (e'' <=? emax - prec).
Qed.

Lemma binary_round_nonneg m e : nonneg_number (binary_round prec emax false m e).
Proof.
  unfold binary_round. destruct (shl_align _ _ _) as [mz ez].
  by apply binary_round_aux_nonneg.
Qed.

Lemma of_Z_nonneg z : 0 <= z -> nonneg_number (of_Z z).
Proof.
  intros Hz. unfold of_Z, binary_normalize. destruct z; [done| |lia].
  apply binary_round_nonneg.
Qed.

Lemma SFsqrt_nonneg a : nonneg_number a -> nonneg_number (SFsqrt prec emax a).
Proof.
  destruct a as [sa|[]| |[] m e]; try done. intros _. simpl.
  destruct (SFsqrt_core_binary prec emax (Z.pos m) e) as [[mz ez] lz] eqn:Hcore.
  apply binary_round_aux_nonneg.
  unfold SFsqrt_core_binary in Hcore.
  match type of Hcore with
  | context [Z.sqrtrem ?n] =>
      pose proof (Z.sqrtrem_sqrt n) as Hs; destruct (Z.sqrtrem n) as [q r]
  end.
  injection Hcore as <- _ _. simpl in Hs. rewrite Hs. apply Z.sqrt_nonneg.
Qed.


Lemma euclidean_distance_nonneg a b : nonneg_number (euclidean_distance a b).
Proof.
  apply SFsqrt_nonneg, of_Z_nonneg.
  pose proof (Z.square_nonneg (x a - x b)). pose proof (Z.square_nonneg (y a - y b)).
  lia.
Qed.


(** Comparisons of non-negative numbers, case by case. *)
Ltac compare_numbers :=
  unfold number_gt, number_le, SFltb, SFleb, SFcompare in *;
  repeat match goal with
  | H : context [Pos.compare_cont Eq ?a ?b] |- _ =>
      change (Pos.compare_cont Eq a b) with (Pos.compare a b) in H
  | |- context [Pos.compare_cont Eq ?a ?b] =>
      change (Pos.compare_cont Eq a b) with (Pos.compare a b)
  end;
  repeat match goal with
  | H : context [Z.compare ?a ?b] |- _ => destruct (Z.compare_spec a b)
  | |- context [Z.compare ?a ?b] => destruct (Z.compare_spec a b)
  | H : context [Pos.compare ?a ?b] |- _ => destruct (Pos.compare_spec a b)
  | |- context [Pos.compare ?a ?b] => destruct (Pos.compare_spec a b)
  end;
  try done; try lia.



Lemma number_le_trans a b c :
  nonneg_number a -> nonneg_number b -> nonneg_number c ->
  number_le a b = true -> number_le b c = true -> number_le a c = true.
Proof.
  destruct a as [sa|[]| |[] ma ea], b as [sb|[]| |[] mb eb],
           c as [sc|[]| |[] mc ec]; try done;
    intros _ _ _ H1 H2; compare_numbers.
Qed.


(** ** Sorted insertion *)

Section SortedInsertion.
Context {E : Type} (prio : E -> number).



End SortedInsertion.

(** Whatever the frontier satisfies and [enqueue] preserves still holds when
    the neighbour loop is over. *)
Lemma visit_preserves {F} (enqueue : F -> Coordinate -> searched_cell -> F)
    (P : F -> Prop) adjacent :
  (forall frontier a position, P frontier -> P (enqueue frontier a position)) ->
  forall m frontier final position,
    P frontier -> P (visit enqueue m frontier final position adjacent).1.2.
Proof.
  intros Henq. induction adjacent as [|a rest IH]; intros m frontier final position HP.
  - done.
  - simpl. destruct (coordinate_equals _ _); [done|].
    destruct (bool_decide _); apply IH; [by apply Henq|done].
Qed.

Lemma expand_preserves {F} (enqueue : F -> Coordinate -> searched_cell -> F)
    (P : F -> Prop) m frontier final position :
  (forall frontier a position, P frontier -> P (enqueue frontier a position)) ->
  P frontier -> P (expand enqueue m frontier final position).1.2.
Proof.
  intros Henq HP. unfold expand.
  pose proof (visit_preserves enqueue P
                (get_neighboring_coordinates (set_cell_type m (coord position) EXPLORED)
                   (coord position))
                Henq (set_cell_type m (coord position) EXPLORED)
                frontier final position HP) as Hv.
  by destruct (visit _ _ _ _ _ _) as [[m2 frontier2] final2].
Qed.

(** ** The priority frontiers stay sorted *)









(** ** Breadth-first search finds a shortest path *)

Lemma shortest_unique m s c d d' : shortest m s c d -> shortest m s c d' -> d = d'.
Proof.
  intros [(p & Hp & <-) Hmin] [(p' & Hp' & <-) Hmin'].
  apply Nat.le_antisymm; auto.
Qed.

Lemma node_shortest m0 s n :
  chain_ok m0 s n ->
  (forall k, reach m0 s k (coord n) -> (depth n <= k)%nat) ->
  shortest m0 s (coord n) (depth n).
Proof.
  intros Hc Hmin. destruct (chain_ok_path _ _ _ Hc) as [Hp He].
  split; [eauto|]. intros p Hp'%path_between_reach. by apply Hmin.
Qed.

Section Levels.
Variables (m0 : Maze) (s : Coordinate).
Hypothesis m0_well_formed : well_formed m0.
Hypothesis m0_wide : height m0 <= width m0.

(** A cell met as a FLOOR neighbour (or as the end) while every cell at
    most [d - 1] away from the start is already expanded lies more than [d]
    away. *)
Lemma child_minimal m queue expanded d a :
  search_inv m0 s m queue expanded ->
  (forall k c, reach m0 s k c -> (S k <= d)%nat -> c ∈ expanded) ->
  a <> s ->
  (get_cell_type m a = Some FLOOR \/ end_ m = Some a) ->
  forall k, reach m0 s k a -> (S d <= k)%nat.
Proof.
  intros Hinv Hclosed Has Ha k Hr.
  destruct (le_lt_dec (S d) k) as [|Hlt]; [done|]. exfalso.
  destruct Hr as [|k u v Hr Huv Hv]; [done|].
  assert (Hu : u ∈ expanded) by (apply (Hclosed k); [done|lia]).
  destruct (inv_expanded _ _ _ _ _ Hinv u Hu) as (_ & _ & _ & Hn).
  destruct (Hn v) as [Hend Hfl].
  - apply adjacent_in_grid_neighbor; [|done|].
    + by rewrite (inv_width _ _ _ _ _ Hinv), (inv_height _ _ _ _ _ Hinv).
    + apply (get_cell_type_in_grid _ _ _ m0_well_formed) in Hv.
      unfold in_grid in *.
      by rewrite (inv_width _ _ _ _ _ Hinv), (inv_height _ _ _ _ _ Hinv).
  - destruct Ha; done.
Qed.

Lemma levels_after_expand m position others frontier expanded m' frontier' D :
  search_inv m0 s m (position :: others ++ frontier) expanded ->
  expand BFS.push m frontier None position = (m', frontier', None) ->
  D = S (depth position) ->
  (forall n, n ∈ others -> S (depth n) = D) ->
  (forall n, n ∈ frontier -> depth n = D) ->
  (forall n, n ∈ others ++ frontier ->
     forall k, reach m0 s k (coord n) -> (depth n <= k)%nat) ->
  (forall k c, reach m0 s k c -> (S k <= depth position)%nat -> c ∈ expanded) ->
  (forall k c, reach m0 s k c -> (S k <= D)%nat ->
     c ∈ expanded \/ c ∈ coord <$> (position :: others)) ->
  bfs_levels m0 s others frontier' (expanded ++ [coord position]) D.
Proof.
  intros Hinv Hex HD Hit Hnf Hmin Hclosed Hcur.
  destruct (expand_inv BFS.push (fun l => l) BFS_nodes_push
              _ _ _ _ _ _ _ _ _ _ Hinv Hex)
    as (_ & _ & _ & _ & [(_ & Hinv' & news & Hperm & Hnews)|(e & Hf & _)]); [|done].
  assert (Hin : forall n, n ∈ frontier' ->
            n ∈ frontier \/
            exists a, a ∈ news /\ n = Build_searched_cell a (Some position)).
  { intros n Hn. rewrite Hperm in Hn.
    apply elem_of_app in Hn as [(a & -> & Ha)%list_elem_of_fmap|Hn]; [right; eauto|by left]. }
  split.
  - done.
  - intros n [Hn|(a & Ha & ->)]%Hin; [by apply Hnf|]. simpl. lia.
  - intros n [Hn|Hn]%elem_of_app.
    + apply Hmin. apply elem_of_app; by left.
    + apply Hin in Hn as [Hn|(a & Ha & ->)].
      * apply Hmin. apply elem_of_app; by right.
      * simpl. destruct (Hnews a Ha) as (Hnb & Hfl & Hfl0 & Has).
        apply child_minimal with m (position :: others ++ frontier) expanded; auto.
  - intros k c Hr Hk. apply elem_of_app; left. apply (Hclosed k); [done|lia].
  - intros k c Hr Hk. destruct (Hcur k c Hr Hk) as [Hc|[->|Hc]%elem_of_cons].
    + left. apply elem_of_app; by left.
    + left. apply elem_of_app; right. by apply list_elem_of_singleton.
    + by right.
Qed.

(** The node a BFS step is about to expand, with what the level structure
    says about it. *)
Lemma BFS_focus b expanded D c :
  run_inv m0 s b expanded ->
  bfs_levels m0 s (BFS.iterator b) (BFS.next_search_frontier b) expanded D ->
  BFS.expanding b = Some c ->
  exists position others frontier D',
    coord position = c /\
    D' = S (depth position) /\ (D <= D')%nat /\
    search_inv m0 s (the_maze (BFS.alg b)) (position :: others ++ frontier) expanded /\
    chain_ok m0 s position /\
    (forall k, reach m0 s k c -> (depth position <= k)%nat) /\
    (forall k c', reach m0 s k c' -> (S k <= depth position)%nat -> c' ∈ expanded) /\
    (forall n, n ∈ others -> S (depth n) = D') /\
    (forall n, n ∈ frontier -> depth n = D') /\
    (forall n, n ∈ others ++ frontier ->
       forall k, reach m0 s k (coord n) -> (depth n <= k)%nat) /\
    (forall k c', reach m0 s k c' -> (S k <= D')%nat ->
       c' ∈ expanded \/ c' ∈ coord <$> (position :: others)) /\
    (forall m frontier' final,
       expand BFS.push (the_maze (BFS.alg b)) frontier None position
         = (m, frontier', final) ->
       BFS.iterator (BFS.step b) = others /\
       BFS.next_search_frontier (BFS.step b) = frontier' /\
       final_searched_cell (BFS.alg (BFS.step b)) = final /\
       search_ended (BFS.alg (BFS.step b))
         = match final with Some _ => true | None => false end).
Proof.
  intros (Hend & Hfin & (Hi & Hp) & Hinv) Hlv Hexp.
  unfold ended, found, maze_of in *. cbn in Hend, Hfin, Hi, Hp, Hinv.
  pose proof (BFS_step_ready b Hi Hp Hend) as Hready.
  destruct Hlv as [Hlit Hlnf Hlmin Hldone Hlcur].
  destruct (BFS.iterator b) as [|position others] eqn:Hit;
    [destruct (BFS.next_search_frontier b) as [|position others] eqn:Hnf|].
  - destruct Hready as (Hnone & _). congruence.
  - destruct Hready as (Hsome & Hstep).
    assert (c = coord position) as -> by congruence.
    cbn in Hinv.
    assert (HDp : depth position = D) by (apply Hlnf; by left).
    assert (Hclosed : forall k c', reach m0 s k c' -> (S k <= D)%nat -> c' ∈ expanded).
    { intros k c' Hr Hk. destruct (Hlcur k c' Hr Hk) as [|Hc]; [done|].
      by apply elem_of_nil in Hc. }
    exists position, others, [], (S D).
    split; [done|]. split; [by rewrite HDp|]. split; [lia|].
    split; [by rewrite app_nil_r|].
    split; [apply (inv_chains _ _ _ _ _ Hinv); by left|].
    split; [apply Hlmin; by left|].
    split; [by rewrite HDp|].
    split. { intros n Hn. f_equal. apply Hlnf. by right. }
    split. { by intros n Hn%elem_of_nil. }
    split. { rewrite app_nil_r. intros n Hn. apply Hlmin. by right. }
    split.
    { intros k c' Hr Hk.
      destruct (decide (S k <= D)%nat) as [Hle|Hgt]; [left; by apply (Hclosed k)|].
      assert (k = D) as -> by lia. clear Hk Hgt.
      destruct Hr as [|k u v Hr Huv Hv].
      - destruct (inv_queue _ _ _ _ _ Hinv) as [(Hq & _)|[Hs _]]; [|by left].
        right. injection Hq as -> _. by left.
      - destruct (decide (v ∈ expanded)) as [|HvE]; [by left|].
        destruct (decide (v ∈ coord <$> (position :: others))) as [|HvQ]; [by right|].
        exfalso.
        assert (Hu : u ∈ expanded) by (apply (Hclosed k); [done|lia]).
        destruct (inv_expanded _ _ _ _ _ Hinv u Hu) as (_ & _ & _ & Hn).
        destruct (Hn v) as [_ Hfl].
        + apply adjacent_in_grid_neighbor; [|done|].
          * by rewrite (inv_width _ _ _ _ _ Hinv), (inv_height _ _ _ _ _ Hinv).
          * apply (get_cell_type_in_grid _ _ _ m0_well_formed) in Hv.
            unfold in_grid in *.
            by rewrite (inv_width _ _ _ _ _ Hinv), (inv_height _ _ _ _ _ Hinv).
        + apply Hfl. by rewrite (inv_untouched _ _ _ _ _ Hinv). }
    intros m frontier' final Hex. rewrite <- Hfin in Hex.
    destruct (Hstep _ _ _ Hex) as (_ & ? & ? & ? & _ & _ & ?). done.
  - destruct Hready as (Hsome & Hstep).
    assert (c = coord position) as -> by congruence.
    cbn in Hinv.
    assert (HDp : S (depth position) = D) by (apply Hlit; by left).
    exists position, others, (BFS.next_search_frontier b), D.
    split; [done|]. split; [done|]. split; [lia|]. split; [done|].
    split; [apply (inv_chains _ _ _ _ _ Hinv); by left|].
    split; [apply Hlmin; by left|].
    split. { intros k c' Hr Hk. apply (Hldone k); [done|lia]. }
    split. { intros n Hn. apply Hlit. by right. }
    split; [done|].
    split. { intros n Hn. apply Hlmin. by right. }
    split; [done|].
    intros m frontier' final Hex. rewrite <- Hfin in Hex.
    destruct (Hstep _ _ _ Hex) as (_ & ? & ? & ? & _ & _ & ?). done.
Qed.
End Levels.

Section BreadthFirst.
Variables (m0 : Maze) (s e : Coordinate).
Hypothesis m0_well_formed : well_formed m0.
Hypothesis m0_start : start m0 = Some s.
Hypothesis m0_end : end_ m0 = Some e.
Hypothesis m0_start_in_grid : in_grid m0 s.
Hypothesis m0_wide : height m0 <= width m0.

Lemma BFS_not_found_continues (b : BFS.t) (final : option searched_cell) :
  search_ended (BFS.alg (BFS.step b))
    = match final with Some _ => true | None => false end ->
  ended (BFS.step b) = false -> final = None.
Proof. unfold ended. cbn. intros ->. by destruct final. Qed.

(** The level structure holds all along the run, and [D] exceeds the
    distance of every cell expanded before. *)
Lemma BFS_levels_at n :
  ended (state_at (A := BFS.t) m0 n) = false ->
  exists D,
    bfs_levels m0 s (BFS.iterator (state_at m0 n))
      (BFS.next_search_frontier (state_at m0 n)) (expanded_by (A := BFS.t) m0 n) D /\
    forall i ci, (i < n)%nat ->
      BFS.expanding (state_at m0 i) = Some ci ->
      exists di, shortest m0 s ci di /\ (S di <= D)%nat.
Proof.
  induction n as [|n IH]; intros Hn.
  - exists O. split; [|intros; lia].
    unfold state_at, expanded_by. cbn. unfold BFS.new. rewrite m0_start. cbn.
    split.
    + by intros n Hn'%elem_of_nil.
    + by intros n ->%list_elem_of_singleton.
    + intros n ->%list_elem_of_singleton k _. simpl. lia.
    + intros; lia.
    + intros; lia.
  - assert (Hn' : ended (state_at (A := BFS.t) m0 n) = false)
      by (apply not_ended_before with (S n); [done|lia]).
    destruct (IH Hn') as (D & Hlv & Hpast).
    destruct (run_inv_at m0 s e m0_well_formed m0_start m0_end m0_start_in_grid n Hn')
      as [Hinv Hlen].
    pose proof (step_inv _ _ _ _ Hinv) as (_ & _ & _ & Hcases).
    rewrite <- state_at_S in Hcases.
    destruct Hcases as [[[c Hc] _]|[(He & _)|(He & _)]]; [|congruence|congruence].
    change (BFS.expanding (state_at m0 n) = Some c) in Hc.
    destruct (BFS_focus m0 s m0_well_formed m0_wide _ _ _ _ Hinv Hlv Hc)
      as (position & others & frontier & D' & Hco & HD' & HDD' & Hinv' & Hch & Hmin
          & Hclosed & Hit & Hnf & Hminq & Hcur & Hstep).
    destruct (expand BFS.push (the_maze (BFS.alg (state_at m0 n))) frontier None position)
      as [[m' frontier'] final'] eqn:Hex.
    destruct (Hstep _ _ _ eq_refl) as (Hit' & Hnf' & Hfi & Hen).
    assert (final' = None) as -> by (by apply (BFS_not_found_continues (state_at m0 n))).
    exists D'. split.
    + rewrite expanded_by_S. change (expanding_of (state_at m0 n)) with
        (BFS.expanding (state_at m0 n)). rewrite Hc, <- Hco.
      change (state_at m0 (S n)) with (BFS.step (state_at m0 n)).
      rewrite Hit', Hnf'.
      by apply levels_after_expand with (the_maze (BFS.alg (state_at m0 n))) frontier m'.
    + intros i ci Hi Hci. destruct (decide (i = n)) as [->|Hne].
      * assert (ci = c) as -> by congruence. subst c.
        exists (depth position). split; [by apply node_shortest|lia].
      * destruct (Hpast i ci) as (di & Hdi & Hle); [lia|done|].
        exists di. split; [done|lia].
Qed.

Lemma BFS_expanding_distance n c :
  ended (state_at (A := BFS.t) m0 n) = false ->
  BFS.expanding (state_at m0 n) = Some c ->
  exists d D,
    shortest m0 s c d /\ (D <= S d)%nat /\
    forall i ci, (i < n)%nat ->
      BFS.expanding (state_at m0 i) = Some ci ->
      exists di, shortest m0 s ci di /\ (S di <= D)%nat.
Proof.
  intros Hn Hc. destruct (BFS_levels_at n Hn) as (D & Hlv & Hpast).
  destruct (run_inv_at m0 s e m0_well_formed m0_start m0_end m0_start_in_grid n Hn)
    as [Hinv _].
  destruct (BFS_focus m0 s m0_well_formed m0_wide _ _ _ _ Hinv Hlv Hc)
    as (position & others & frontier & D' & Hco & HD' & HDD' & _ & Hch & Hmin & _).
  subst c. exists (depth position), D. split; [by apply node_shortest|].
  split; [lia|done].
Qed.

Theorem BFS_breadth_first_order : breadth_first_order m0 s.
Proof.
  split.
  - intros i ci Hi Hci.
    destruct (BFS_expanding_distance i ci Hi Hci) as (d & _ & Hd & _). eauto.
  - intros i j ci cj di dj Hij Hj Hci Hcj Hdi Hdj.
    destruct (BFS_expanding_distance j cj Hj Hcj) as (d & D & Hd & HD & Hpast).
    assert (d = dj) as -> by (by eapply shortest_unique).
    destruct (decide (i = j)) as [->|Hne].
    + assert (ci = cj) as -> by congruence.
      by rewrite (shortest_unique _ _ _ _ _ Hdi Hdj).
    + destruct (Hpast i ci) as (di' & Hdi' & Hle); [lia|done|].
      assert (di' = di) as -> by (by eapply shortest_unique). lia.
Qed.

Hypothesis start_not_end : s <> e.

Theorem BFS_finds_shortest p :
  path_between m0 s e p -> finds_shortest_path (A := BFS.t) m0 s e.
Proof.
  intros Hr%path_between_reach.
  destruct (run_ends (A := BFS.t) m0 s e m0_well_formed m0_start m0_end m0_start_in_grid)
    as (n & Hends & _).
  assert (Hn : ended (state_at (A := BFS.t) m0 n) = false)
    by (destruct Hends as [_ Hlt]; apply Hlt; lia).
  destruct (BFS_levels_at n Hn) as (D & Hlv & _).
  destruct (run_inv_at m0 s e m0_well_formed m0_start m0_end m0_start_in_grid n Hn)
    as [Hinv _].
  pose proof (step_inv _ _ _ _ Hinv) as (_ & _ & _ & Hcases).
  rewrite <- state_at_S in Hcases.
  destruct Hcases as [[_ (He & _)]|[(_ & _ & Hinv0)|(_ & position0 & e0 & Hc & _)]].
  { destruct Hends as [Hends _]. congruence. }
  { exfalso. by eapply exhausted_no_path. }
  change (BFS.expanding (state_at m0 n) = Some (coord position0)) in Hc.
  destruct (BFS_focus m0 s m0_well_formed m0_wide _ _ _ _ Hinv Hlv Hc)
    as (position & others & frontier & D' & Hco & HD' & HDD' & Hinv' & Hch & Hmin
        & Hclosed & _ & _ & _ & _ & Hstep).
  destruct (expand BFS.push (the_maze (BFS.alg (state_at m0 n))) frontier None position)
    as [[m' frontier'] final'] eqn:Hex.
  destruct (Hstep _ _ _ eq_refl) as (_ & _ & Hfi & Hen).
  destruct (expand_inv BFS.push (fun l => l) BFS_nodes_push
              _ _ _ _ _ _ _ _ _ _ Hinv' Hex)
    as (_ & _ & _ & _ & [(-> & _)|(e' & -> & He' & Hin)]).
  { destruct Hends as [Hends _].
    change (state_at m0 (S n)) with (BFS.step (state_at m0 n)) in Hends.
    unfold ended in Hends. cbn in Hends. congruence. }
  assert (Hem : end_ (the_maze (BFS.alg (state_at m0 n))) = Some e).
  { by rewrite (inv_end _ _ _ _ _ Hinv'). }
  assert (e' = e) as -> by congruence.
  rewrite (get_neighboring_coordinates_width _ m0) in Hin
    by apply (inv_width _ _ _ _ _ Hinv').
  pose proof (found_node_path m0 s e start_not_end position _ Hr Hch Hin) as Hnode.
  destruct (chain_ok_path _ _ _ Hnode) as [Hpath Hedges].
  exists (S n), (Build_searched_cell e (Some position)).
  split; [done|]. split; [exact Hfi|]. split; [done|].
  rewrite Hedges. apply (node_shortest m0 s (Build_searched_cell e (Some position)) Hnode).
  intros k Hk. simpl.
  apply (child_minimal m0 s m0_well_formed m0_wide _ _ _ _ e Hinv' Hclosed); auto.
Qed.
End BreadthFirst.

(** C6, as stated, fails when start and end are the same cell: the path
    [(0,0)] has no edge, yet BFS on the 2 x 2 grid ends at its second step
    with a found node whose path has 2 edges. *)
Lemma BFS_same_cell_not_shortest :
  path_between same_cell_2x2 (at_ 0 0) (at_ 0 0) [at_ 0 0] /\
  edges [at_ 0 0] = 0%nat /\
  ended (state_at (A := BFS.t) same_cell_2x2 1) = false /\
  ended (state_at (A := BFS.t) same_cell_2x2 2) = true /\
  exists node,
    found (state_at (A := BFS.t) same_cell_2x2 2) = Some node /\
    reconstruct node = [at_ 0 0; at_ 1 0; at_ 0 0] /\
    edges (reconstruct node) = 2%nat /\
    ~ shortest same_cell_2x2 (at_ 0 0) (at_ 0 0) (edges (reconstruct node)).
Proof.
  assert (Hp : path_between same_cell_2x2 (at_ 0 0) (at_ 0 0) [at_ 0 0]) by done.
  split; [done|]. split; [done|]. split; [by vm_compute|]. split; [by vm_compute|].
  eexists. split; [vm_compute; reflexivity|]. split; [reflexivity|].
  split; [reflexivity|].
  intros [_ Hmin]. specialize (Hmin _ Hp). vm_compute in Hmin. lia.
Qed.

(** The defect of [get_neighboring_coordinates] (C2) also hides paths: on the
    2 x 3 grid the end (0,2) is two steps below the start, yet BFS and A*
    both end exhausted, because (0,2) is never enumerated as a neighbour. *)
Lemma tall_grid_path_missed :
  path_between tall_grid (at_ 0 0) (at_ 0 2) [at_ 0 0; at_ 0 1; at_ 0 2] /\
  ended (state_at (A := BFS.t) tall_grid 5) = true /\
  found (state_at (A := BFS.t) tall_grid 5) = None /\
  ended (state_at (A := ASTAR.t) tall_grid 4) = true /\
  found (state_at (A := ASTAR.t) tall_grid 4) = None.
Proof.
  split.
  - split; [reflexivity|]. split; [reflexivity|]. cbn [floor_path].
    repeat (split; [unfold adjacent4; simpl; lia|split; [reflexivity|]]). done.
  - vm_compute. done.
Qed.

(** C6 (amended).  On every grid at least as wide as it is high, with the
    end different from the start, on which a path of FLOOR cells from start
    to end exists, BFS expands cells in non-decreasing edge-distance from
    the start, and its run ends with a found node whose reconstructed path
    is a path of FLOOR cells from start to end of the true shortest-path
    edge length. *)
Theorem BFS_shortest_path m0 s e p :
  well_formed m0 -> start m0 = Some s -> end_ m0 = Some e -> in_grid m0 s ->
  height m0 <= width m0 -> s <> e ->
  path_between m0 s e p ->
  breadth_first_order m0 s /\ finds_shortest_path (A := BFS.t) m0 s e.
Proof.
  intros Hwf Hs He Hin Hhw Hne Hp. split.
  - by apply BFS_breadth_first_order with e.
  - by apply BFS_finds_shortest with p.
Qed.

Lemma BFS_shortest_path_witness :
  (well_formed detour_6x6 /\ start detour_6x6 = Some (at_ 1 0) /\
   end_ detour_6x6 = Some (at_ 5 2) /\ in_grid detour_6x6 (at_ 1 0) /\
   height detour_6x6 <= width detour_6x6 /\ at_ 1 0 <> at_ 5 2 /\
   path_between detour_6x6 (at_ 1 0) (at_ 5 2) detour_short_path) /\
  breadth_first_order detour_6x6 (at_ 1 0) /\
  finds_shortest_path (A := BFS.t) detour_6x6 (at_ 1 0) (at_ 5 2).
Proof.
  assert (Hwf : well_formed detour_6x6) by (split; [reflexivity|repeat constructor]).
  assert (Hin : in_grid detour_6x6 (at_ 1 0)) by (unfold in_grid; simpl; lia).
  assert (Hhw : height detour_6x6 <= width detour_6x6) by (simpl; lia).
  assert (Hne : at_ 1 0 <> at_ 5 2) by (unfold at_; congruence).
  assert (Hp : path_between detour_6x6 (at_ 1 0) (at_ 5 2) detour_short_path).
  { split; [reflexivity|]. split; [reflexivity|].
    unfold detour_short_path. cbn [floor_path].
    repeat (split; [unfold adjacent4; simpl; lia|split; [reflexivity|]]). done. }
  split; [done|].
  apply (BFS_shortest_path detour_6x6 (at_ 1 0) (at_ 5 2) detour_short_path); done.
Defined.

(** * Further properties of the code *)

(** ** Cells, neighbours and distances *)

(** X1.  Writing a cell of the grid and reading it back gives the state
    written; every other cell reads as before, and the write changes neither
    the dimensions of the matrix nor start and end. *)
Theorem set_then_get_cell_type m c c' v :
  well_formed m -> in_grid m c ->
  get_cell_type (set_cell_type m c v) c = Some v /\
  (c' <> c -> get_cell_type (set_cell_type m c v) c' = get_cell_type m c') /\
  well_formed (set_cell_type m c v) /\
  width (set_cell_type m c v) = width m /\
  height (set_cell_type m c v) = height m /\
  start (set_cell_type m c v) = start m /\
  end_ (set_cell_type m c v) = end_ m.
Proof.
  intros Hwf Hin. destruct (in_grid_get_cell_type m c Hwf Hin) as [w Hw].
  split; [by apply get_set_cell_type_eq with w|].
  split; [intros Hne; by apply get_set_cell_type_ne|].
  split; [by apply set_cell_type_well_formed|].
  by rewrite set_cell_type_width, set_cell_type_height, set_cell_type_start,
    set_cell_type_end.
Qed.

Lemma set_then_get_cell_type_witness :
  (well_formed open_3x3 /\ in_grid open_3x3 (at_ 2 1)) /\
  get_cell_type (set_cell_type open_3x3 (at_ 2 1) WALL) (at_ 2 1) = Some WALL /\
  (at_ 0 0 <> at_ 2 1 ->
   get_cell_type (set_cell_type open_3x3 (at_ 2 1) WALL) (at_ 0 0)
   = get_cell_type open_3x3 (at_ 0 0)) /\
  well_formed (set_cell_type open_3x3 (at_ 2 1) WALL) /\
  width (set_cell_type open_3x3 (at_ 2 1) WALL) = width open_3x3 /\
  height (set_cell_type open_3x3 (at_ 2 1) WALL) = height open_3x3 /\
  start (set_cell_type open_3x3 (at_ 2 1) WALL) = start open_3x3 /\
  end_ (set_cell_type open_3x3 (at_ 2 1) WALL) = end_ open_3x3.
Proof.
  assert (Hwf : well_formed open_3x3) by (split; [reflexivity|repeat constructor]).
  assert (Hin : in_grid open_3x3 (at_ 2 1)) by (unfold in_grid; simpl; lia).
  split; [done|].
  apply (set_then_get_cell_type open_3x3 (at_ 2 1) (at_ 0 0) WALL); done.
Defined.



Lemma neighbor_bounds m c a :
  in_grid m c -> a ∈ get_neighboring_coordinates m c ->
  0 <= x a < width m /\ 0 <= y a /\
  (y a < height m \/ (y a = height m /\ height m < width m)).
Proof.
  intros [Hx Hy]. unfold get_neighboring_coordinates. intros Ha.
  repeat (apply elem_of_app in Ha as [Ha|Ha]);
    match type of Ha with context [if ?b then _ else _] => destruct b eqn:Hb end;
    try (by apply elem_of_nil in Ha);
    apply list_elem_of_singleton in Ha; subst a; simpl; lia.
Qed.

(** X3.  For a cell of the grid, [get_neighboring_coordinates] lists at
    most four coordinates, all different and none the cell itself; each is
    at Manhattan distance 1, has its column inside the grid and a row that
    is not negative, and lies below the last row only by one and only when
    the grid is wider than high. *)
Theorem get_neighboring_coordinates_shape m c :
  in_grid m c ->
  NoDup (get_neighboring_coordinates m c) /\
  (length (get_neighboring_coordinates m c) <= 4)%nat /\
  (c ∉ get_neighboring_coordinates m c) /\
  (forall a, a ∈ get_neighboring_coordinates m c ->
     manhattan_distance c a = 1 /\ 0 <= x a < width m /\ 0 <= y a /\
     (y a < height m \/ (y a = height m /\ height m < width m))).
Proof.
  intros [Hx Hy]. unfold get_neighboring_coordinates.
  destruct c as [cx cy]; simpl in *.
  assert (Hne : forall a b a' b', a <> a' \/ b <> b' ->
            {| x := a; y := b |} <> {| x := a'; y := b' |}).
  { intros a b a' b' Hab [= -> ->]. lia. }
  destruct (Z.leb_spec (cx + 1) (width m - 1)), (Z.leb_spec (cy + 1) (width m - 1)),
    (Z.geb_spec (cx - 1) 0), (Z.geb_spec (cy - 1) 0); simpl;
    (split; [repeat (apply NoDup_cons; split;
                     [rewrite ?not_elem_of_cons; repeat split;
                      try apply not_elem_of_nil; apply Hne; lia|]);
             apply NoDup_nil_2|]);
    (split; [lia|]);
    (split; [rewrite ?not_elem_of_cons; repeat split;
             try apply not_elem_of_nil; apply Hne; lia|]);
    intros a; rewrite ?elem_of_cons, elem_of_nil; intros Ha;
    repeat destruct Ha as [Ha|Ha]; try done; subst a;
    unfold manhattan_distance; simpl; lia.
Qed.

Lemma get_neighboring_coordinates_shape_witness :
  in_grid tall_grid (at_ 0 1) /\
  NoDup (get_neighboring_coordinates tall_grid (at_ 0 1)) /\
  (length (get_neighboring_coordinates tall_grid (at_ 0 1)) <= 4)%nat /\
  (at_ 0 1 ∉ get_neighboring_coordinates tall_grid (at_ 0 1)) /\
  (forall a, a ∈ get_neighboring_coordinates tall_grid (at_ 0 1) ->
     manhattan_distance (at_ 0 1) a = 1 /\ 0 <= x a < width tall_grid /\ 0 <= y a /\
     (y a < height tall_grid \/ (y a = height tall_grid /\ height tall_grid < width tall_grid))).
Proof.
  assert (Hin : in_grid tall_grid (at_ 0 1)) by (unfold in_grid; simpl; lia).
  split; [done|].
  apply (get_neighboring_coordinates_shape tall_grid (at_ 0 1)); done.
Defined.

(** X4.  When the grid is at least as wide as it is high, a cell of the
    grid is listed by [get_neighboring_coordinates] exactly if it is one step
    away horizontally or vertically; on a square grid nothing else is
    listed. *)
Theorem get_neighboring_coordinates_complete m c :
  height m <= width m -> in_grid m c ->
  (forall a, in_grid m a -> (a ∈ get_neighboring_coordinates m c <-> adjacent4 c a)) /\
  (height m = width m ->
   forall a, a ∈ get_neighboring_coordinates m c <-> adjacent4 c a /\ in_grid m a).
Proof.
  intros Hhw Hc.
  assert (H1 : forall a, in_grid m a ->
            (a ∈ get_neighboring_coordinates m c <-> adjacent4 c a)).
  { intros a Ha. split; [apply neighbor_adjacent|].
    intros Hadj. by apply adjacent_in_grid_neighbor. }
  split; [done|]. intros Heq a. split.
  - intros Ha. split; [by apply neighbor_adjacent with m|].
    destruct (neighbor_bounds m c a Hc Ha) as (Hx & Hy0 & Hy). unfold in_grid. lia.
  - intros [Hadj Ha]. by apply H1.
Qed.

Lemma get_neighboring_coordinates_complete_witness :
  (height open_3x3 <= width open_3x3 /\ in_grid open_3x3 (at_ 2 2)) /\
  (forall a, in_grid open_3x3 a ->
     (a ∈ get_neighboring_coordinates open_3x3 (at_ 2 2) <-> adjacent4 (at_ 2 2) a)) /\
  (height open_3x3 = width open_3x3 ->
   forall a, a ∈ get_neighboring_coordinates open_3x3 (at_ 2 2)
             <-> adjacent4 (at_ 2 2) a /\ in_grid open_3x3 a).
Proof.
  assert (Hin : in_grid open_3x3 (at_ 2 2)) by (unfold in_grid; simpl; lia).
  assert (Hhw : height open_3x3 <= width open_3x3) by (simpl; lia).
  split; [done|].
  apply (get_neighboring_coordinates_complete open_3x3 (at_ 2 2)); done.
Defined.

(** X5.  On a grid wider than high, the neighbours of a cell of the last
    row include the coordinate just below the grid, where a cell read gives
    no cell state. *)
Theorem get_neighboring_coordinates_below_wide_grid m c :
  well_formed m -> height m < width m -> in_grid m c -> y c = height m - 1 ->
  {| x := x c; y := height m |} ∈ get_neighboring_coordinates m c /\
  ~ in_grid m {| x := x c; y := height m |} /\
  get_cell_type m {| x := x c; y := height m |} = None.
Proof.
  intros Hwf Hhw [Hx Hy] Hlast.
  assert (Hout : ~ in_grid m {| x := x c; y := height m |}).
  { unfold in_grid. simpl. lia. }
  split; [|split; [done|]].
  - unfold get_neighboring_coordinates.
    destruct (Z.leb_spec (y c + 1) (width m - 1)); [|lia].
    apply elem_of_app; right. apply elem_of_app; left.
    apply list_elem_of_singleton. f_equal. lia.
  - destruct (get_cell_type m _) as [v|] eqn:Hg; [|done].
    by apply get_cell_type_in_grid in Hg.
Qed.

Lemma floor_path_manhattan m p : forall a e,
  floor_path m (a :: p) -> last (a :: p) = Some e ->
  manhattan_distance a e <= Z.of_nat (length p).
Proof.
  induction p as [|b p IH]; intros a e Hp Hl.
  - injection Hl as <-. unfold manhattan_distance. lia.
  - destruct Hp as (Hab & _ & Hp). rewrite last_cons_cons in Hl.
    specialize (IH b e Hp Hl). simpl length.
    unfold manhattan_distance, adjacent4 in *. lia.
Qed.

(** X6.  [manhattan_distance] is a metric on coordinates (not negative,
    zero exactly between equal coordinates, symmetric, triangle inequality),
    and it is 1 exactly between two cells one step apart horizontally or
    vertically. *)
Theorem manhattan_distance_metric a b c :
  0 <= manhattan_distance a b /\
  (manhattan_distance a b = 0 <-> a = b) /\
  manhattan_distance a b = manhattan_distance b a /\
  manhattan_distance a c <= manhattan_distance a b + manhattan_distance b c /\
  (manhattan_distance a b = 1 <-> adjacent4 a b).
Proof.
  unfold manhattan_distance, adjacent4.
  destruct a as [ax ay], b as [bx by_], c as [cx cy]; simpl.
  split; [lia|]. split; [|lia]. split.
  - intros H0. f_equal; lia.
  - intros [= -> ->]. lia.
Qed.

(** X7.  A path between two cells has at least as many edges as their
    Manhattan distance. *)
Theorem path_at_least_manhattan_distance m s e p :
  path_between m s e p -> manhattan_distance s e <= Z.of_nat (edges p).
Proof.
  intros (Hh & Hl & Hp). destruct p as [|a p]; [done|].
  injection Hh as ->. unfold edges. simpl. rewrite Nat.sub_0_r.
  by apply floor_path_manhattan with m.
Qed.

Lemma path_at_least_manhattan_distance_witness :
  path_between open_3x3 (at_ 1 1) (at_ 1 0) [at_ 1 1; at_ 1 0] /\
  manhattan_distance (at_ 1 1) (at_ 1 0) <= Z.of_nat (edges [at_ 1 1; at_ 1 0]).
Proof.
  assert (Hp : path_between open_3x3 (at_ 1 1) (at_ 1 0) [at_ 1 1; at_ 1 0]).
  { split; [reflexivity|]. split; [reflexivity|]. simpl.
    split; [unfold adjacent4; simpl; lia|]. split; [reflexivity|done]. }
  split; [done|].
  apply (path_at_least_manhattan_distance open_3x3 (at_ 1 1) (at_ 1 0)); done.
Defined.

(** X8.  [euclidean_distance] does not depend on the order of its
    arguments, is +0 between a coordinate and itself, and is never NaN nor
    negative. *)
Theorem euclidean_distance_symmetric a b :
  euclidean_distance a b = euclidean_distance b a /\
  euclidean_distance a a = S754_zero false /\
  nonneg_number (euclidean_distance a b).
Proof.
  split; [|split].
  - unfold euclidean_distance. do 2 f_equal. lia.
  - unfold euclidean_distance.
    replace ((x a - x a) * (x a - x a) + (y a - y a) * (y a - y a)) with 0 by lia.
    reflexivity.
  - apply euclidean_distance_nonneg.
Qed.

(** X9.  [coordinate_equals] with [undefined]: two undefined coordinates
    are equal, an undefined and a defined one never, and two defined ones
    exactly when both fields agree. *)
Theorem coordinate_equals_undefined :
  coordinate_equals None None = true /\
  (forall c, coordinate_equals None (Some c) = false /\
             coordinate_equals (Some c) None = false) /\
  (forall a b, coordinate_equals (Some a) (Some b) = true <-> x a = x b /\ y a = y b).
Proof.
  split; [reflexivity|]. split.
  - intros c. split; by apply coordinate_equals_false.
  - intros a b. rewrite coordinate_equals_true. split.
    + by intros [= ->].
    + destruct a, b; simpl. by intros [-> ->].
Qed.

(** ** Drawing a maze *)







(** ** Reload *)

Lemma reload_cell_spec m i j :
  well_formed m -> 0 <= i < width m -> 0 <= j < height m ->
  exists m', reload_cell m i j = Some m' /\ well_formed m' /\
    width m' = width m /\ height m' = height m /\
    start m' = start m /\ end_ m' = end_ m /\
    forall c, get_cell_type m' c
              = if decide (c = {| x := i; y := j |}) then wiped <$> get_cell_type m c
                else get_cell_type m c.
Proof.
  intros Hwf Hi Hj. unfold reload_cell.
  destruct (in_grid_get_cell_type m {| x := i; y := j |} Hwf) as [v Hv]; [done|].
  unfold get_cell_type in Hv. cbn [x y] in Hv.
  destruct (js_get (maze m) i) as [column|] eqn:Hc; [|done].
  eexists. split; [done|]. rewrite Hv.
  assert (Hg : get_cell_type m {| x := i; y := j |} = Some v).
  { unfold get_cell_type. cbn [x y]. by rewrite Hc. }
  destruct v; simpl;
    rewrite ?set_cell_type_width, ?set_cell_type_height, ?set_cell_type_start,
      ?set_cell_type_end;
    (split; [try apply set_cell_type_well_formed; done|]); do 4 (split; [done|]);
    intros c; destruct (decide (c = _)) as [->|Hne];
    rewrite ?Hg; try done;
    first [by apply get_set_cell_type_eq with ACTIVE
          |by apply get_set_cell_type_eq with EXPLORED
          |by apply get_set_cell_type_ne].
Qed.

Lemma get_cell_type_outside m c :
  well_formed m -> ~ in_grid m c -> get_cell_type m c = None.
Proof.
  intros Hwf Hout. destruct (get_cell_type m c) as [v|] eqn:Hg; [|done].
  by apply get_cell_type_in_grid in Hg.
Qed.

Lemma reload_column_spec i rows : forall j m,
  well_formed m -> 0 <= i < width m -> 0 <= j -> j + Z.of_nat rows = height m ->
  exists m', reload_column rows i j m = Some m' /\ well_formed m' /\
    width m' = width m /\ height m' = height m /\
    start m' = start m /\ end_ m' = end_ m /\
    forall c, get_cell_type m' c
              = if decide (x c = i /\ j <= y c) then wiped <$> get_cell_type m c
                else get_cell_type m c.
Proof.
  induction rows as [|rows IH]; intros j m Hwf Hi Hj Hrows.
  - exists m. do 6 (split; [done|]). intros c.
    destruct (decide _) as [[Hx Hy]|]; [|done].
    rewrite get_cell_type_outside; [done|done|]. unfold in_grid. lia.
  - cbn [reload_column].
    destruct (reload_cell_spec m i j Hwf Hi) as (m1 & -> & Hwf1 & Hw1 & Hh1 & Hs1 & He1 & Hg1);
      [lia|].
    destruct (IH (j + 1) m1) as (m' & -> & Hwf' & Hw' & Hh' & Hs' & He' & Hg'); [done|lia|lia|lia|].
    exists m'. split; [done|]. split; [done|].
    do 4 (split; [congruence|]). intros c. rewrite Hg', Hg1.
    destruct c as [cx cy]. cbn [x y].
    destruct (decide (cx = i /\ j + 1 <= cy)) as [[-> Hy]|Hn1].
    + rewrite decide_False by (intros [= ->]; lia).
      rewrite decide_True; [done|lia].
    + destruct (decide ({| x := cx; y := cy |} = {| x := i; y := j |})) as [[= -> ->]|Hn2].
      * rewrite decide_True; [done|lia].
      * rewrite decide_False; [done|]. intros [-> Hy]. apply Hn1. split; [done|].
        destruct (decide (cy = j)) as [->|]; [done|lia].
Qed.

Lemma reload_columns_spec columns : forall i m,
  well_formed m -> 0 <= i -> i + Z.of_nat columns = width m ->
  exists m', reload_columns columns i m = Some m' /\ well_formed m' /\
    width m' = width m /\ height m' = height m /\
    start m' = start m /\ end_ m' = end_ m /\
    forall c, get_cell_type m' c
              = if decide (i <= x c) then wiped <$> get_cell_type m c
                else get_cell_type m c.
Proof.
  induction columns as [|columns IH]; intros i m Hwf Hi Hcols.
  - exists m. do 6 (split; [done|]). intros c.
    destruct (decide _) as [Hx|]; [|done].
    rewrite get_cell_type_outside; [done|done|]. unfold in_grid. lia.
  - cbn [reload_columns].
    assert (Hh : 0 <= height m).
    { destruct Hwf as [Hlen Hall]. destruct (maze m) as [|column others] eqn:Hm.
      - simpl in Hlen. lia.
      - apply Forall_cons in Hall as [Hl _]. lia. }
    destruct (reload_column_spec i (Z.to_nat (height m)) 0 m)
      as (m1 & -> & Hwf1 & Hw1 & Hh1 & Hs1 & He1 & Hg1); [done|lia|lia|lia|].
    destruct (IH (i + 1) m1) as (m' & -> & Hwf' & Hw' & Hh' & Hs' & He' & Hg'); [done|lia|lia|].
    exists m'. split; [done|]. split; [done|].
    do 4 (split; [congruence|]). intros c. rewrite Hg', Hg1.
    destruct (decide (i + 1 <= x c)).
    + rewrite decide_False by lia. rewrite decide_True; [done|lia].
    + destruct (decide (x c = i /\ 0 <= y c)) as [[Hx Hy]|Hn].
      * rewrite decide_True; [done|lia].
      * destruct (decide (i <= x c)); [|done].
        rewrite (get_cell_type_outside m c); [done|done|]. unfold in_grid. lia.
Qed.

(** The whole of [reload] on a well-formed maze. *)
Lemma reload_spec m :
  well_formed m ->
  exists m', reload m = Some m' /\ well_formed m' /\
    width m' = width m /\ height m' = height m /\
    start m' = start m /\ end_ m' = end_ m /\
    forall c, get_cell_type m' c = wiped <$> get_cell_type m c.
Proof.
  intros Hwf. unfold reload.
  destruct (reload_columns_spec (Z.to_nat (width m)) 0 m)
    as (m' & -> & Hwf' & Hw' & Hh' & Hs' & He' & Hg'); [done|lia| |].
  { destruct Hwf as [Hlen _]. lia. }
  exists m'. do 6 (split; [done|]). intros c. rewrite Hg'.
  destruct (decide (0 <= x c)); [done|].
  rewrite get_cell_type_outside; [done|done|]. unfold in_grid. lia.
Qed.

(** Two well-formed mazes with the same fields and the same cells are equal. *)
Lemma maze_ext m m' :
  well_formed m -> well_formed m' ->
  width m = width m' -> height m = height m' ->
  start m = start m' -> end_ m = end_ m' ->
  (forall c, get_cell_type m c = get_cell_type m' c) -> m = m'.
Proof.
  intros [Hlen Hcols] [Hlen' Hcols'] Hw Hh Hs He Hg.
  destruct m as [h w cells s e], m' as [h' w' cells' s' e']. simpl in *. subst.
  f_equal; [done|]. apply list_eq. intros i.
  destruct (cells !! i) as [column|] eqn:Hc.
  - destruct (lookup_lt_is_Some_2 cells' i) as [column' Hc'].
    { apply lookup_lt_Some in Hc. lia. }
    rewrite Hc'. f_equal. apply list_eq. intros j.
    specialize (Hg {| x := Z.of_nat i; y := Z.of_nat j |}).
    unfold get_cell_type, js_get in Hg. cbn [maze x y] in Hg.
    destruct (Z.ltb_spec (Z.of_nat i) 0); [lia|]. rewrite Nat2Z.id, Hc, Hc' in Hg.
    destruct (Z.ltb_spec (Z.of_nat j) 0); [lia|]. by rewrite Nat2Z.id in Hg.
  - symmetry. apply lookup_ge_None. apply lookup_ge_None in Hc. lia.
Qed.

(** X12.  On a cell matrix of the stated dimensions [reload] raises no
    error and turns every ACTIVE or EXPLORED cell into FLOOR, leaving FLOOR
    and WALL cells, the dimensions, start and end as they are; afterwards no
    cell is ACTIVE or EXPLORED, and a second [reload] changes nothing. *)
Theorem reload_wipes_search_marks m :
  well_formed m ->
  exists m', reload m = Some m' /\ well_formed m' /\
    width m' = width m /\ height m' = height m /\
    start m' = start m /\ end_ m' = end_ m /\
    (forall c, get_cell_type m' c = wiped <$> get_cell_type m c) /\
    (forall c, get_cell_type m' c <> Some ACTIVE /\ get_cell_type m' c <> Some EXPLORED) /\
    reload m' = Some m'.
Proof.
  intros Hwf.
  destruct (reload_spec m Hwf) as (m' & Hr & Hwf' & Hw & Hh & Hs & He & Hg).
  exists m'. do 7 (split; [done|]).
  split.
  - intros c. rewrite Hg. by destruct (get_cell_type m c) as [[]|].
  - destruct (reload_spec m' Hwf') as (m2 & Hr2 & Hwf2 & Hw2 & Hh2 & Hs2 & He2 & Hg2).
    rewrite Hr2. f_equal. apply maze_ext; try done.
    intros c. rewrite Hg2, Hg. by destruct (get_cell_type m c) as [[]|].
Qed.

(** ** Restarting after a search *)

Section ExpandWipe.
Context {F : Type}.
Variable enqueue : F -> Coordinate -> searched_cell -> F.
Variable nodes : F -> list searched_cell.
Hypothesis nodes_enqueue : forall frontier a position,
  nodes (enqueue frontier a position) ≡ₚ Build_searched_cell a (Some position) :: nodes frontier.

Lemma expand_wipe m0 m position others frontier final m' frontier' final' :
  same_after_wipe m0 m (position :: others ++ nodes frontier) ->
  expand enqueue m frontier final position = (m', frontier', final') ->
  same_after_wipe m0 m' (others ++ nodes frontier').
Proof.
  intros (Hwf & Hw & Hh & Hs & He & Hcells & Hqueue) Hex.
  destruct (expand_fields enqueue nodes nodes_enqueue _ _ _ _ _ _ _ Hex)
    as (Hw' & Hh' & Hs' & He' & Hwf').
  split; [by apply Hwf'|]. do 4 (split; [congruence|]).
  assert (Hpos : wiped <$> get_cell_type m (coord position) = Some FLOOR).
  { rewrite Hcells. apply Hqueue. by left. }
  split.
  - intros c. rewrite <- Hcells.
    pose proof (expand_cells enqueue nodes nodes_enqueue _ _ _ _ _ _ _ c Hex) as Hc.
    destruct Hc as [->|[[-> ->]|[[-> ->]|(_ & -> & -> & _)]]]; done.
  - revert Hex. unfold expand.
    destruct (visit _ _ _ _ _ _) as [[m2 frontier2] final2] eqn:Hv.
    intros [= <- <- <-].
    destruct (visit_spec enqueue nodes nodes_enqueue _ _ _ _ _ _ _ _ Hv)
      as (news & Hperm & _ & Hnews & _).
    intros n Hn. apply elem_of_app in Hn as [Hn|Hn].
    { apply Hqueue. right. apply elem_of_app. by left. }
    rewrite Hperm in Hn. apply elem_of_app in Hn as [Hn|Hn].
    2:{ apply Hqueue. right. apply elem_of_app. by right. }
    apply list_elem_of_fmap in Hn as (a & -> & Ha). cbn [coord].
    destruct (Hnews a Ha) as (_ & Hg & _).
    destruct (decide (a = coord position)) as [->|Hne].
    + by rewrite <- Hcells.
    + rewrite get_set_cell_type_ne in Hg by done. by rewrite <- Hcells, Hg.
Qed.
End ExpandWipe.

Lemma same_after_wipe_subqueue m0 m queue queue' :
  queue' ⊆ queue -> same_after_wipe m0 m queue -> same_after_wipe m0 m queue'.
Proof.
  intros Hsub (Hwf & Hw & Hh & Hs & He & Hcells & Hqueue).
  do 6 (split; [done|]). intros n Hn. by apply Hqueue, Hsub.
Qed.

Lemma GBFS_step_wipe m0 (g : GBFS.t) :
  same_after_wipe m0 (maze_of g) (queue_of g) ->
  same_after_wipe m0 (maze_of (step_of g)) (queue_of (step_of g)).
Proof.
  unfold maze_of. cbn. intros Hinv. unfold GBFS.step.
  destruct (end_ (the_maze (GBFS.alg g))) as [e|]; [|done].
  destruct (interval_code (GBFS.alg g)); [|done].
  destruct (is_paused (GBFS.alg g)); [done|].
  destruct (GBFS.search_frontier g) as [|frontier_element rest] eqn:Hf; [by rewrite Hf|].
  destruct (expand _ _ _ _ _) as [[m' frontier'] final'] eqn:Hex. cbn.
  by eapply (expand_wipe (GBFS.enqueue e) (fmap GBFS.cell) (GBFS_nodes_enqueue e)
               m0 _ _ [] rest).
Qed.

Lemma ASTAR_step_wipe m0 (g : ASTAR.t) :
  same_after_wipe m0 (maze_of g) (queue_of g) ->
  same_after_wipe m0 (maze_of (step_of g)) (queue_of (step_of g)).
Proof.
  unfold maze_of. cbn. intros Hinv. unfold ASTAR.step.
  destruct (end_ (the_maze (ASTAR.alg g))) as [e|]; [|done].
  destruct (interval_code (ASTAR.alg g)); [|done].
  destruct (is_paused (ASTAR.alg g)); [done|].
  destruct (ASTAR.search_frontier g) as [|frontier_element rest] eqn:Hf; [by rewrite Hf|].
  destruct (expand _ _ _ _ _) as [[m' frontier'] final'] eqn:Hex. cbn.
  by eapply (expand_wipe _ (fmap ASTAR.cell)
               (ASTAR_nodes_enqueue (the_maze (ASTAR.alg g)) frontier_element)
               m0 _ _ [] rest).
Qed.

Lemma BFS_step_wipe m0 (b : BFS.t) :
  same_after_wipe m0 (maze_of b) (queue_of b) ->
  same_after_wipe m0 (maze_of (step_of b)) (queue_of (step_of b)).
Proof.
  unfold maze_of. cbn. intros Hinv. unfold BFS.step.
  destruct (bool_decide _); [done|]. destruct (is_paused _); [done|].
  destruct (BFS.iterator b) as [|value rest] eqn:Hit.
  - destruct (BFS.next_search_frontier b) as [|value rest] eqn:Hnf; cbn.
    + done.
    + destruct (search_ended (BFS.alg b)); cbn.
      * eapply same_after_wipe_subqueue; [|exact Hinv].
        intros n Hn. rewrite app_nil_r in Hn. by right.
      * destruct (expand _ _ _ _ _) as [[m' frontier'] final'] eqn:Hex. cbn.
        eapply (expand_wipe BFS.push (fun l => l) BFS_nodes_push m0 _ _ rest []);
          [|exact Hex]. by rewrite app_nil_r.
  - cbn. destruct (search_ended (BFS.alg b)); cbn.
    + eapply same_after_wipe_subqueue; [|exact Hinv].
      intros n Hn. by right.
    + destruct (expand _ _ _ _ _) as [[m' frontier'] final'] eqn:Hex. cbn.
      by eapply (expand_wipe BFS.push (fun l => l) BFS_nodes_push m0 _ _ rest).
Qed.

Lemma same_after_wipe_started m0 s :
  well_formed m0 -> start m0 = Some s -> in_grid m0 s ->
  get_cell_type m0 s <> Some WALL ->
  same_after_wipe m0 m0 [Build_searched_cell s None].
Proof.
  intros Hwf Hs Hin Hwall. do 6 (split; [done|]).
  intros n ->%list_elem_of_singleton. cbn [coord].
  destruct (in_grid_get_cell_type m0 s Hwf Hin) as [v Hv]. rewrite Hv in *.
  by destruct v.
Qed.

Lemma same_after_wipe_reload m0 m queue :
  well_formed m0 -> same_after_wipe m0 m queue -> reload m = reload m0.
Proof.
  intros Hwf0 (Hwf & Hw & Hh & Hs & He & Hcells & _).
  destruct (reload_spec m Hwf) as (m' & -> & Hwf' & Hw' & Hh' & Hs' & He' & Hg').
  destruct (reload_spec m0 Hwf0) as (m0' & -> & Hwf0' & Hw0' & Hh0' & Hs0' & He0' & Hg0').
  f_equal. apply maze_ext; [done|done|congruence|congruence|congruence|congruence|].
  intros c. by rewrite Hg', Hg0'.
Qed.

Section WipeRuns.
Context {A : Type} `{Strategy A}.
Variable m0 : Maze.
Hypothesis step_wipe : forall st : A,
  same_after_wipe m0 (maze_of st) (queue_of st) ->
  same_after_wipe m0 (maze_of (step_of st)) (queue_of (step_of st)).
Hypothesis started_wipe :
  same_after_wipe m0 (maze_of (started_of m0)) (queue_of (started_of m0)).

Lemma same_after_wipe_at n :
  same_after_wipe m0 (maze_of (state_at m0 n)) (queue_of (state_at m0 n)).
Proof. induction n as [|n IH]; [done|]. by apply step_wipe. Qed.
End WipeRuns.

(** X13.  Restarting wipes a search completely: whatever the strategy and
    however many steps it has made (also after it has ended), [reload] of
    the maze it worked on gives the same maze as [reload] of the maze it
    started from, provided the start is a cell of the grid and no WALL. *)
Theorem reload_after_search m0 s n :
  well_formed m0 -> start m0 = Some s -> in_grid m0 s ->
  get_cell_type m0 s <> Some WALL ->
  reload (maze_of (state_at (A := BFS.t) m0 n)) = reload m0 /\
  reload (maze_of (state_at (A := GBFS.t) m0 n)) = reload m0 /\
  reload (maze_of (state_at (A := ASTAR.t) m0 n)) = reload m0.
Proof.
  intros Hwf Hs Hin Hwall.
  pose proof (same_after_wipe_started m0 s Hwf Hs Hin Hwall) as H0.
  split; [|split].
  - eapply same_after_wipe_reload; [done|].
    apply (same_after_wipe_at (A := BFS.t) m0 (BFS_step_wipe m0)).
    unfold maze_of. cbn. unfold BFS.new. by rewrite Hs.
  - eapply same_after_wipe_reload; [done|].
    apply (same_after_wipe_at (A := GBFS.t) m0 (GBFS_step_wipe m0)).
    unfold maze_of. cbn. unfold GBFS.new. rewrite Hs.
    destruct (end_ m0); [done|].
    eapply same_after_wipe_subqueue; [|exact H0]. by intros n' Hn'%elem_of_nil.
  - eapply same_after_wipe_reload; [done|].
    apply (same_after_wipe_at (A := ASTAR.t) m0 (ASTAR_step_wipe m0)).
    unfold maze_of. cbn. unfold ASTAR.new. rewrite Hs.
    destruct (end_ m0); [done|].
    eapply same_after_wipe_subqueue; [|exact H0]. by intros n' Hn'%elem_of_nil.
Qed.

(** ** More about runs *)

(** A chain is the painted cells followed by the root. *)
Lemma chain_painted m0 s p :
  chain_ok m0 s p ->
  trail p = painted_from p ++ [s] /\
  length (painted_from p) = depth p /\
  Forall (fun c => get_cell_type m0 c = Some FLOOR) (painted_from p).
Proof.
  induction p as [c|c q IH] using searched_cell_ind.
  - simpl. intros ->. done.
  - simpl. intros (_ & Hfl & Hq). destruct (IH Hq) as (-> & -> & Hall).
    split; [done|]. split; [done|]. by constructor.
Qed.

Section MoreRunFacts.
Context {A : Type} {HS : Strategy A} {HL : StrategyLaws A}.
Variables (m0 : Maze) (s e : Coordinate).
Hypothesis m0_well_formed : well_formed m0.
Hypothesis m0_start : start m0 = Some s.
Hypothesis m0_end : end_ m0 = Some e.
Hypothesis m0_start_in_grid : in_grid m0 s.

Lemma run_picture n : ended (state_at m0 n) = false -> search_picture m0 s n.
Proof.
  intros Hn.
  destruct (run_inv_at m0 s e m0_well_formed m0_start m0_end m0_start_in_grid n Hn)
    as [(_ & _ & _ & Hinv) Hlen].
  destruct Hinv as [Hwf Hw Hh Hs He Hsg Hqnd Hend Hexp Hq Hunt Hch].
  split; [done|]. split.
  { apply NoDup_app. split; [done|]. split; [|done].
    intros c Hc. by destruct (Hexp c Hc) as (_ & ? & _). }
  split.
  { intros Hn0. destruct Hq as [(_ & Hnil & _)|[? _]]; [|done].
    rewrite Hnil in Hlen. simpl in Hlen. congruence. }
  split.
  { intros c Hc. destruct (Hexp c Hc) as (Hg & _ & H0 & _).
    split; [|done]. apply (get_cell_type_in_grid _ _ _ Hwf) in Hg.
    unfold in_grid in *. by rewrite <- Hw, <- Hh. }
  split; [|done].
  intros c Hc. destruct Hq as [(Hq & Hnil & _)|[_ Hq]].
  - left. rewrite Hnil in Hlen. rewrite Hq in Hc. simpl in *.
    apply list_elem_of_singleton in Hc. done.
  - right. apply list_elem_of_fmap in Hc as (node & -> & Hnode). by apply Hq.
Qed.

Hypothesis m0_end_floor : get_cell_type m0 e = Some FLOOR.

Lemma run_found_chain n node :
  (forall k, (k < n)%nat -> ended (state_at m0 k) = false) ->
  found (state_at m0 n) = Some node ->
  ended (state_at m0 n) = true /\
  chain_ok m0 s node /\
  exists position, node = Build_searched_cell e (Some position).
Proof.
  intros Hbefore Hfound.
  destruct n as [|n].
  { destruct (started_inv m0 s e m0_well_formed m0_start m0_end m0_start_in_grid)
      as (_ & Hnone & _).
    unfold state_at, iterate in Hfound. simpl in Hfound. congruence. }
  assert (Hn : ended (state_at m0 n) = false) by (apply Hbefore; lia).
  destruct (run_inv_at m0 s e m0_well_formed m0_start m0_end m0_start_in_grid n Hn)
    as [Hinv _].
  pose proof (step_inv _ _ _ _ Hinv) as (_ & _ & _ & Hcases).
  rewrite <- state_at_S in Hcases.
  destruct Hcases as [[_ (_ & Hf & _)]|[(_ & Hf & _)|(Hended & position & e' & _ & Hf & Hc & He & Hin)]];
    try congruence.
  assert (e' = e) as -> by congruence.
  assert (node = Build_searched_cell e (Some position)) as -> by congruence.
  split; [done|]. split; [|by exists position].
  simpl. split; [by apply neighbor_adjacent with m0|done].
Qed.

Lemma run_found_is_path : found_is_path m0 s e.
Proof.
  intros n node Hbefore Hfound.
  destruct (run_found_chain n node Hbefore Hfound) as (Hended & Hnode & position & ->).
  destruct (chain_ok_path _ _ _ Hnode) as [Hpath Hedges].
  split; [done|]. split; [done|]. split; [done|]. split; [done|]. simpl. lia.
Qed.

Lemma run_paints_between : paints_between m0 s e.
Proof.
  intros n node Hbefore Hfound.
  destruct (run_found_chain n node Hbefore Hfound) as (_ & Hnode & position & ->).
  destruct Hnode as (_ & _ & Hchain).
  destruct (chain_painted _ _ _ Hchain) as (Htrail & Hlen & Hfloor).
  unfold reconstruct, canvas_draw_path. cbn [trail prev_cell depth].
  split; [|split; [by rewrite Hlen|done]].
  rewrite Htrail. simpl. rewrite rev_app_distr. done.
Qed.

Lemma run_reports_no_path :
  (forall p, ~ path_between m0 s e p) -> reports_no_path m0.
Proof.
  intros Hno.
  destruct (run_ends m0 s e m0_well_formed m0_start m0_end m0_start_in_grid)
    as (n & Hends & Hbound).
  exists (S n). split; [done|]. split; [done|].
  intros k Hk. destruct (found (state_at m0 k)) as [node|] eqn:Hf; [|done].
  exfalso. destruct (run_found_is_path k node) as (_ & _ & Hp & _); [|done|].
  - intros i Hi. apply Hends. lia.
  - by apply (Hno (reconstruct node)).
Qed.
End MoreRunFacts.

(** X14.  Soundness of the three strategies on any grid whose end cell is
    FLOOR: a node recorded as found, up to the step at which the run ends,
    ends the run, lies on the end cell, and its chain of predecessors, read
    from the root, is a path of FLOOR cells from start to end with as many
    edges as the chain has links, at least one. *)
Theorem every_strategy_found_is_path m0 s e :
  well_formed m0 -> start m0 = Some s -> end_ m0 = Some e -> in_grid m0 s ->
  get_cell_type m0 e = Some FLOOR ->
  found_is_path (A := BFS.t) m0 s e /\
  found_is_path (A := GBFS.t) m0 s e /\
  found_is_path (A := ASTAR.t) m0 s e.
Proof. intros. split; [|split]; by apply run_found_is_path. Qed.

(** X15.  When no path of FLOOR cells leads from start to end (the end
    cell being FLOOR), each strategy ends within [width * height + 1] steps
    and has no found node at any step up to then. *)
Theorem every_strategy_reports_no_path m0 s e :
  well_formed m0 -> start m0 = Some s -> end_ m0 = Some e -> in_grid m0 s ->
  get_cell_type m0 e = Some FLOOR ->
  (forall p, ~ path_between m0 s e p) ->
  reports_no_path (A := BFS.t) m0 /\
  reports_no_path (A := GBFS.t) m0 /\
  reports_no_path (A := ASTAR.t) m0.
Proof. intros. split; [|split]; by apply run_reports_no_path with s e. Qed.

(** X16.  Greedy best-first search is complete on grids at least as wide
    as high: if the end differs from the start and a path of FLOOR cells
    exists, the run ends with a found node whose chain is a path of FLOOR
    cells from start to end. *)
Theorem GBFS_finds_a_path m0 s e p :
  well_formed m0 -> start m0 = Some s -> end_ m0 = Some e -> in_grid m0 s ->
  height m0 <= width m0 -> s <> e ->
  path_between m0 s e p ->
  finds_path (A := GBFS.t) m0 s e.
Proof. intros. by apply run_finds_path with p. Qed.

(** X17.  The maze during a search: after [n] steps of a run that has not
    ended, exactly [n] cells have been expanded, the start among them once
    [n > 0]; expanded and queued cells are all different; each expanded cell
    is a cell of the grid and EXPLORED; each queued cell is ACTIVE (before
    the first step, the start cell itself is queued); all other cells are
    as in the maze the run started from. *)
Theorem every_strategy_picture m0 s e n :
  well_formed m0 -> start m0 = Some s -> end_ m0 = Some e -> in_grid m0 s ->
  (ended (state_at (A := BFS.t) m0 n) = false -> search_picture (A := BFS.t) m0 s n) /\
  (ended (state_at (A := GBFS.t) m0 n) = false -> search_picture (A := GBFS.t) m0 s n) /\
  (ended (state_at (A := ASTAR.t) m0 n) = false -> search_picture (A := ASTAR.t) m0 s n).
Proof. intros. split; [|split]; intros Hn; by apply run_picture with e. Qed.

(** X18.  Once [search_ended] is set, further BFS steps change neither the
    maze nor the found node, and [search_ended] stays set. *)
Theorem BFS_frozen_after_end (b : BFS.t) k :
  search_ended (BFS.alg b) = true ->
  search_ended (BFS.alg (iterate BFS.step k b)) = true /\
  the_maze (BFS.alg (iterate BFS.step k b)) = the_maze (BFS.alg b) /\
  final_searched_cell (BFS.alg (iterate BFS.step k b)) = final_searched_cell (BFS.alg b).
Proof.
  intros Hb. induction k as [|k (IH1 & IH2 & IH3)]; [done|].
  rewrite iterate_S.
  destruct (BFS_step_after_end _ IH1) as (Hm & He & Hf).
  split; [done|]. split; congruence.
Qed.

Lemma BFS_frozen_after_end_witness :
  search_ended (BFS.alg (BFS.step (BFS.started open_3x3))) = true /\
  search_ended (BFS.alg (iterate BFS.step 5 (BFS.step (BFS.started open_3x3)))) = true /\
  the_maze (BFS.alg (iterate BFS.step 5 (BFS.step (BFS.started open_3x3))))
  = the_maze (BFS.alg (BFS.step (BFS.started open_3x3))) /\
  final_searched_cell (BFS.alg (iterate BFS.step 5 (BFS.step (BFS.started open_3x3))))
  = final_searched_cell (BFS.alg (BFS.step (BFS.started open_3x3))).
Proof.
  split; [reflexivity|].
  apply (BFS_frozen_after_end (BFS.step (BFS.started open_3x3)) 5). reflexivity.
Defined.

(** ** How the priority queues are filled *)

(** What [enqueue] preserves when called for the node being expanded still
    holds of the frontier after the expansion. *)
Lemma visit_preserves_at {F} (enqueue : F -> Coordinate -> searched_cell -> F)
    (P : F -> Prop) position adjacent :
  (forall frontier a, P frontier -> P (enqueue frontier a position)) ->
  forall m frontier final,
    P frontier -> P (visit enqueue m frontier final position adjacent).1.2.
Proof.
  intros Henq. induction adjacent as [|a rest IH]; intros m frontier final HP.
  - done.
  - simpl. destruct (coordinate_equals _ _); [done|].
    destruct (bool_decide _); apply IH; [by apply Henq|done].
Qed.

Lemma expand_preserves_at {F} (enqueue : F -> Coordinate -> searched_cell -> F)
    (P : F -> Prop) m frontier final position :
  (forall frontier a, P frontier -> P (enqueue frontier a position)) ->
  P frontier -> P (expand enqueue m frontier final position).1.2.
Proof.
  intros Henq HP. unfold expand.
  pose proof (visit_preserves_at enqueue P position
                (get_neighboring_coordinates (set_cell_type m (coord position) EXPLORED)
                   (coord position))
                Henq (set_cell_type m (coord position) EXPLORED)
                frontier final HP) as Hv.
  by destruct (visit _ _ _ _ _ _) as [[m2 frontier2] final2].
Qed.

Lemma ASTAR_enqueue_made s e m frontier_element frontier a position :
  end_ m = Some e ->
  ASTAR.length frontier_element = Z.of_nat (depth position) ->
  Forall (ASTAR_element_made s e) frontier ->
  Forall (ASTAR_element_made s e) (ASTAR.enqueue m frontier_element frontier a position).
Proof.
  intros He Hlen Hall.
  destruct (ASTAR_enqueue_element m e frontier_element frontier a position He) as [i ->].
  rewrite <- (take_drop i frontier) in Hall. apply Forall_app in Hall as [H1 H2].
  apply Forall_app. split; [done|]. constructor; [|done].
  split; cbn.
  - rewrite Hlen. lia.
  - do 2 f_equal. lia.
Qed.

Lemma ASTAR_step_made s e (g : ASTAR.t) :
  end_ (the_maze (ASTAR.alg g)) = Some e ->
  Forall (ASTAR_element_made s e) (ASTAR.search_frontier g) ->
  end_ (the_maze (ASTAR.alg (ASTAR.step g))) = Some e /\
  Forall (ASTAR_element_made s e) (ASTAR.search_frontier (ASTAR.step g)).
Proof.
  intros He Hall. unfold ASTAR.step. rewrite He.
  destruct (interval_code (ASTAR.alg g)); [|done].
  destruct (is_paused (ASTAR.alg g)); [done|].
  destruct (ASTAR.search_frontier g) as [|first rest] eqn:Hf; [by rewrite Hf|].
  apply Forall_cons in Hall as [[Hlen _] Hrest].
  pose proof (expand_preserves_at (ASTAR.enqueue (the_maze (ASTAR.alg g)) first)
                (Forall (ASTAR_element_made s e)) (the_maze (ASTAR.alg g)) rest
                (final_searched_cell (ASTAR.alg g)) (ASTAR.cell first)
                (fun f a => ASTAR_enqueue_made s e _ first f a _ He Hlen) Hrest)
    as Hp.
  pose proof (expand_fields (ASTAR.enqueue (the_maze (ASTAR.alg g)) first)
                (fmap ASTAR.cell)
                (ASTAR_nodes_enqueue (the_maze (ASTAR.alg g)) first)
                (the_maze (ASTAR.alg g)) rest
                (final_searched_cell (ASTAR.alg g)) (ASTAR.cell first)) as Hfields.
  destruct (expand _ _ _ _ _) as [[m' frontier'] final'].
  destruct (Hfields _ _ _ eq_refl) as (_ & _ & _ & He' & _).
  cbn. split; [congruence|done].
Qed.

(** X19.  Every element of the A* frontier, at every step of a run:
    its [length] is the number of [prev_cell] links of its node; the start
    element has priority distance(start, end); every other element has
    priority [(length - 1) + distance(end, cell)], the length being that of
    the element it was expanded from. *)
Theorem ASTAR_elements_made m0 s e n element :
  well_formed m0 -> start m0 = Some s -> end_ m0 = Some e -> in_grid m0 s ->
  element ∈ ASTAR.search_frontier (state_at (A := ASTAR.t) m0 n) ->
  ASTAR_element_made s e element.
Proof.
  intros _ Hs He _.
  assert (Hn : end_ (the_maze (ASTAR.alg (state_at (A := ASTAR.t) m0 n))) = Some e /\
               Forall (ASTAR_element_made s e)
                      (ASTAR.search_frontier (state_at (A := ASTAR.t) m0 n))).
  { induction n as [|n [IH1 IH2]].
    - unfold state_at. cbn. unfold ASTAR.new. rewrite Hs, He. cbn.
      split; [done|]. constructor; [|constructor]. done.
    - by apply ASTAR_step_made. }
  destruct Hn as [_ Hall]. intros Hin.
  by apply (proj1 (Forall_forall _ _) Hall).
Qed.

Lemma GBFS_step_made e (g : GBFS.t) :
  end_ (the_maze (GBFS.alg g)) = Some e ->
  Forall (fun element => GBFS.priority element
                         = euclidean_distance (coord (GBFS.cell element)) e)
         (GBFS.search_frontier g) ->
  end_ (the_maze (GBFS.alg (GBFS.step g))) = Some e /\
  Forall (fun element => GBFS.priority element
                         = euclidean_distance (coord (GBFS.cell element)) e)
         (GBFS.search_frontier (GBFS.step g)).
Proof.
  intros He Hall. unfold GBFS.step. rewrite He.
  destruct (interval_code (GBFS.alg g)); [|done].
  destruct (is_paused (GBFS.alg g)); [done|].
  destruct (GBFS.search_frontier g) as [|first rest] eqn:Hf; [by rewrite Hf|].
  apply Forall_cons in Hall as [_ Hrest].
  pose proof (expand_preserves (GBFS.enqueue e)
                (Forall (fun element => GBFS.priority element
                           = euclidean_distance (coord (GBFS.cell element)) e))
                (the_maze (GBFS.alg g)) rest
                (final_searched_cell (GBFS.alg g)) (GBFS.cell first)) as Hp.
  pose proof (expand_fields (GBFS.enqueue e) (fmap GBFS.cell) (GBFS_nodes_enqueue e)
                (the_maze (GBFS.alg g)) rest
                (final_searched_cell (GBFS.alg g)) (GBFS.cell first)) as Hfields.
  destruct (expand _ _ _ _ _) as [[m' frontier'] final'].
  destruct (Hfields _ _ _ eq_refl) as (_ & _ & _ & He' & _).
  cbn. split; [congruence|]. apply Hp; [|done].
  intros frontier a position Hfr. unfold GBFS.enqueue, splice.
  rewrite <- (take_drop (index_to_insert GBFS.priority frontier
                           (euclidean_distance a e)) frontier) in Hfr.
  apply Forall_app in Hfr as [H1 H2].
  apply Forall_app. split; [done|]. by constructor.
Qed.

(** X20.  Every element of the GBFS frontier, at every step of a run, has
    the distance from its cell to the end as priority. *)
Theorem GBFS_priority_is_distance m0 s e n element :
  well_formed m0 -> start m0 = Some s -> end_ m0 = Some e -> in_grid m0 s ->
  element ∈ GBFS.search_frontier (state_at (A := GBFS.t) m0 n) ->
  GBFS.priority element = euclidean_distance (coord (GBFS.cell element)) e.
Proof.
  intros _ Hs He _.
  assert (Hn : end_ (the_maze (GBFS.alg (state_at (A := GBFS.t) m0 n))) = Some e /\
               Forall (fun element => GBFS.priority element
                         = euclidean_distance (coord (GBFS.cell element)) e)
                      (GBFS.search_frontier (state_at (A := GBFS.t) m0 n))).
  { induction n as [|n [IH1 IH2]].
    - unfold state_at. cbn. unfold GBFS.new. rewrite Hs, He. cbn.
      split; [done|]. constructor; [|constructor]. done.
    - by apply GBFS_step_made. }
  destruct Hn as [_ Hall]. intros Hin.
  by apply (proj1 (Forall_forall _ _) Hall).
Qed.

(** X21.  On a maze without start or without end, the steps of GBFS and A*
    do nothing at all and the run never ends; BFS on a maze without start
    ends at its first step, touching no cell and finding nothing. *)
Theorem search_without_endpoints m0 n :
  start m0 = None \/ end_ m0 = None ->
  state_at (A := GBFS.t) m0 n = GBFS.started m0 /\
  ended (state_at (A := GBFS.t) m0 n) = false /\
  state_at (A := ASTAR.t) m0 n = ASTAR.started m0 /\
  ended (state_at (A := ASTAR.t) m0 n) = false /\
  (start m0 = None ->
   ended (state_at (A := BFS.t) m0 (S n)) = true /\
   maze_of (state_at (A := BFS.t) m0 (S n)) = m0 /\
   found (state_at (A := BFS.t) m0 (S n)) = None).
Proof.
  intros Hnone.
  assert (HG : state_at (A := GBFS.t) m0 n = GBFS.started m0).
  { unfold state_at. apply iterate_fixed. cbn.
    unfold GBFS.step, GBFS.started, GBFS.new. cbn.
    destruct (end_ m0); [|done]. destruct Hnone as [->|?]; done. }
  assert (HA : state_at (A := ASTAR.t) m0 n = ASTAR.started m0).
  { unfold state_at. apply iterate_fixed. cbn.
    unfold ASTAR.step, ASTAR.started, ASTAR.new. cbn.
    destruct (end_ m0); [|done]. destruct Hnone as [->|?]; done. }
  rewrite HG, HA. do 4 (split; [done|]).
  clear HG HA Hnone. intros Hs. induction n as [|n (IH1 & IH2 & IH3)].
  - unfold state_at, iterate. cbn. unfold BFS.step, BFS.started, BFS.new. cbn.
    rewrite Hs. cbn. done.
  - change (state_at (A := BFS.t) m0 (S (S n)))
      with (BFS.step (state_at (A := BFS.t) m0 (S n))).
    unfold ended, maze_of, found in *. cbn in *.
    destruct (BFS_step_after_end _ IH1) as (Hm & He & Hf).
    split; [done|]. split; congruence.
Qed.

Lemma search_without_endpoints_witness :
  (start blank_2x2 = None \/ end_ blank_2x2 = None) /\
  state_at (A := GBFS.t) blank_2x2 3 = GBFS.started blank_2x2 /\
  ended (state_at (A := GBFS.t) blank_2x2 3) = false /\
  state_at (A := ASTAR.t) blank_2x2 3 = ASTAR.started blank_2x2 /\
  ended (state_at (A := ASTAR.t) blank_2x2 3) = false /\
  (start blank_2x2 = None ->
   ended (state_at (A := BFS.t) blank_2x2 (S 3)) = true /\
   maze_of (state_at (A := BFS.t) blank_2x2 (S 3)) = blank_2x2 /\
   found (state_at (A := BFS.t) blank_2x2 (S 3)) = None).
Proof.
  assert (H0 : start blank_2x2 = None \/ end_ blank_2x2 = None) by (left; reflexivity).
  split; [done|].
  apply (search_without_endpoints blank_2x2 3); done.
Defined.

(** X22.  For a found node, [canvas_draw_path] paints exactly the cells of
    the reconstructed path that lie strictly between start and end, starting
    next to the end; there is one such cell less than the path has edges,
    and each is a FLOOR cell of the maze the run started from. *)
Theorem every_strategy_paints_between m0 s e :
  well_formed m0 -> start m0 = Some s -> end_ m0 = Some e -> in_grid m0 s ->
  get_cell_type m0 e = Some FLOOR ->
  paints_between (A := BFS.t) m0 s e /\
  paints_between (A := GBFS.t) m0 s e /\
  paints_between (A := ASTAR.t) m0 s e.
Proof. intros. split; [|split]; by apply run_paints_between. Qed.

(** ** Editing the maze *)

Lemma onmousedown_plain c m click_event :
  idle click_event -> start m <> Some c -> end_ m <> Some c ->
  onmousedown false c m click_event
  = {| mouse_down := true; start_coordinate := c;
       is_dragging_start := false; is_dragging_end := false |}.
Proof.
  intros (Hd & Hs & He) Hns Hne. unfold onmousedown. rewrite Hd, Hs, He. cbn.
  rewrite (proj2 (coordinate_equals_false _ _) Hns).
  by rewrite (proj2 (coordinate_equals_false _ _) Hne).
Qed.

Lemma click_spec m click_event c v :
  well_formed m -> idle click_event ->
  start m <> Some c -> end_ m <> Some c -> get_cell_type m c = Some v ->
  onmouseup c m (onmousedown false c m click_event)
  = Some (set_cell_type m c (if bool_decide (v = FLOOR) then WALL else FLOOR),
          {| mouse_down := false; start_coordinate := c;
             is_dragging_start := false; is_dragging_end := false |}).
Proof.
  intros Hwf Hidle Hns Hne Hv. rewrite onmousedown_plain by done.
  unfold onmouseup. cbn.
  rewrite (proj2 (coordinate_equals_true _ _) eq_refl). by rewrite Hv.
Qed.

(** X23.  A press and a release over the same cell of the grid, neither
    start nor end, while no strategy is set: a FLOOR cell becomes WALL, any
    other cell FLOOR; nothing else changes and no button is held afterwards.
    A second click on a cell that was FLOOR or WALL gives back the maze as
    it was. *)
Theorem click_toggles_cell m click_event c :
  well_formed m -> in_grid m c -> idle click_event ->
  start m <> Some c -> end_ m <> Some c ->
  exists m' click_event',
    onmouseup c m (onmousedown false c m click_event) = Some (m', click_event') /\
    idle click_event' /\ well_formed m' /\
    width m' = width m /\ height m' = height m /\
    start m' = start m /\ end_ m' = end_ m /\
    get_cell_type m' c
    = Some (if bool_decide (get_cell_type m c = Some FLOOR) then WALL else FLOOR) /\
    (forall c', c' <> c -> get_cell_type m' c' = get_cell_type m c') /\
    (get_cell_type m c = Some FLOOR \/ get_cell_type m c = Some WALL ->
     exists click_event'',
       onmouseup c m' (onmousedown false c m' click_event') = Some (m, click_event'')).
Proof.
  intros Hwf Hin Hidle Hns Hne.
  destruct (in_grid_get_cell_type m c Hwf Hin) as [v Hv].
  rewrite (click_spec m click_event c v) by done.
  set (v' := if bool_decide (v = FLOOR) then WALL else FLOOR).
  eexists _, _. split; [done|]. split; [done|].
  split; [by apply set_cell_type_well_formed|].
  rewrite set_cell_type_width, set_cell_type_height, set_cell_type_start,
    set_cell_type_end.
  do 4 (split; [done|]).
  assert (Hv' : get_cell_type (set_cell_type m c v') c = Some v')
    by by apply get_set_cell_type_eq with v.
  split.
  { rewrite Hv', Hv. unfold v'. destruct v; done. }
  split; [intros c' Hc'; by apply get_set_cell_type_ne|].
  intros Hfw.
  rewrite (click_spec (set_cell_type m c v') _ c v');
    [|by apply set_cell_type_well_formed|done
     |by rewrite set_cell_type_start|by rewrite set_cell_type_end|done].
  eexists. do 2 f_equal. apply maze_ext.
  - by do 2 apply set_cell_type_well_formed.
  - done.
  - by rewrite !set_cell_type_width.
  - by rewrite !set_cell_type_height.
  - by rewrite !set_cell_type_start.
  - by rewrite !set_cell_type_end.
  - intros c'. destruct (decide (c' = c)) as [->|Hc'].
    + rewrite (get_set_cell_type_eq _ _ _ _ Hv'), Hv. unfold v'.
      destruct Hfw as [Hf|Hw]; rewrite Hv in *; injection Hf || injection Hw;
        intros ->; done.
    + by rewrite !get_set_cell_type_ne.
Qed.

(** X24.  A press over the start cell and a release over a cell [c] of the
    grid, while no strategy is set: [c] becomes the start and FLOOR, and the
    state [c] had goes to the old start cell (nothing changes when [c] is
    the old start cell); the end and all other cells stay. *)
Theorem drag_moves_start m click_event s c :
  well_formed m -> start m = Some s -> in_grid m s -> in_grid m c ->
  idle click_event ->
  exists m' click_event',
    onmouseup c m (onmousedown false s m click_event) = Some (m', click_event') /\
    idle click_event' /\ well_formed m' /\
    width m' = width m /\ height m' = height m /\
    start m' = Some c /\ end_ m' = end_ m /\
    (forall c', get_cell_type m' c'
                = if decide (c' = s) then get_cell_type m c
                  else if decide (c' = c) then Some FLOOR
                  else get_cell_type m c').
Proof.
  intros Hwf Hs Hins Hinc (Hd & Hds & Hde).
  destruct (in_grid_get_cell_type m c Hwf Hinc) as [v Hv].
  destruct (in_grid_get_cell_type m s Hwf Hins) as [w Hw].
  unfold onmousedown. rewrite Hd. cbn.
  rewrite (proj2 (coordinate_equals_true (start m) (Some s)) Hs).
  unfold onmouseup. cbn. rewrite Hs, Hv.
  eexists _, _. split; [done|]. split; [done|].
  assert (Hwf2 : well_formed (set_cell_type (set_cell_type m c FLOOR) s v))
    by by do 2 apply set_cell_type_well_formed.
  split; [exact Hwf2|].
  cbn. rewrite !set_cell_type_width, !set_cell_type_height, !set_cell_type_end.
  do 4 (split; [done|]).
  intros c'. unfold get_cell_type at 1. cbn [maze x y].
  change (get_cell_type (set_cell_type (set_cell_type m c FLOOR) s v) c' = 
          if decide (c' = s) then Some v
          else if decide (c' = c) then Some FLOOR else get_cell_type m c').
  assert (Hs1 : exists w1, get_cell_type (set_cell_type m c FLOOR) s = Some w1).
  { apply in_grid_get_cell_type; [by apply set_cell_type_well_formed|].
    unfold in_grid. by rewrite set_cell_type_width, set_cell_type_height. }
  destruct Hs1 as [w1 Hw1].
  destruct (decide (c' = s)) as [->|Hne].
  - by apply get_set_cell_type_eq with w1.
  - rewrite get_set_cell_type_ne by done.
    destruct (decide (c' = c)) as [->|Hne2].
    + by apply get_set_cell_type_eq with v.
    + by apply get_set_cell_type_ne.
Qed.

(** X25.  A press over the end cell (not also the start) and a release
    over a cell [c] of the grid, while no strategy is set: [c] becomes the
    end and FLOOR, and the state [c] had goes to the old end cell; the start
    and all other cells stay. *)
Theorem drag_moves_end m click_event e c :
  well_formed m -> end_ m = Some e -> start m <> Some e ->
  in_grid m e -> in_grid m c -> idle click_event ->
  exists m' click_event',
    onmouseup c m (onmousedown false e m click_event) = Some (m', click_event') /\
    idle click_event' /\ well_formed m' /\
    width m' = width m /\ height m' = height m /\
    start m' = start m /\ end_ m' = Some c /\
    (forall c', get_cell_type m' c'
                = if decide (c' = e) then get_cell_type m c
                  else if decide (c' = c) then Some FLOOR
                  else get_cell_type m c').
Proof.
  intros Hwf He Hse Hine Hinc (Hd & Hds & Hde).
  destruct (in_grid_get_cell_type m c Hwf Hinc) as [v Hv].
  unfold onmousedown. rewrite Hd. cbn.
  rewrite (proj2 (coordinate_equals_false (start m) (Some e)) Hse).
  rewrite (proj2 (coordinate_equals_true (end_ m) (Some e)) He).
  unfold onmouseup. cbn. rewrite Hds, He, Hv.
  eexists _, _. split; [done|]. split; [done|].
  assert (Hwf2 : well_formed (set_cell_type (set_cell_type m c FLOOR) e v))
    by by do 2 apply set_cell_type_well_formed.
  split; [exact Hwf2|].
  cbn. rewrite !set_cell_type_width, !set_cell_type_height, !set_cell_type_start.
  do 4 (split; [done|]).
  intros c'. unfold get_cell_type at 1. cbn [maze x y].
  change (get_cell_type (set_cell_type (set_cell_type m c FLOOR) e v) c' = 
          if decide (c' = e) then Some v
          else if decide (c' = c) then Some FLOOR else get_cell_type m c').
  assert (Hs1 : exists w1, get_cell_type (set_cell_type m c FLOOR) e = Some w1).
  { apply in_grid_get_cell_type; [by apply set_cell_type_well_formed|].
    unfold in_grid. by rewrite set_cell_type_width, set_cell_type_height. }
  destruct Hs1 as [w1 Hw1].
  destruct (decide (c' = e)) as [->|Hne].
  - by apply get_set_cell_type_eq with w1.
  - rewrite get_set_cell_type_ne by done.
    destruct (decide (c' = c)) as [->|Hne2].
    + by apply get_set_cell_type_eq with v.
    + by apply get_set_cell_type_ne.
Qed.

(** ** The end cell and the walls *)

Section ExpandEnd.
Context {F : Type}.
Variable enqueue : F -> Coordinate -> searched_cell -> F.
Variable nodes : F -> list searched_cell.
Hypothesis nodes_enqueue : forall frontier a position,
  nodes (enqueue frontier a position) ≡ₚ Build_searched_cell a (Some position) :: nodes frontier.

Lemma expand_end e m position others frontier final m' frontier' final' :
  end_untouched e m (position :: others ++ nodes frontier) ->
  expand enqueue m frontier final position = (m', frontier', final') ->
  end_untouched e m' (others ++ nodes frontier').
Proof.
  intros (He & Hfloor & Hqueue) Hex.
  destruct (expand_fields enqueue nodes nodes_enqueue _ _ _ _ _ _ _ Hex)
    as (_ & _ & _ & He' & _).
  assert (Hpos : coord position <> e) by (apply Hqueue; by left).
  revert Hex. unfold expand.
  destruct (visit _ _ _ _ _ _) as [[m2 frontier2] final2] eqn:Hv.
  intros [= <- <- <-].
  destruct (visit_spec enqueue nodes nodes_enqueue _ _ _ _ _ _ _ _ Hv)
    as (news & Hperm & _ & Hnews & Hcells & _).
  rewrite set_cell_type_end in Hnews.
  assert (Hnot : e ∉ news).
  { intros Hin. destruct (Hnews e Hin) as (_ & _ & Hne). congruence. }
  assert (H2 : get_cell_type m2 e = Some FLOOR).
  { rewrite Hcells, decide_False by done. by rewrite get_set_cell_type_ne. }
  split; [congruence|]. split.
  - destruct final2; [|done]. rewrite revert_active_spec.
    by destruct (decide _).
  - intros n Hn. apply elem_of_app in Hn as [Hn|Hn].
    { apply Hqueue. right. apply elem_of_app. by left. }
    rewrite Hperm in Hn. apply elem_of_app in Hn as [Hn|Hn].
    2:{ apply Hqueue. right. apply elem_of_app. by right. }
    apply list_elem_of_fmap in Hn as (a & -> & Ha). cbn [coord].
    by intros ->.
Qed.
End ExpandEnd.

Lemma end_untouched_subqueue e m queue queue' :
  queue' ⊆ queue -> end_untouched e m queue -> end_untouched e m queue'.
Proof.
  intros Hsub (He & Hfloor & Hqueue).
  do 2 (split; [done|]). intros n Hn. by apply Hqueue, Hsub.
Qed.

Lemma GBFS_step_end e (g : GBFS.t) :
  end_untouched e (maze_of g) (queue_of g) ->
  end_untouched e (maze_of (step_of g)) (queue_of (step_of g)).
Proof.
  unfold maze_of. cbn. intros Hinv. unfold GBFS.step.
  destruct (end_ (the_maze (GBFS.alg g))) as [e'|]; [|done].
  destruct (interval_code (GBFS.alg g)); [|done].
  destruct (is_paused (GBFS.alg g)); [done|].
  destruct (GBFS.search_frontier g) as [|frontier_element rest] eqn:Hf; [by rewrite Hf|].
  destruct (expand _ _ _ _ _) as [[m' frontier'] final'] eqn:Hex. cbn.
  by eapply (expand_end (GBFS.enqueue e') (fmap GBFS.cell) (GBFS_nodes_enqueue e')
               e _ _ [] rest).
Qed.

Lemma ASTAR_step_end e (g : ASTAR.t) :
  end_untouched e (maze_of g) (queue_of g) ->
  end_untouched e (maze_of (step_of g)) (queue_of (step_of g)).
Proof.
  unfold maze_of. cbn. intros Hinv. unfold ASTAR.step.
  destruct (end_ (the_maze (ASTAR.alg g))) as [e'|]; [|done].
  destruct (interval_code (ASTAR.alg g)); [|done].
  destruct (is_paused (ASTAR.alg g)); [done|].
  destruct (ASTAR.search_frontier g) as [|frontier_element rest] eqn:Hf; [by rewrite Hf|].
  destruct (expand _ _ _ _ _) as [[m' frontier'] final'] eqn:Hex. cbn.
  by eapply (expand_end _ (fmap ASTAR.cell)
               (ASTAR_nodes_enqueue (the_maze (ASTAR.alg g)) frontier_element)
               e _ _ [] rest).
Qed.

Lemma BFS_step_end e (b : BFS.t) :
  end_untouched e (maze_of b) (queue_of b) ->
  end_untouched e (maze_of (step_of b)) (queue_of (step_of b)).
Proof.
  unfold maze_of. cbn. intros Hinv. unfold BFS.step.
  destruct (bool_decide _); [done|]. destruct (is_paused _); [done|].
  destruct (BFS.iterator b) as [|value rest] eqn:Hit.
  - destruct (BFS.next_search_frontier b) as [|value rest] eqn:Hnf; cbn.
    + done.
    + destruct (search_ended (BFS.alg b)); cbn.
      * eapply end_untouched_subqueue; [|exact Hinv].
        intros n Hn. rewrite app_nil_r in Hn. by right.
      * destruct (expand _ _ _ _ _) as [[m' frontier'] final'] eqn:Hex. cbn.
        eapply (expand_end BFS.push (fun l => l) BFS_nodes_push e _ _ rest []);
          [|exact Hex]. by rewrite app_nil_r.
  - cbn. destruct (search_ended (BFS.alg b)); cbn.
    + eapply end_untouched_subqueue; [|exact Hinv].
      intros n Hn. by right.
    + destruct (expand _ _ _ _ _) as [[m' frontier'] final'] eqn:Hex. cbn.
      by eapply (expand_end BFS.push (fun l => l) BFS_nodes_push e _ _ rest).
Qed.

Section EndRuns.
Context {A : Type} `{Strategy A}.
Variables (m0 : Maze) (e : Coordinate).
Hypothesis step_end : forall st : A,
  end_untouched e (maze_of st) (queue_of st) ->
  end_untouched e (maze_of (step_of st)) (queue_of (step_of st)).
Hypothesis started_end :
  end_untouched e (maze_of (started_of m0)) (queue_of (started_of m0)).

Lemma end_untouched_at n :
  end_untouched e (maze_of (state_at m0 n)) (queue_of (state_at m0 n)).
Proof. induction n as [|n IH]; [done|]. by apply step_end. Qed.
End EndRuns.

(** X26.  No strategy ever marks the end cell: when the end cell is FLOOR
    and is not the start cell, it is still FLOOR after any number of steps
    of BFS, GBFS or A* (also after the run has ended). *)
Theorem end_cell_stays_floor m0 s e n :
  well_formed m0 -> start m0 = Some s -> end_ m0 = Some e -> in_grid m0 s ->
  s <> e -> get_cell_type m0 e = Some FLOOR ->
  get_cell_type (maze_of (state_at (A := BFS.t) m0 n)) e = Some FLOOR /\
  get_cell_type (maze_of (state_at (A := GBFS.t) m0 n)) e = Some FLOOR /\
  get_cell_type (maze_of (state_at (A := ASTAR.t) m0 n)) e = Some FLOOR.
Proof.
  intros _ Hs He _ Hne Hfloor.
  assert (H0 : forall node, coord node = s ->
            end_untouched e m0 [node]).
  { intros node Hnode. do 2 (split; [done|]).
    intros n' ->%list_elem_of_singleton. congruence. }
  split; [|split].
  - apply (end_untouched_at (A := BFS.t) m0 e (BFS_step_end e)).
    unfold maze_of. cbn. unfold BFS.new. rewrite Hs. by apply H0.
  - apply (end_untouched_at (A := GBFS.t) m0 e (GBFS_step_end e)).
    unfold maze_of. cbn. unfold GBFS.new. rewrite Hs, He. cbn. by apply H0.
  - apply (end_untouched_at (A := ASTAR.t) m0 e (ASTAR_step_end e)).
    unfold maze_of. cbn. unfold ASTAR.new. rewrite Hs, He. cbn. by apply H0.
Qed.

Lemma end_cell_stays_floor_witness :
  (well_formed corners_3x3 /\ start corners_3x3 = Some (at_ 0 0) /\
   end_ corners_3x3 = Some (at_ 2 2) /\ in_grid corners_3x3 (at_ 0 0) /\
   at_ 0 0 <> at_ 2 2 /\ get_cell_type corners_3x3 (at_ 2 2) = Some FLOOR) /\
  get_cell_type (maze_of (state_at (A := BFS.t) corners_3x3 9)) (at_ 2 2) = Some FLOOR /\
  get_cell_type (maze_of (state_at (A := GBFS.t) corners_3x3 9)) (at_ 2 2) = Some FLOOR /\
  get_cell_type (maze_of (state_at (A := ASTAR.t) corners_3x3 9)) (at_ 2 2) = Some FLOOR.
Proof.
  assert (Hne : at_ 0 0 <> at_ 2 2) by (unfold at_; congruence).
  assert (Hwf : well_formed corners_3x3) by (split; [reflexivity|repeat constructor]).
  assert (Hgrid : in_grid corners_3x3 (at_ 0 0)) by (unfold in_grid; simpl; lia).
  split; [done|].
  apply (end_cell_stays_floor corners_3x3 (at_ 0 0) (at_ 2 2) 9); done.
Defined.

(** X27.  Walls are neither made nor removed by a search: after any number
    of steps of BFS, GBFS or A* a cell is a WALL exactly if it was one in
    the maze the run started from, and dimensions, start and end are those
    of that maze (the start being a cell of the grid and no WALL). *)
Theorem walls_never_change m0 s n c :
  well_formed m0 -> start m0 = Some s -> in_grid m0 s ->
  get_cell_type m0 s <> Some WALL ->
  walls_as_in m0 c (maze_of (state_at (A := BFS.t) m0 n)) /\
  walls_as_in m0 c (maze_of (state_at (A := GBFS.t) m0 n)) /\
  walls_as_in m0 c (maze_of (state_at (A := ASTAR.t) m0 n)).
Proof.
  intros Hwf Hs Hin Hwall.
  pose proof (same_after_wipe_started m0 s Hwf Hs Hin Hwall) as H0.
  assert (Hun : forall m queue, same_after_wipe m0 m queue -> walls_as_in m0 c m).
  { intros m queue (Hwf' & Hw & Hh & Hs' & He' & Hcells & _).
    unfold walls_as_in. do 5 (split; [done|]).
    specialize (Hcells c).
    destruct (get_cell_type m c) as [[]|], (get_cell_type m0 c) as [[]|];
      simpl in Hcells; split; split; congruence. }
  split; [|split].
  - eapply Hun.
    apply (same_after_wipe_at (A := BFS.t) m0 (BFS_step_wipe m0)).
    unfold maze_of. cbn. unfold BFS.new. by rewrite Hs.
  - eapply Hun.
    apply (same_after_wipe_at (A := GBFS.t) m0 (GBFS_step_wipe m0)).
    unfold maze_of. cbn. unfold GBFS.new. rewrite Hs.
    destruct (end_ m0); [done|].
    eapply same_after_wipe_subqueue; [|exact H0]. by intros n' Hn'%elem_of_nil.
  - eapply Hun.
    apply (same_after_wipe_at (A := ASTAR.t) m0 (ASTAR_step_wipe m0)).
    unfold maze_of. cbn. unfold ASTAR.new. rewrite Hs.
    destruct (end_ m0); [done|].
    eapply same_after_wipe_subqueue; [|exact H0]. by intros n' Hn'%elem_of_nil.
Qed.

Lemma walls_never_change_witness :
  (well_formed detour_6x6 /\ start detour_6x6 = Some (at_ 1 0) /\
   in_grid detour_6x6 (at_ 1 0) /\ get_cell_type detour_6x6 (at_ 1 0) <> Some WALL) /\
  walls_as_in detour_6x6 (at_ 1 1) (maze_of (state_at (A := BFS.t) detour_6x6 7)) /\
  walls_as_in detour_6x6 (at_ 1 1) (maze_of (state_at (A := GBFS.t) detour_6x6 7)) /\
  walls_as_in detour_6x6 (at_ 1 1) (maze_of (state_at (A := ASTAR.t) detour_6x6 7)).
Proof.
  assert (Hwf : well_formed detour_6x6) by (split; [reflexivity|repeat constructor]).
  assert (Hin : in_grid detour_6x6 (at_ 1 0)) by (unfold in_grid; simpl; lia).
  assert (Hwall : get_cell_type detour_6x6 (at_ 1 0) <> Some WALL)
    by (vm_compute; congruence).
  split; [done|].
  apply (walls_never_change detour_6x6 (at_ 1 0) 7 (at_ 1 1)); done.
Defined.

(** ** A search that finds nothing *)

Lemma reach_path m s k c :
  reach m s k c -> exists p, path_between m s c p /\ edges p = k.
Proof.
  intros Hr. induction Hr as [|k u v Hr (p & (Hh & Hl & Hp) & Hk) Huv Hv].
  - exists [s]. done.
  - induction p as [|a q _] using rev_ind; [done|].
    rewrite last_snoc in Hl. injection Hl as ->.
    exists ((q ++ [u]) ++ [v]). split; [split; [|split]|].
    + by destruct q.
    + by rewrite last_snoc.
    + by apply floor_path_snoc.
    + unfold edges in *. rewrite !length_app in *. simpl in *. lia.
Qed.

Section FloodFacts.
Context {A : Type} {HS : Strategy A} {HL : StrategyLaws A}.
Variables (m0 : Maze) (s e : Coordinate).
Hypothesis m0_well_formed : well_formed m0.
Hypothesis m0_start : start m0 = Some s.
Hypothesis m0_end : end_ m0 = Some e.
Hypothesis m0_start_in_grid : in_grid m0 s.
Hypothesis m0_wide : height m0 <= width m0.
(** The cell a step expands is the cell of a queued node. *)
Hypothesis expanding_queued : forall st u,
  ready st -> expanding_of st = Some u -> exists node, node ∈ queue_of st /\ coord node = u.

Lemma expanded_reachable n :
  (forall k, (k < n)%nat -> ended (state_at m0 k) = false) ->
  forall c, c ∈ expanded_by m0 n -> exists k, reach m0 s k c.
Proof.
  induction n as [|n IH]; intros Hbefore c Hc.
  - by apply elem_of_nil in Hc.
  - rewrite expanded_by_S in Hc. apply elem_of_app in Hc as [Hc|Hc].
    { apply IH; [|done]. intros k Hk. apply Hbefore. lia. }
    assert (Hn : ended (state_at m0 n) = false) by (apply Hbefore; lia).
    destruct (run_inv_at m0 s e m0_well_formed m0_start m0_end m0_start_in_grid n Hn)
      as [(_ & _ & Hready & Hinv) _].
    destruct (expanding_of (state_at m0 n)) as [u|] eqn:Hu; [|by apply elem_of_nil in Hc].
    apply list_elem_of_singleton in Hc as ->.
    destruct (expanding_queued _ _ Hready Hu) as (node & Hnode & <-).
    exists (depth node). apply chain_ok_reach. by apply (inv_chains _ _ _ _ _ Hinv).
Qed.

Lemma run_floods_reachable : floods_reachable m0 s.
Proof.
  intros n Hends Hnone c.
  destruct n as [|n].
  { destruct Hends as [Hended _].
    destruct (started_inv m0 s e m0_well_formed m0_start m0_end m0_start_in_grid)
      as (Hfalse & _).
    unfold state_at, iterate in Hended. simpl in Hended. congruence. }
  pose proof (last_step m0 s e m0_well_formed m0_start m0_end m0_start_in_grid n Hends)
    as (_ & _ & _ & Hcases).
  rewrite <- state_at_S, <- expanded_by_S in Hcases.
  destruct Hcases as [[_ (He & _)]|[(_ & _ & Hinv)|(_ & position & e' & _ & Hf & _)]].
  - destruct Hends as [Hends _]. congruence.
  - split; [split|split].
    + intros Hc. destruct (expanded_reachable (S n) (proj2 Hends) c Hc) as [k Hk].
      destruct (reach_path _ _ _ _ Hk) as (p & Hp & _). by exists p.
    + intros (p & Hp%path_between_reach). by eapply exhausted_reach.
    + intros Hc. by destruct (inv_expanded _ _ _ _ _ Hinv c Hc) as (? & _).
    + intros Hc. apply (inv_untouched _ _ _ _ _ Hinv); [done|].
      simpl. by intros ?%elem_of_nil.
  - congruence.
Qed.
End FloodFacts.

Lemma BFS_expanding_queued (b : BFS.t) u :
  ready b -> expanding_of b = Some u -> exists node, node ∈ queue_of b /\ coord node = u.
Proof.
  cbn. unfold BFS.expanding. intros [Hi Hp] Hu.
  rewrite bool_decide_eq_false_2, Hp in Hu by done.
  destruct (BFS.iterator b) as [|value rest].
  - destruct (BFS.next_search_frontier b) as [|value rest]; [done|].
    destruct (search_ended _); [done|]. injection Hu as <-.
    exists value. split; [by left|done].
  - destruct (search_ended _); [done|]. injection Hu as <-.
    exists value. split; [by left|done].
Qed.

Lemma GBFS_expanding_queued (g : GBFS.t) u :
  ready g -> expanding_of g = Some u -> exists node, node ∈ queue_of g /\ coord node = u.
Proof.
  cbn. unfold GBFS.expanding. intros _ Hu.
  destruct (end_ _); [|done]. destruct (interval_code _); [|done].
  destruct (is_paused _); [done|].
  destruct (GBFS.search_frontier g) as [|first rest]; [done|]. injection Hu as <-.
  exists (GBFS.cell first). split; [by left|done].
Qed.

Lemma ASTAR_expanding_queued (g : ASTAR.t) u :
  ready g -> expanding_of g = Some u -> exists node, node ∈ queue_of g /\ coord node = u.
Proof.
  cbn. unfold ASTAR.expanding. intros _ Hu.
  destruct (end_ _); [|done]. destruct (interval_code _); [|done].
  destruct (is_paused _); [done|].
  destruct (ASTAR.search_frontier g) as [|first rest]; [done|]. injection Hu as <-.
  exists (ASTAR.cell first). split; [by left|done].
Qed.

(** X28.  A search that finds nothing has flooded what can be reached: on a
    grid at least as wide as high, when a run of BFS, GBFS or A* ends
    without a found node, the cells it expanded are exactly the cells to
    which a path of FLOOR cells leads from the start (the start included);
    they are all EXPLORED, and every other cell is as it was. *)
Theorem every_strategy_floods_reachable m0 s e :
  well_formed m0 -> start m0 = Some s -> end_ m0 = Some e -> in_grid m0 s ->
  height m0 <= width m0 ->
  floods_reachable (A := BFS.t) m0 s /\
  floods_reachable (A := GBFS.t) m0 s /\
  floods_reachable (A := ASTAR.t) m0 s.
Proof.
  intros. split; [|split]; apply run_floods_reachable with e; try done.
  - apply BFS_expanding_queued.
  - apply GBFS_expanding_queued.
  - apply ASTAR_expanding_queued.
Qed.

Lemma every_strategy_floods_reachable_witness :
  (well_formed walled_3x1 /\ start walled_3x1 = Some (at_ 0 0) /\
   end_ walled_3x1 = Some (at_ 2 0) /\ in_grid walled_3x1 (at_ 0 0) /\
   height walled_3x1 <= width walled_3x1) /\
  floods_reachable (A := BFS.t) walled_3x1 (at_ 0 0) /\
  floods_reachable (A := GBFS.t) walled_3x1 (at_ 0 0) /\
  floods_reachable (A := ASTAR.t) walled_3x1 (at_ 0 0).
Proof.
  assert (Hwf : well_formed walled_3x1) by (split; [reflexivity|repeat constructor]).
  assert (Hin : in_grid walled_3x1 (at_ 0 0)) by (unfold in_grid; simpl; lia).
  assert (Hhw : height walled_3x1 <= width walled_3x1) by (simpl; lia).
  split; [done|].
  apply (every_strategy_floods_reachable walled_3x1 (at_ 0 0) (at_ 2 0)); done.
Defined.

(** ** Found paths do not cross themselves *)

Section ExpandChildren.
Context {F : Type}.
Variable enqueue : F -> Coordinate -> searched_cell -> F.
Variable nodes : F -> list searched_cell.
Hypothesis nodes_enqueue : forall frontier a position,
  nodes (enqueue frontier a position) ≡ₚ Build_searched_cell a (Some position) :: nodes frontier.

Lemma expand_children m frontier final position m' frontier' final' :
  expand enqueue m frontier final position = (m', frontier', final') ->
  (forall n, n ∈ nodes frontier' ->
     n ∈ nodes frontier \/
     exists a, n = Build_searched_cell a (Some position) /\
               a <> coord position /\
               get_cell_type m a = Some FLOOR) /\
  (final' = final \/ exists a, final' = Some (Build_searched_cell a (Some position))).
Proof.
  unfold expand.
  destruct (visit _ _ _ _ _ _) as [[m2 frontier2] final2] eqn:Hv.
  intros [= <- <- <-].
  destruct (visit_spec enqueue nodes nodes_enqueue _ _ _ _ _ _ _ _ Hv)
    as (news & Hperm & _ & Hnews & _ & _ & _ & _ & _ & _ & Hfin).
  split.
  - intros n Hn. rewrite Hperm in Hn. apply elem_of_app in Hn as [Hn|Hn]; [|by left].
    right. apply list_elem_of_fmap in Hn as (a & -> & Ha). exists a. split; [done|].
    destruct (Hnews a Ha) as (_ & Hg & _).
    assert (Hne : a <> coord position).
    { intros ->. destruct (get_cell_type m (coord position)) as [w|] eqn:Hw.
      - rewrite (get_set_cell_type_eq _ _ _ _ Hw) in Hg. congruence.
      - apply (get_set_cell_type_None m (coord position) (coord position) EXPLORED) in Hw.
        congruence. }
    split; [done|]. by rewrite get_set_cell_type_ne in Hg.
  - destruct Hfin as [[-> _]|(a & _ & _ & ->)]; [by left|]. right. by exists a.
Qed.
End ExpandChildren.

Lemma GBFS_step_children (g : GBFS.t) : ready g -> step_children g.
Proof.
  cbn. intros (Hi & Hp & He & Hf).
  destruct (end_ (the_maze (GBFS.alg g))) as [e|] eqn:Hee; [|done].
  destruct (GBFS.search_frontier g) as [|first rest] eqn:Hfe; [done|].
  destruct (GBFS_step_ready g e first rest Hee Hi Hp Hfe) as [Hexg Hstep].
  destruct (expand (GBFS.enqueue e) (the_maze (GBFS.alg g)) rest
              (final_searched_cell (GBFS.alg g)) (GBFS.cell first))
    as [[m' frontier'] final'] eqn:Hex.
  destruct (Hstep _ _ _ eq_refl) as (Hm & Hfr & Hfi & _).
  destruct (expand_children (GBFS.enqueue e) (fmap GBFS.cell) (GBFS_nodes_enqueue e)
              _ _ _ _ _ _ _ Hex) as [Hnodes Hfinal].
  right. exists (GBFS.cell first). unfold found, maze_of. cbn.
  rewrite Hfe, Hfr, Hfi. split; [by left|]. split; [done|]. split; [|done].
  intros n Hn. destruct (Hnodes n Hn) as [Hold|Hnew]; [|by right].
  left. by right.
Qed.

Lemma ASTAR_step_children (g : ASTAR.t) : ready g -> step_children g.
Proof.
  cbn. intros (Hi & Hp & He & Hf).
  destruct (end_ (the_maze (ASTAR.alg g))) as [e|] eqn:Hee; [|done].
  destruct (ASTAR.search_frontier g) as [|first rest] eqn:Hfe; [done|].
  destruct (ASTAR_step_ready g e first rest Hee Hi Hp Hfe) as [Hexg Hstep].
  destruct (expand (ASTAR.enqueue (the_maze (ASTAR.alg g)) first) (the_maze (ASTAR.alg g))
              rest (final_searched_cell (ASTAR.alg g)) (ASTAR.cell first))
    as [[m' frontier'] final'] eqn:Hex.
  destruct (Hstep _ _ _ eq_refl) as (Hm & Hfr & Hfi & _).
  destruct (expand_children (ASTAR.enqueue (the_maze (ASTAR.alg g)) first)
              (fmap ASTAR.cell) (ASTAR_nodes_enqueue (the_maze (ASTAR.alg g)) first)
              _ _ _ _ _ _ _ Hex) as [Hnodes Hfinal].
  right. exists (ASTAR.cell first). unfold found, maze_of. cbn.
  rewrite Hfe, Hfr, Hfi. split; [by left|]. split; [done|]. split; [|done].
  intros n Hn. destruct (Hnodes n Hn) as [Hold|Hnew]; [|by right].
  left. by right.
Qed.

Lemma BFS_step_children (b : BFS.t) :
  ready b -> ended b = false -> step_children b.
Proof.
  cbn. unfold ended. cbn. intros (Hi & Hp) Hend.
  pose proof (BFS_step_ready b Hi Hp Hend) as Hready.
  assert (Hcase : forall position others frontier,
    BFS.iterator b ++ BFS.next_search_frontier b = position :: others ++ frontier ->
    BFS.expanding b = Some (coord position) /\
    (forall m frontier' final,
      expand BFS.push (the_maze (BFS.alg b)) frontier
             (final_searched_cell (BFS.alg b)) position = (m, frontier', final) ->
      the_maze (BFS.alg (BFS.step b)) = m /\
      BFS.iterator (BFS.step b) = others /\
      BFS.next_search_frontier (BFS.step b) = frontier' /\
      final_searched_cell (BFS.alg (BFS.step b)) = final /\
      interval_code (BFS.alg (BFS.step b)) = interval_code (BFS.alg b) /\
      is_paused (BFS.alg (BFS.step b)) = false /\
      search_ended (BFS.alg (BFS.step b))
        = match final with Some _ => true | None => false end) ->
    step_children b).
  { clear Hready. intros position others frontier Hq [Hexg Hstep].
    destruct (expand BFS.push (the_maze (BFS.alg b)) frontier
                (final_searched_cell (BFS.alg b)) position)
      as [[m' frontier'] final'] eqn:Hex.
    destruct (Hstep _ _ _ eq_refl) as (Hm & Hit' & Hnf' & Hfi & _).
    destruct (expand_children BFS.push (fun l => l) BFS_nodes_push _ _ _ _ _ _ _ Hex)
      as [Hnodes Hfinal].
    right. exists position. unfold found, maze_of. cbn.
    rewrite Hq, Hit', Hnf', Hfi. split; [by left|]. split; [done|]. split; [|done].
    intros n [Hn|Hn]%elem_of_app.
    - left. right. apply elem_of_app. by left.
    - destruct (Hnodes n Hn) as [Hold|Hnew]; [|by right].
      left. right. apply elem_of_app. by right. }
  destruct (BFS.iterator b) as [|position others] eqn:Hit;
    [destruct (BFS.next_search_frontier b) as [|position others] eqn:Hnf|].
  - destruct Hready as (Hex & Hm & He' & Hf'). left. unfold found. cbn.
    split; [done|]. split; [|done].
    intros n Hn. exfalso. revert Hn. unfold BFS.step.
    rewrite bool_decide_eq_false_2, Hp, Hit, Hnf by done. cbn.
    by intros ?%elem_of_nil.
  - apply (Hcase position others []); [|done]. by rewrite app_nil_r.
  - by apply (Hcase position others (BFS.next_search_frontier b)).
Qed.

Lemma trail_cons n : trail n = coord n :: tail (trail n).
Proof. by destruct n as [c [p|]]. Qed.

Section SimpleFacts.
Context {A : Type} {HS : Strategy A} {HL : StrategyLaws A}.
Variables (m0 : Maze) (s e : Coordinate).
Hypothesis m0_well_formed : well_formed m0.
Hypothesis m0_start : start m0 = Some s.
Hypothesis m0_end : end_ m0 = Some e.
Hypothesis m0_start_in_grid : in_grid m0 s.
Hypothesis children : forall st : A, ready st -> ended st = false -> step_children st.
Hypothesis end_kept : forall n,
  end_untouched e (maze_of (state_at m0 n)) (queue_of (state_at m0 n)).

Lemma chains_simple_at n :
  ended (state_at m0 n) = false ->
  chains_simple (queue_of (state_at m0 n)) (expanded_by m0 n).
Proof.
  induction n as [|n IH]; intros Hn.
  - destruct (run_inv_at m0 s e m0_well_formed m0_start m0_end m0_start_in_grid 0 Hn)
      as [(_ & _ & _ & Hinv) _].
    destruct (inv_queue _ _ _ _ _ Hinv) as [(Hq & _)|[Hs _]].
    + rewrite Hq. intros n ->%list_elem_of_singleton. simpl.
      split; [apply NoDup_singleton|]. by intros c ?%elem_of_nil.
    + by apply elem_of_nil in Hs.
  - assert (Hn' : ended (state_at m0 n) = false).
    { apply (not_ended_before m0 (S n)); [done|lia]. }
    specialize (IH Hn').
    destruct (run_inv_at m0 s e m0_well_formed m0_start m0_end m0_start_in_grid n Hn')
      as [(_ & _ & Hready & Hinv) _].
    rewrite expanded_by_S, state_at_S.
    destruct (children _ Hready Hn') as [(-> & Hsub & _)|(position & Hpos & -> & Hsub & _)].
    + rewrite app_nil_r. intros node Hnode. by apply IH, Hsub.
    + destruct (IH position Hpos) as [Hnd Hanc].
      intros node Hnode. destruct (Hsub node Hnode) as [Hold|(a & -> & Hne & Hfloor)].
      * destruct (IH node Hold) as [Hnd' Hanc']. split; [done|].
        intros c Hc. apply elem_of_app. left. by apply Hanc'.
      * simpl. split.
        -- apply NoDup_cons. split; [|done]. rewrite trail_cons.
           intros [->|Hin]%elem_of_cons; [done|].
           destruct (inv_expanded _ _ _ _ _ Hinv a (Hanc a Hin)) as (Hex & _).
           congruence.
        -- intros c Hc. rewrite trail_cons in Hc.
           apply elem_of_cons in Hc as [->|Hc]; apply elem_of_app; [right; by left|].
           left. by apply Hanc.
Qed.

Lemma run_found_is_simple : found_is_simple m0.
Proof.
  intros n node Hbefore Hfound. destruct n as [|n].
  { destruct (started_inv m0 s e m0_well_formed m0_start m0_end m0_start_in_grid)
      as (_ & Hnone & _).
    unfold state_at, iterate in Hfound. simpl in Hfound. congruence. }
  assert (Hn : ended (state_at m0 n) = false) by (apply Hbefore; lia).
  destruct (run_inv_at m0 s e m0_well_formed m0_start m0_end m0_start_in_grid n Hn)
    as [(_ & Hnone & Hready & Hinv) _].
  pose proof (chains_simple_at n Hn) as Hchains.
  destruct (end_kept n) as (_ & Hfloor & Hqueue).
  pose proof (step_inv _ _ _ _ (proj1 (run_inv_at m0 s e m0_well_formed m0_start m0_end
                                         m0_start_in_grid n Hn)))
    as (_ & _ & _ & Hcases).
  rewrite <- state_at_S in Hcases.
  assert (Hnode : exists position', node = Build_searched_cell e (Some position')).
  { destruct Hcases as [[_ (_ & Hf & _)]|[(_ & Hf & _)|(_ & position' & e' & _ & Hf & _ & He & _)]];
      try congruence.
    exists position'. congruence. }
  destruct Hnode as [position' ->].
  rewrite state_at_S in Hfound.
  destruct (children _ Hready Hn) as [(_ & _ & Hsame)|(position & Hpos & _ & _ & Hf)].
  { congruence. }
  destruct Hf as [Hsame|[a Ha]]; [congruence|].
  assert (position' = position) as -> by congruence.
  destruct (Hchains position Hpos) as [Hnd Hanc].
  unfold reconstruct. apply NoDup_ListNoDup, List.NoDup_rev, NoDup_ListNoDup. simpl. apply NoDup_cons. split; [|done].
  rewrite trail_cons. intros [->|Hin]%elem_of_cons.
  - by apply (Hqueue position).
  - destruct (inv_expanded _ _ _ _ _ Hinv e (Hanc e Hin)) as (Hex & _). congruence.
Qed.
End SimpleFacts.

(** X29.  The path of a found node visits no cell twice: for each of BFS,
    GBFS and A*, on a grid whose end cell is FLOOR and is not the start
    cell, the reconstructed path of a node recorded as found, up to the step
    at which the run ends, has no repeated cell. *)
Theorem every_strategy_found_is_simple m0 s e :
  well_formed m0 -> start m0 = Some s -> end_ m0 = Some e -> in_grid m0 s ->
  s <> e -> get_cell_type m0 e = Some FLOOR ->
  found_is_simple (A := BFS.t) m0 /\
  found_is_simple (A := GBFS.t) m0 /\
  found_is_simple (A := ASTAR.t) m0.
Proof.
  intros Hwf Hs He Hin Hne Hfloor.
  assert (H0 : forall node, coord node = s -> end_untouched e m0 [node]).
  { intros node Hnode. do 2 (split; [done|]).
    intros n' ->%list_elem_of_singleton. congruence. }
  split; [|split].
  - apply run_found_is_simple with s e; try done.
    + intros st Hready Hend. by apply BFS_step_children.
    + intros n. apply (end_untouched_at (A := BFS.t) m0 e (BFS_step_end e)).
      unfold maze_of. cbn. unfold BFS.new. rewrite Hs. by apply H0.
  - apply run_found_is_simple with s e; try done.
    + intros st Hready _. by apply GBFS_step_children.
    + intros n. apply (end_untouched_at (A := GBFS.t) m0 e (GBFS_step_end e)).
      unfold maze_of. cbn. unfold GBFS.new. rewrite Hs, He. cbn. by apply H0.
  - apply run_found_is_simple with s e; try done.
    + intros st Hready _. by apply ASTAR_step_children.
    + intros n. apply (end_untouched_at (A := ASTAR.t) m0 e (ASTAR_step_end e)).
      unfold maze_of. cbn. unfold ASTAR.new. rewrite Hs, He. cbn. by apply H0.
Qed.

Lemma every_strategy_found_is_simple_witness :
  (well_formed detour_6x6 /\ start detour_6x6 = Some (at_ 1 0) /\
   end_ detour_6x6 = Some (at_ 5 2) /\ in_grid detour_6x6 (at_ 1 0) /\
   at_ 1 0 <> at_ 5 2 /\ get_cell_type detour_6x6 (at_ 5 2) = Some FLOOR) /\
  found_is_simple (A := BFS.t) detour_6x6 /\
  found_is_simple (A := GBFS.t) detour_6x6 /\
  found_is_simple (A := ASTAR.t) detour_6x6.
Proof.
  assert (Hwf : well_formed detour_6x6) by (split; [reflexivity|repeat constructor]).
  assert (Hin : in_grid detour_6x6 (at_ 1 0)) by (unfold in_grid; simpl; lia).
  assert (Hne : at_ 1 0 <> at_ 5 2) by (unfold at_; congruence).
  split; [done|].
  apply (every_strategy_found_is_simple detour_6x6 (at_ 1 0) (at_ 5 2)); done.
Defined.

(** ** The theorems above on concrete inputs *)

Lemma get_neighboring_coordinates_below_wide_grid_witness :
  (well_formed wide_grid /\ height wide_grid < width wide_grid /\
   in_grid wide_grid (at_ 1 1) /\ y (at_ 1 1) = height wide_grid - 1) /\
  {| x := x (at_ 1 1); y := height wide_grid |}
    ∈ get_neighboring_coordinates wide_grid (at_ 1 1) /\
  ~ in_grid wide_grid {| x := x (at_ 1 1); y := height wide_grid |} /\
  get_cell_type wide_grid {| x := x (at_ 1 1); y := height wide_grid |} = None.
Proof.
  assert (Hwf : well_formed wide_grid) by (split; [reflexivity|repeat constructor]).
  assert (Hin : in_grid wide_grid (at_ 1 1)) by (unfold in_grid; simpl; lia).
  split; [split; [done|split; [simpl; lia|split; [done|reflexivity]]]|].
  apply (get_neighboring_coordinates_below_wide_grid wide_grid (at_ 1 1));
    [done|simpl; lia|done|reflexivity].
Defined.

Lemma reload_wipes_search_marks_witness :
  well_formed marked_2x2 /\
  exists m', reload marked_2x2 = Some m' /\ well_formed m' /\
    width m' = width marked_2x2 /\ height m' = height marked_2x2 /\
    start m' = start marked_2x2 /\ end_ m' = end_ marked_2x2 /\
    (forall c, get_cell_type m' c = wiped <$> get_cell_type marked_2x2 c) /\
    (forall c, get_cell_type m' c <> Some ACTIVE /\ get_cell_type m' c <> Some EXPLORED) /\
    reload m' = Some m'.
Proof.
  assert (Hwf : well_formed marked_2x2) by (split; [reflexivity|repeat constructor]).
  split; [done|].
  apply (reload_wipes_search_marks marked_2x2); done.
Defined.

Lemma reload_after_search_witness :
  (well_formed corners_3x3 /\ start corners_3x3 = Some (at_ 0 0) /\
   in_grid corners_3x3 (at_ 0 0) /\ get_cell_type corners_3x3 (at_ 0 0) <> Some WALL) /\
  reload (maze_of (state_at (A := BFS.t) corners_3x3 3)) = reload corners_3x3 /\
  reload (maze_of (state_at (A := GBFS.t) corners_3x3 3)) = reload corners_3x3 /\
  reload (maze_of (state_at (A := ASTAR.t) corners_3x3 3)) = reload corners_3x3.
Proof.
  assert (Hwf : well_formed corners_3x3) by (split; [reflexivity|repeat constructor]).
  assert (Hin : in_grid corners_3x3 (at_ 0 0)) by (unfold in_grid; simpl; lia).
  assert (Hwall : get_cell_type corners_3x3 (at_ 0 0) <> Some WALL)
    by (vm_compute; congruence).
  split; [done|].
  apply (reload_after_search corners_3x3 (at_ 0 0) 3); done.
Defined.

Lemma every_strategy_found_is_path_witness :
  (well_formed open_3x3 /\ start open_3x3 = Some (at_ 1 1) /\
   end_ open_3x3 = Some (at_ 1 0) /\ in_grid open_3x3 (at_ 1 1) /\
   get_cell_type open_3x3 (at_ 1 0) = Some FLOOR) /\
  found_is_path (A := BFS.t) open_3x3 (at_ 1 1) (at_ 1 0) /\
  found_is_path (A := GBFS.t) open_3x3 (at_ 1 1) (at_ 1 0) /\
  found_is_path (A := ASTAR.t) open_3x3 (at_ 1 1) (at_ 1 0).
Proof.
  assert (Hwf : well_formed open_3x3) by (split; [reflexivity|repeat constructor]).
  assert (Hin : in_grid open_3x3 (at_ 1 1)) by (unfold in_grid; simpl; lia).
  split; [done|].
  apply (every_strategy_found_is_path open_3x3 (at_ 1 1) (at_ 1 0)); done.
Defined.

(** No path crosses the wall of [walled_3x1]. *)
Lemma walled_3x1_no_path p : ~ path_between walled_3x1 (at_ 0 0) (at_ 2 0) p.
Proof.
  intros (Hh & Hl & Hp). destruct p as [|a [|b q]]; [done| |].
  - simpl in Hh, Hl. unfold at_ in *. congruence.
  - injection Hh as ->. destruct Hp as (Hadj & Hb & _).
    unfold adjacent4 in Hadj. simpl in Hadj. destruct b as [bx by_]. simpl in Hadj.
    destruct Hadj as [[-> ->]|[[-> ->]|[[-> ->]|[-> ->]]]]; vm_compute in Hb; congruence.
Qed.

Lemma every_strategy_reports_no_path_witness :
  (well_formed walled_3x1 /\ start walled_3x1 = Some (at_ 0 0) /\
   end_ walled_3x1 = Some (at_ 2 0) /\ in_grid walled_3x1 (at_ 0 0) /\
   get_cell_type walled_3x1 (at_ 2 0) = Some FLOOR /\
   (forall p, ~ path_between walled_3x1 (at_ 0 0) (at_ 2 0) p)) /\
  reports_no_path (A := BFS.t) walled_3x1 /\
  reports_no_path (A := GBFS.t) walled_3x1 /\
  reports_no_path (A := ASTAR.t) walled_3x1.
Proof.
  assert (Hwf : well_formed walled_3x1) by (split; [reflexivity|repeat constructor]).
  assert (Hin : in_grid walled_3x1 (at_ 0 0)) by (unfold in_grid; simpl; lia).
  split; [split; [done|split; [done|split; [done|split; [done|split; [done|]]]]];
          apply walled_3x1_no_path|].
  apply (every_strategy_reports_no_path walled_3x1 (at_ 0 0) (at_ 2 0));
    [done|done|done|done|done|apply walled_3x1_no_path].
Defined.

Lemma GBFS_finds_a_path_witness :
  (well_formed detour_6x6 /\ start detour_6x6 = Some (at_ 1 0) /\
   end_ detour_6x6 = Some (at_ 5 2) /\ in_grid detour_6x6 (at_ 1 0) /\
   height detour_6x6 <= width detour_6x6 /\ at_ 1 0 <> at_ 5 2 /\
   path_between detour_6x6 (at_ 1 0) (at_ 5 2) detour_short_path) /\
  finds_path (A := GBFS.t) detour_6x6 (at_ 1 0) (at_ 5 2).
Proof.
  assert (Hwf : well_formed detour_6x6) by (split; [reflexivity|repeat constructor]).
  assert (Hin : in_grid detour_6x6 (at_ 1 0)) by (unfold in_grid; simpl; lia).
  assert (Hhw : height detour_6x6 <= width detour_6x6) by (simpl; lia).
  assert (Hne : at_ 1 0 <> at_ 5 2) by (unfold at_; congruence).
  assert (Hp : path_between detour_6x6 (at_ 1 0) (at_ 5 2) detour_short_path).
  { split; [reflexivity|]. split; [reflexivity|].
    unfold detour_short_path. cbn [floor_path].
    repeat (split; [unfold adjacent4; simpl; lia|split; [reflexivity|]]). done. }
  split; [done|].
  apply (GBFS_finds_a_path detour_6x6 (at_ 1 0) (at_ 5 2) detour_short_path); done.
Defined.

Lemma every_strategy_picture_witness :
  (well_formed corners_3x3 /\ start corners_3x3 = Some (at_ 0 0) /\
   end_ corners_3x3 = Some (at_ 2 2) /\ in_grid corners_3x3 (at_ 0 0)) /\
  (ended (state_at (A := BFS.t) corners_3x3 2) = false ->
   search_picture (A := BFS.t) corners_3x3 (at_ 0 0) 2) /\
  (ended (state_at (A := GBFS.t) corners_3x3 2) = false ->
   search_picture (A := GBFS.t) corners_3x3 (at_ 0 0) 2) /\
  (ended (state_at (A := ASTAR.t) corners_3x3 2) = false ->
   search_picture (A := ASTAR.t) corners_3x3 (at_ 0 0) 2).
Proof.
  assert (Hwf : well_formed corners_3x3) by (split; [reflexivity|repeat constructor]).
  assert (Hin : in_grid corners_3x3 (at_ 0 0)) by (unfold in_grid; simpl; lia).
  split; [done|].
  apply (every_strategy_picture corners_3x3 (at_ 0 0) (at_ 2 2) 2); done.
Defined.

Lemma ASTAR_elements_made_witness :
  let element :=
    {| ASTAR.priority := SFadd prec emax (of_Z 0) (euclidean_distance (at_ 2 2) (at_ 1 0));
       ASTAR.cell := Build_searched_cell (at_ 1 0) (Some (Build_searched_cell (at_ 0 0) None));
       ASTAR.length := 1 |} in
  (well_formed corners_3x3 /\ start corners_3x3 = Some (at_ 0 0) /\
   end_ corners_3x3 = Some (at_ 2 2) /\ in_grid corners_3x3 (at_ 0 0) /\
   element ∈ ASTAR.search_frontier (state_at (A := ASTAR.t) corners_3x3 1)) /\
  ASTAR_element_made (at_ 0 0) (at_ 2 2) element.
Proof.
  intros element.
  assert (Hwf : well_formed corners_3x3) by (split; [reflexivity|repeat constructor]).
  assert (Hgrid : in_grid corners_3x3 (at_ 0 0)) by (unfold in_grid; simpl; lia).
  assert (Hin : element ∈ ASTAR.search_frontier (state_at (A := ASTAR.t) corners_3x3 1)).
  { vm_compute. left. }
  split; [done|].
  apply (ASTAR_elements_made corners_3x3 (at_ 0 0) (at_ 2 2) 1 element); done.
Defined.

Lemma GBFS_priority_is_distance_witness :
  let element :=
    {| GBFS.priority := euclidean_distance (at_ 1 0) (at_ 2 2);
       GBFS.cell := Build_searched_cell (at_ 1 0) (Some (Build_searched_cell (at_ 0 0) None)) |} in
  (well_formed corners_3x3 /\ start corners_3x3 = Some (at_ 0 0) /\
   end_ corners_3x3 = Some (at_ 2 2) /\ in_grid corners_3x3 (at_ 0 0) /\
   element ∈ GBFS.search_frontier (state_at (A := GBFS.t) corners_3x3 1)) /\
  GBFS.priority element = euclidean_distance (coord (GBFS.cell element)) (at_ 2 2).
Proof.
  intros element.
  assert (Hwf : well_formed corners_3x3) by (split; [reflexivity|repeat constructor]).
  assert (Hgrid : in_grid corners_3x3 (at_ 0 0)) by (unfold in_grid; simpl; lia).
  assert (Hin : element ∈ GBFS.search_frontier (state_at (A := GBFS.t) corners_3x3 1)).
  { vm_compute. left. }
  split; [done|].
  apply (GBFS_priority_is_distance corners_3x3 (at_ 0 0) (at_ 2 2) 1 element); done.
Defined.

Lemma every_strategy_paints_between_witness :
  (well_formed open_3x3 /\ start open_3x3 = Some (at_ 1 1) /\
   end_ open_3x3 = Some (at_ 1 0) /\ in_grid open_3x3 (at_ 1 1) /\
   get_cell_type open_3x3 (at_ 1 0) = Some FLOOR) /\
  paints_between (A := BFS.t) open_3x3 (at_ 1 1) (at_ 1 0) /\
  paints_between (A := GBFS.t) open_3x3 (at_ 1 1) (at_ 1 0) /\
  paints_between (A := ASTAR.t) open_3x3 (at_ 1 1) (at_ 1 0).
Proof.
  assert (Hwf : well_formed open_3x3) by (split; [reflexivity|repeat constructor]).
  assert (Hin : in_grid open_3x3 (at_ 1 1)) by (unfold in_grid; simpl; lia).
  split; [done|].
  apply (every_strategy_paints_between open_3x3 (at_ 1 1) (at_ 1 0)); done.
Defined.

Lemma click_toggles_cell_witness :
  (well_formed open_3x3 /\ in_grid open_3x3 (at_ 2 2) /\ idle click_event_initial /\
   start open_3x3 <> Some (at_ 2 2) /\ end_ open_3x3 <> Some (at_ 2 2)) /\
  exists m' click_event',
    onmouseup (at_ 2 2) open_3x3 (onmousedown false (at_ 2 2) open_3x3 click_event_initial)
    = Some (m', click_event') /\
    idle click_event' /\ well_formed m' /\
    width m' = width open_3x3 /\ height m' = height open_3x3 /\
    start m' = start open_3x3 /\ end_ m' = end_ open_3x3 /\
    get_cell_type m' (at_ 2 2)
    = Some (if bool_decide (get_cell_type open_3x3 (at_ 2 2) = Some FLOOR)
            then WALL else FLOOR) /\
    (forall c', c' <> at_ 2 2 -> get_cell_type m' c' = get_cell_type open_3x3 c') /\
    (get_cell_type open_3x3 (at_ 2 2) = Some FLOOR \/
     get_cell_type open_3x3 (at_ 2 2) = Some WALL ->
     exists click_event'',
       onmouseup (at_ 2 2) m' (onmousedown false (at_ 2 2) m' click_event')
       = Some (open_3x3, click_event'')).
Proof.
  assert (Hwf : well_formed open_3x3) by (split; [reflexivity|repeat constructor]).
  assert (Hin : in_grid open_3x3 (at_ 2 2)) by (unfold in_grid; simpl; lia).
  assert (Hidle : idle click_event_initial) by (repeat split).
  assert (Hs : start open_3x3 <> Some (at_ 2 2)) by (vm_compute; congruence).
  assert (He : end_ open_3x3 <> Some (at_ 2 2)) by (vm_compute; congruence).
  split; [done|].
  apply (click_toggles_cell open_3x3 click_event_initial (at_ 2 2)); done.
Defined.

Lemma drag_moves_start_witness :
  (well_formed open_3x3 /\ start open_3x3 = Some (at_ 1 1) /\
   in_grid open_3x3 (at_ 1 1) /\ in_grid open_3x3 (at_ 0 0) /\
   idle click_event_initial) /\
  exists m' click_event',
    onmouseup (at_ 0 0) open_3x3 (onmousedown false (at_ 1 1) open_3x3 click_event_initial)
    = Some (m', click_event') /\
    idle click_event' /\ well_formed m' /\
    width m' = width open_3x3 /\ height m' = height open_3x3 /\
    start m' = Some (at_ 0 0) /\ end_ m' = end_ open_3x3 /\
    (forall c', get_cell_type m' c'
                = if decide (c' = at_ 1 1) then get_cell_type open_3x3 (at_ 0 0)
                  else if decide (c' = at_ 0 0) then Some FLOOR
                  else get_cell_type open_3x3 c').
Proof.
  assert (Hwf : well_formed open_3x3) by (split; [reflexivity|repeat constructor]).
  assert (Hin : in_grid open_3x3 (at_ 1 1)) by (unfold in_grid; simpl; lia).
  assert (Hin' : in_grid open_3x3 (at_ 0 0)) by (unfold in_grid; simpl; lia).
  assert (Hidle : idle click_event_initial) by (repeat split).
  split; [done|].
  apply (drag_moves_start open_3x3 click_event_initial (at_ 1 1) (at_ 0 0)); done.
Defined.

Lemma drag_moves_end_witness :
  (well_formed open_3x3 /\ end_ open_3x3 = Some (at_ 1 0) /\
   start open_3x3 <> Some (at_ 1 0) /\
   in_grid open_3x3 (at_ 1 0) /\ in_grid open_3x3 (at_ 2 2) /\
   idle click_event_initial) /\
  exists m' click_event',
    onmouseup (at_ 2 2) open_3x3 (onmousedown false (at_ 1 0) open_3x3 click_event_initial)
    = Some (m', click_event') /\
    idle click_event' /\ well_formed m' /\
    width m' = width open_3x3 /\ height m' = height open_3x3 /\
    start m' = start open_3x3 /\ end_ m' = Some (at_ 2 2) /\
    (forall c', get_cell_type m' c'
                = if decide (c' = at_ 1 0) then get_cell_type open_3x3 (at_ 2 2)
                  else if decide (c' = at_ 2 2) then Some FLOOR
                  else get_cell_type open_3x3 c').
Proof.
  assert (Hwf : well_formed open_3x3) by (split; [reflexivity|repeat constructor]).
  assert (Hin : in_grid open_3x3 (at_ 1 0)) by (unfold in_grid; simpl; lia).
  assert (Hin' : in_grid open_3x3 (at_ 2 2)) by (unfold in_grid; simpl; lia).
  assert (Hidle : idle click_event_initial) by (repeat split).
  assert (Hs : start open_3x3 <> Some (at_ 1 0)) by (vm_compute; congruence).
  split; [done|].
  apply (drag_moves_end open_3x3 click_event_initial (at_ 1 0) (at_ 2 2)); done.
Defined.
